(** * nice-api: the mint request pipeline, its retry wrapper and signing adapter

    A shallow embedding of [src/server.ts] and [src/clients.ts].

    - JavaScript strings are sequences of code units; the embedding covers the
      Latin-1 range U+0000..U+00FF, one [ascii] per code unit.
    - JavaScript numbers that hold counters, timestamps and configuration
      integers are [Z]; the one quotient the code computes
      ([CIRCUIT_BREAKER_RESET_TIME / 1000]) is kept as an exact rational [Q].
    - [async] functions are state-passing functions over an abstract world [W]
      (the custodial service, the share database, the relay and the clock);
      every call they make to a collaborator is recorded in a call tree.
    - exceptions are values: a computation returns [Ok v] or [Throw e]. *)

From Stdlib Require Import ZArith QArith Lia Bool Ascii String List.
From stdpp Require Import base option strings gmap.

Set Warnings "-register-all".
Import ListNotations.

Open Scope string_scope.
Open Scope list_scope.
Open Scope Z_scope.

(* ===================================================================== *)
(** ** JavaScript strings                                                  *)
(* ===================================================================== *)

Module Js.

Definition code (c : ascii) : Z := Z.of_N (N_of_ascii c).

Definition chr (z : Z) : ascii := ascii_of_N (Z.to_N z).

Definition between (lo hi : Z) (c : ascii) : bool :=
  (lo <=? code c) && (code c <=? hi).

(** [\d] : the ten ASCII digits. *)
Definition isDigit (c : ascii) : bool := between 48 57 c.

(** WhiteSpace and LineTerminator code units below U+0100:
    TAB, LF, VT, FF, CR, SP, NBSP.  This is both what [\s] matches and what
    [String.prototype.trim] strips. *)
Definition isSpace (c : ascii) : bool :=
  between 9 13 c || (code c =? 32) || (code c =? 160).

(** A string used as a condition: [undefined] and [""] are falsy. *)
Definition truthy (o : option string) : bool :=
  match o with
  | Some s => negb (String.eqb s "")
  | None => false
  end.

(** [a || b] on optional strings. *)
Definition or_else (a b : option string) : option string :=
  if truthy a then a else b.

(** [String.prototype.toLowerCase], on Latin-1: A..Z and the accented capitals
    U+00C0..U+00DE (without the multiplication sign U+00D7) move up by 32. *)
Definition lowerChar (c : ascii) : ascii :=
  if between 65 90 c || (between 192 222 c && negb (code c =? 215))
  then chr (code c + 32)
  else c.

Fixpoint toLowerCase (s : string) : string :=
  match s with
  | EmptyString => EmptyString
  | String c s' => String (lowerChar c) (toLowerCase s')
  end.

Fixpoint trimStart (s : string) : string :=
  match s with
  | EmptyString => EmptyString
  | String c s' => if isSpace c then trimStart s' else s
  end.

Fixpoint trimEnd (s : string) : string :=
  match s with
  | EmptyString => EmptyString
  | String c s' =>
      match trimEnd s' with
      | EmptyString => if isSpace c then EmptyString else String c EmptyString
      | t => String c t
      end
  end.

(** [String.prototype.trim]. *)
Definition trim (s : string) : string := trimEnd (trimStart s).

Fixpoint take (n : nat) (s : string) : string :=
  match n, s with
  | S n', String c s' => String c (take n' s')
  | _, _ => EmptyString
  end.

Fixpoint drop (n : nat) (s : string) : string :=
  match n, s with
  | S n', String _ s' => drop n' s'
  | _, _ => s
  end.

(** [s.slice(-2)] : the last two code units (the whole string when shorter). *)
Definition sliceLast2 (s : string) : string :=
  drop (String.length s - 2) s.

(** [s.slice(0, -2)] : everything but the last two code units. *)
Definition sliceButLast2 (s : string) : string :=
  take (String.length s - 2) s.

(** [s.padStart(2, "0")]. *)
Definition padStart2 (s : string) : string :=
  match String.length s with
  | O => "00"
  | S O => String "0" s
  | _ => s
  end.

(** Value of a hexadecimal digit, in either case. *)
Definition hexValue (c : ascii) : option Z :=
  if between 48 57 c then Some (code c - 48)
  else if between 97 102 c then Some (code c - 87)
  else if between 65 70 c then Some (code c - 55)
  else None.

Definition isHexDigit (c : ascii) : bool :=
  match hexValue c with Some _ => true | None => false end.

(** The longest prefix of hexadecimal digits, read most significant first;
    [None] when the prefix is empty. *)
Fixpoint hexPrefix (acc : option Z) (s : string) : option Z :=
  match s with
  | EmptyString => acc
  | String c s' =>
      match hexValue c with
      | Some d =>
          hexPrefix (Some (16 * (match acc with Some a => a | None => 0 end) + d)) s'
      | None => acc
      end
  end.

Definition stripHexMarker (s : string) : string :=
  match s with
  | String "0" (String "x" s') => s'
  | String "0" (String "X" s') => s'
  | _ => s
  end.

(** [parseInt(s, 16)] : leading white space is skipped, one sign is read, a
    [0x] marker is dropped, then the longest run of hexadecimal digits is
    taken; [None] stands for [NaN]. *)
Definition parseInt16 (s : string) : option Z :=
  match trimStart s with
  | String "-" s' => option_map Z.opp (hexPrefix None (stripHexMarker s'))
  | String "+" s' => hexPrefix None (stripHexMarker s')
  | s' => hexPrefix None (stripHexMarker s')
  end.

Definition hexDigit (d : Z) : ascii :=
  if d <? 10 then chr (48 + d) else chr (87 + d).

Fixpoint toHexDigits (fuel : nat) (n : Z) (acc : string) : string :=
  match fuel with
  | O => acc
  | S fuel' =>
      let acc' := String (hexDigit (n mod 16)) acc in
      if n <? 16 then acc' else toHexDigits fuel' (n / 16) acc'
  end.

(** [n.toString(16)] for an integer [n]. *)
Definition toString16 (n : Z) : string :=
  if n <? 0
  then String "-" (toHexDigits (S (Z.to_nat (Z.log2 (- n)))) (- n) "")
  else toHexDigits (S (Z.to_nat (Z.log2 n))) n "".

(** [x < 27] where [x] may be [NaN]: every comparison with [NaN] is false. *)
Definition ltNum (x : option Z) (y : Z) : bool :=
  match x with
  | Some v => v <? y
  | None => false
  end.

End Js.

(* ===================================================================== *)
(** ** Regular expressions of the shape [^ t1 t2 ... tn $]                *)
(* ===================================================================== *)

Module Regex.

Inductive charset : Type :=
  | CsChar (c : ascii)            (* a literal such as [\+], [@], [\.] *)
  | CsRange (lo hi : ascii)       (* [[1-9]] *)
  | CsDigit                       (* [\d] *)
  | CsSpace                       (* [\s] *)
  | CsUnion (a b : charset)       (* members of a bracket class *)
  | CsNeg (a : charset).          (* [[^...]] *)

Fixpoint mem (cs : charset) (c : ascii) : bool :=
  match cs with
  | CsChar c' => Ascii.eqb c c'
  | CsRange lo hi => Js.between (Js.code lo) (Js.code hi) c
  | CsDigit => Js.isDigit c
  | CsSpace => Js.isSpace c
  | CsUnion a b => mem a c || mem b c
  | CsNeg a => negb (mem a c)
  end.

(** A quantified atom: [atom{qmin,qmax}], with [qmax = None] for no bound. *)
Record term : Type := Term { atom : charset; qmin : nat; qmax : option nat }.

Definition once (cs : charset) : term := Term cs 1 (Some 1%nat).
Definition plus (cs : charset) : term := Term cs 1 None.
Definition rep (cs : charset) (lo hi : nat) : term := Term cs lo (Some hi).

Definition regex : Type := list term.

Definition more (hi : option nat) : bool :=
  match hi with
  | Some O => false
  | _ => true
  end.

Definition dec (hi : option nat) : option nat := option_map Nat.pred hi.

(** Backtracking repeat matcher in continuation style: try one more
    repetition first (greedy), fall back to the continuation [k] once the
    lower bound is met. *)
Fixpoint match_rep (cs : charset) (lo : nat) (hi : option nat)
    (k : string -> bool) (s : string) {struct s} : bool :=
  (match s with
   | String c s' =>
       if more hi && mem cs c
       then match_rep cs (Nat.pred lo) (dec hi) k s'
       else false
   | EmptyString => false
   end)
  || (match lo with O => k s | S _ => false end).

Fixpoint match_terms (r : regex) : string -> bool :=
  match r with
  | [] => fun s => String.eqb s ""                       (* the [$] anchor *)
  | t :: r' => match_rep (atom t) (qmin t) (qmax t) (match_terms r')
  end.

(** [r.test(s)] for a regex anchored at both ends, without flags. *)
Definition test (r : regex) (s : string) : bool := match_terms r s.

End Regex.

(* ===================================================================== *)
(** ** server.ts: validation                                               *)
(* ===================================================================== *)

Import Regex.

(** [/^[^\s@]+@[^\s@]+\.[^\s@]+$/] *)
Definition emailRegex : regex :=
  [ plus (CsNeg (CsUnion CsSpace (CsChar "@")));
    once (CsChar "@");
    plus (CsNeg (CsUnion CsSpace (CsChar "@")));
    once (CsChar ".");
    plus (CsNeg (CsUnion CsSpace (CsChar "@"))) ].

Definition isValidEmail (email : string) : bool := test emailRegex email.

(** [/^\+[1-9]\d{1,14}$/] *)
Definition phoneRegex : regex :=
  [ once (CsChar "+"); once (CsRange "1" "9"); rep CsDigit 1 14 ].

Definition isValidPhone (phone : string) : bool := test phoneRegex phone.


(* ===================================================================== *)
(** ** Exceptions, outcomes and the call tree                              *)
(* ===================================================================== *)

(** The error classes of the two modules.  [server.ts] declares its own
    [CapsuleInitializationError] and [WalletOperationError]; they share only
    the name with the classes of [clients.ts], so [instanceof] tells them
    apart. *)
Inductive errclass : Type :=
  | ClsError
  | ClsTypeError
  | ClientsCapsuleInitializationError
  | ClientsWalletOperationError
  | ClientsSigningError
  | ServerCapsuleInitializationError
  | ServerWalletOperationError.

(** A thrown value: an [Error] object (class, message, [originalError]),
    [undefined], [null], or some other value that is not an [Error] (a
    string, a number, a plain object). *)
Inductive exn : Type :=
  | Err (cls : errclass) (message : string) (originalError : option exn)
  | Undefined
  | Null
  | NonError (description : string).

Definition errname (c : errclass) : string :=
  match c with
  | ClsError => "Error"
  | ClsTypeError => "TypeError"
  | ClientsCapsuleInitializationError
  | ServerCapsuleInitializationError => "CapsuleInitializationError"
  | ClientsWalletOperationError
  | ServerWalletOperationError => "WalletOperationError"
  | ClientsSigningError => "SigningError"
  end.

Definition errclass_eqb (a b : errclass) : bool :=
  match a, b with
  | ClsError, ClsError | ClsTypeError, ClsTypeError
  | ClientsCapsuleInitializationError, ClientsCapsuleInitializationError
  | ClientsWalletOperationError, ClientsWalletOperationError
  | ClientsSigningError, ClientsSigningError
  | ServerCapsuleInitializationError, ServerCapsuleInitializationError
  | ServerWalletOperationError, ServerWalletOperationError => true
  | _, _ => false
  end.

(** [e instanceof C] for one of the classes above ([C] other than [Error]). *)
Definition instanceof (e : exn) (c : errclass) : bool :=
  match e with
  | Err c' _ _ => errclass_eqb c' c
  | _ => false
  end.

(** [e instanceof Error]. *)
Definition isError (e : exn) : bool :=
  match e with
  | Err _ _ _ => true
  | _ => false
  end.

Inductive outcome (A : Type) : Type :=
  | Ok (a : A)
  | Throw (e : exn).
Arguments Ok {A} a.
Arguments Throw {A} e.

Inductive PregenIdentifierType : Type := EMAIL | PHONE.

(** The calls that leave the two modules: the custodial SDK, the database
    client, the account-abstraction SDK. *)
Inductive call : Type :=
  | NewCapsule
  | GetWallets
  | HasPregenWallet (identifier : string) (ty : PregenIdentifierType)
  | CreateWalletPreGen (identifier : string) (ty : PregenIdentifierType)
  | GetUserShare
  | SetUserShare (share : string)
  | DbInsertShare (identifier share : string) (ty : PregenIdentifierType)
  | DbSelectShare (identifier : string)
  | SignMessage (walletId payload : string)
  | CreateCapsuleAccount
  | CreateCapsuleViemClient
  | CreateModularAccountAlchemyClient
  | SendUserOperation (target data : string).

(** What a computation did, in order: collaborator calls, timer waits, and
    for each [operation()] issued by the retry wrapper a node holding what
    that invocation did. *)
Inductive event : Type :=
  | EvCall (c : call)
  | EvSleep (ms : Z)
  | EvAttempt (attempt : Z) (inner : list event).

Definition is_attempt (e : event) : bool :=
  match e with EvAttempt _ _ => true | _ => false end.

(** Number of invocations the wrapper issued itself (top level only). *)
Definition attempts (tr : list event) : nat :=
  List.length (List.filter is_attempt tr).

(** The waits of the wrapper itself, in order. *)
Fixpoint sleeps (tr : list event) : list Z :=
  match tr with
  | [] => []
  | EvSleep ms :: tr' => ms :: sleeps tr'
  | _ :: tr' => sleeps tr'
  end.

(** All collaborator calls, in order, whatever their depth. *)
Fixpoint calls_of (e : event) : list call :=
  match e with
  | EvCall c => [c]
  | EvSleep _ => []
  | EvAttempt _ inner => flat_map calls_of inner
  end.

Definition calls (tr : list event) : list call := flat_map calls_of tr.

(* ===================================================================== *)
(** ** The computation monad                                               *)
(* ===================================================================== *)

Section Computation.

(** The world outside the process: it advances while a timer runs. *)
Context {W : Type} (sleep : Z -> W -> W).

Definition M (A : Type) : Type := W -> outcome A * W * list event.

Definition ret {A} (a : A) : M A := fun w => (Ok a, w, []).

Definition throw {A} (e : exn) : M A := fun w => (Throw e, w, []).

Definition bind {A B} (m : M A) (f : A -> M B) : M B :=
  fun w =>
    match m w with
    | (Ok a, w1, tr1) =>
        match f a w1 with
        | (r, w2, tr2) => (r, w2, tr1 ++ tr2)
        end
    | (Throw e, w1, tr1) => (Throw e, w1, tr1)
    end.

(** [try { m } catch (error) { h error }]. *)
Definition try_catch {A} (m : M A) (h : exn -> M A) : M A :=
  fun w =>
    match m w with
    | (Ok a, w1, tr1) => (Ok a, w1, tr1)
    | (Throw e, w1, tr1) =>
        match h e w1 with
        | (r, w2, tr2) => (r, w2, tr1 ++ tr2)
        end
    end.

(** A call to a collaborator, recorded under its label. *)
Definition external {A} (c : call) (f : W -> outcome A * W) : M A :=
  fun w => match f w with (r, w1) => (r, w1, [EvCall c]) end.

(** [const delay = (ms) => new Promise((resolve) => setTimeout(resolve, ms))] *)
Definition delay (ms : Z) : M unit :=
  fun w => (Ok tt, sleep ms w, [EvSleep ms]).

End Computation.

Notation "'let!' x ':=' m 'in' k" := (bind m (fun x => k))
  (at level 10, x name, m at level 100, k at level 200).
Notation "'run!' m 'in' k" := (bind m (fun _ => k))
  (at level 10, m at level 100, k at level 200).

(* ===================================================================== *)
(** ** clients.ts: the retry wrapper                                       *)
(* ===================================================================== *)

Definition MAX_RETRIES_clients : Z := 3.
Definition RETRY_DELAY : Z := 1000.

Section Retry.

Context {W : Type} (sleep : Z -> W -> W).

(** The body of [for (let attempt = 1; attempt <= maxRetries; attempt++)].
    [remaining] counts the iterations still allowed by the loop condition
    (it is [maxRetries - attempt + 1]); at [O] the loop is left and
    [lastError] is thrown.  [lastError = None] is the unassigned variable. *)
Fixpoint retry_loop {T} (operation : M T) (maxRetries retryDelay : Z)
    (remaining : nat) (attempt : Z) (lastError : option exn) : M (W:=W) T :=
  match remaining with
  | O => throw (match lastError with Some e => e | None => Undefined end)
  | S remaining' =>
      fun w =>
        match operation w with
        | (Ok v, w1, tr) => (Ok v, w1, [EvAttempt attempt tr])
        | (Throw error, w1, tr) =>
            if attempt =? maxRetries
            then (Throw error, w1, [EvAttempt attempt tr])       (* break *)
            else
              match
                (run! delay sleep retryDelay in
                 retry_loop operation maxRetries retryDelay
                   remaining' (attempt + 1) (Some error)) w1
              with
              | (r, w2, tr2) => (r, w2, EvAttempt attempt tr :: tr2)
              end
        end
  end.

Definition retry {T} (operation : M T) (maxRetries retryDelay : Z) : M T :=
  retry_loop operation maxRetries retryDelay (Z.to_nat maxRetries) 1 None.

(** Outcome and world of invocation number [k] (counted from [0]) when the
    [k] invocations before it all failed and each was followed by a wait of
    [d]; [None] when an earlier invocation succeeded. *)
Fixpoint nth_invocation {T} (operation : M T) (d : Z) (k : nat) (w : W)
    : option (outcome T * W) :=
  match k with
  | O => match operation w with (r, w1, _) => Some (r, w1) end
  | S k' =>
      match operation w with
      | (Throw _, w1, _) => nth_invocation operation d k' (sleep d w1)
      | (Ok _, _, _) => None
      end
  end.

End Retry.

(* ===================================================================== *)
(** ** The collaborators                                                   *)
(* ===================================================================== *)

(** A wallet as the custodial SDK hands it out. *)
Record Wallet : Type := { wallet_id : string; wallet_address : option string }.

(** [Record<string, Wallet>], in property order. *)
Definition WalletSet : Type := list (string * Wallet).

(** [Object.values(wallets)[0]] *)
Definition firstWallet (wallets : WalletSet) : option Wallet :=
  match wallets with
  | [] => None
  | (_, wallet) :: _ => Some wallet
  end.

(** A JavaScript value where the code inspects its type. *)
Inductive jsval : Type :=
  | VUndefined
  | VString (s : string)
  | VOther.                       (* a number, an object, ... *)

Record SignatureRes : Type := { signature : jsval }.

(** [{ data, error }] of a [select("user_share")...single()] query;
    [sel_share] is [data?.user_share]. *)
Record SelectResult : Type :=
  { sel_share : option string; sel_error : option exn }.

(** [{ error }] of an [insert]. *)
Record InsertResult : Type := { ins_error : option exn }.

Record UserOperationResult : Type := { hash : string }.

(** What the account-abstraction SDK does with one user operation.  It signs
    through the wallet client its signer wraps: it may ask that client for a
    signature, any finite number of times, and goes on from the signature or
    from the error the client threw, until it answers. *)
Inductive Relay (W : Type) : Type :=
  | RelayDone (r : outcome UserOperationResult)
  | RelaySign (message : string) (next : outcome string -> W -> Relay W * W).
Arguments RelayDone {W} r.
Arguments RelaySign {W} message next.

(** The viem wallet client after [createViemClient] has replaced its
    [signMessage] method. *)
Record WalletClient (W ViemBase : Type) : Type :=
  { viem_base : ViemBase;
    signMessage : string -> M (W:=W) string }.
Arguments viem_base {W ViemBase} _.
Arguments signMessage {W ViemBase} _ _ _.

(** Runs the SDK's side of a user operation against [sign], the
    [signMessage] of the wallet client; what [sign] does is recorded. *)
Fixpoint runRelay {W} (sign : string -> M (W:=W) string) (r : Relay W)
    : M (W:=W) UserOperationResult :=
  match r with
  | RelayDone res => fun w => (res, w, [])
  | RelaySign message next =>
      fun w =>
        match sign message w with
        | (signed, w1, tr1) =>
            match next signed w1 with
            | (r', w2) =>
                match runRelay sign r' w2 with
                | (res, w3, tr2) => (res, w3, tr1 ++ tr2)
                end
            end
        end
  end.

(** Everything outside the two modules.  Each operation may change the world
    and may throw.  None of them is handed code of the two modules: where the
    SDK calls back into [customSignMessage], [Relay] says so. *)
Class Env : Type := {
  W : Type;
  Capsule : Type;
  Account : Type;
  ViemBase : Type;
  AlchemyClient : Type;
  (* timers and clock *)
  sleep : Z -> W -> W;
  clock : W -> Z;                                         (* [Date.now()] *)
  (* the custodial SDK *)
  capsule_new : string -> string -> W -> outcome Capsule * W;
  capsule_wallets : Capsule -> W -> option WalletSet;    (* [capsule.wallets] *)
  capsule_getWallets : Capsule -> W -> outcome (option WalletSet) * W;
  capsule_hasPregenWallet :
    Capsule -> string -> PregenIdentifierType -> W -> outcome bool * W;
  capsule_createWalletPreGen :
    Capsule -> string -> PregenIdentifierType -> W -> outcome Wallet * W;
  capsule_getUserShare : Capsule -> W -> outcome (option string) * W;
  capsule_setUserShare : Capsule -> string -> W -> outcome unit * W;
  capsule_signMessage :
    Capsule -> string -> string -> W -> outcome SignatureRes * W;
  hexStringToBase64 : string -> string;
  (* the database client *)
  supabase_insert :
    string -> PregenIdentifierType -> string -> W -> outcome InsertResult * W;
  supabase_select_share : string -> W -> outcome SelectResult * W;
  (* viem and the account-abstraction SDK *)
  hashMessage : string -> string;
  (* the call data, or the message of the error that viem throws *)
  encodeFunctionData : string -> list string -> string + string;
  createCapsuleAccount : Capsule -> W -> outcome Account * W;
  createCapsuleViemClient :
    Capsule -> Account -> string -> W -> outcome ViemBase * W;
  (* building the account client reads the signer's address; it asks for
     no signature *)
  createModularAccountAlchemyClient :
    string -> string -> ViemBase -> W -> outcome AlchemyClient * W;
  sendUserOperation : AlchemyClient -> string -> string -> W -> Relay W * W;
  (* express-rate-limit: does the request pass? *)
  limiter : W -> bool * W
}.

(** constants.ts *)
Record Constants : Type := {
  CAPSULE_API_KEY : string;
  ALCHEMY_API_KEY : string;
  ALCHEMY_GAS_POLICY_ID : string
}.

Definition CAPSULE_ENVIRONMENT : string := "BETA".

Definition ALCHEMY_RPC_URL (K : Constants) : string :=
  "https://base-sepolia.g.alchemy.com/v2/" +:+ ALCHEMY_API_KEY K.

Definition NFT_CONTRACT_ADDRESS : string :=
  "0xb8db917bd55DEAec469236Ace6058f2fa76791E6".

Definition nonempty (s : string) : bool := negb (String.eqb s "").

(* ===================================================================== *)
(** ** database.ts                                                         *)
(* ===================================================================== *)

Section Database.

Context `{X : Env}.

Local Abbreviation Task := (M (W:=W)).

Definition storeUserShare (identifier userShare : string)
    (identifierType : PregenIdentifierType) : Task unit :=
  try_catch
    (let! res := external (DbInsertShare identifier userShare identifierType)
                   (supabase_insert identifier identifierType userShare) in
     match ins_error res with
     | Some error => throw error
     | None => ret tt
     end)
    (fun _ => throw (Err ClsError "Failed to store user share" None)).

Definition getUserShareFromDatabase (identifier : string) : Task (option string) :=
  try_catch
    (let! res := external (DbSelectShare identifier)
                   (supabase_select_share identifier) in
     match sel_error res with
     | Some error => throw error
     | None =>                                    (* data?.user_share || null *)
         ret (if Js.truthy (sel_share res) then sel_share res else None)
     end)
    (fun _ => throw (Err ClsError "Failed to get user share" None)).

End Database.

(* ===================================================================== *)
(** ** clients.ts                                                          *)
(* ===================================================================== *)

Section Clients.

Context `{X : Env} (K : Constants).

Local Abbreviation Task := (M (W:=W)).

(** [retry(operation)] with the default arguments. *)
Definition retry3 {T} (operation : Task T) : Task T :=
  retry sleep operation MAX_RETRIES_clients RETRY_DELAY.

Definition initializeCapsule : Task Capsule :=
  try_catch
    (if negb (nonempty (CAPSULE_API_KEY K)) || negb (nonempty CAPSULE_ENVIRONMENT)
     then throw (Err ClientsCapsuleInitializationError
                   "Missing required environment variables" None)
     else
       retry3
         (let! capsule := external NewCapsule
                            (capsule_new CAPSULE_ENVIRONMENT (CAPSULE_API_KEY K)) in
          (* Test the connection *)
          run! try_catch
                 (let! wallets := external GetWallets (capsule_getWallets capsule) in
                  match wallets with
                  | None => throw (Err ClsError "Failed to connect to Capsule" None)
                  | Some _ => ret tt
                  end)
                 (fun error =>
                    throw (Err ClientsCapsuleInitializationError
                             "Failed to initialize Capsule SDK" (Some error))) in
          ret capsule))
    (fun error =>
       throw (Err ClientsCapsuleInitializationError
                "Failed to initialize Capsule" (Some error))).

(** [if (!share) throw e; return share] on a [string | null]. *)
Definition orThrow (share : option string) (e : exn) : Task string :=
  match share with
  | Some s => if nonempty s then ret s else throw e
  | None => throw e
  end.

(** Identifier kinds are the non-empty strings ["EMAIL"] and ["PHONE"], so
    [!identifierType] is always false.  The [catch] block reads three
    properties of the value it caught before it wraps it, which throws a
    [TypeError] of its own when that value is [undefined] or [null]. *)
Definition createOrGetPregenWallet (capsule : Capsule) (identifier : string)
    (identifierType : PregenIdentifierType) : Task Wallet :=
  if negb (nonempty identifier)
  then throw (Err ClientsWalletOperationError
                "Invalid identifier or identifier type" None)
  else
    try_catch
      (let! hasWallet :=
         retry3 (external (HasPregenWallet identifier identifierType)
                   (capsule_hasPregenWallet capsule identifier identifierType)) in
       if negb hasWallet then
         let! pregenWallet :=
           retry3 (external (CreateWalletPreGen identifier identifierType)
                     (capsule_createWalletPreGen capsule identifier identifierType)) in
         let! userShare :=
           retry3 (let! share := external GetUserShare (capsule_getUserShare capsule) in
                   orThrow share (Err ClientsWalletOperationError
                                    "Failed to get user share" None)) in
         run! retry3 (storeUserShare identifier userShare identifierType) in
         ret pregenWallet
       else
         let! found := retry3 (getUserShareFromDatabase identifier) in
         let! userShare :=
           orThrow found (Err ClientsWalletOperationError
                            "User share not found in database" None) in
         run! retry3 (external (SetUserShare userShare)
                        (capsule_setUserShare capsule userShare)) in
         let! wallets := external GetWallets (capsule_getWallets capsule) in
         match wallets with
         | None =>                                 (* Object.values(undefined) *)
             throw (Err ClsTypeError
                      "Cannot convert undefined or null to object" None)
         | Some ws =>
             match firstWallet ws with
             | None => throw (Err ClientsWalletOperationError
                                "No wallet found after setting user share" None)
             | Some wallet => ret wallet
             end
         end)
      (fun error =>
         (* the logger call reads [err.name], [err.message] and [err.stack] *)
         match error with
         | Undefined =>
             throw (Err ClsTypeError
                      "Cannot read properties of undefined (reading 'name')" None)
         | Null =>
             throw (Err ClsTypeError
                      "Cannot read properties of null (reading 'name')" None)
         | err =>
             throw (Err ClientsWalletOperationError "Wallet operation failed" (Some err))
         end).

(** The comment in the source: "Fix the v value of the signature". *)
Definition fixV (signature : string) : string :=
  let lastByte := Js.parseInt16 (Js.sliceLast2 signature) in
  if Js.ltNum lastByte 27 then
    let adjustedV :=
      Js.padStart2 (Js.toString16 (match lastByte with Some v => v | None => 0 end + 27)) in
    Js.sliceButLast2 signature +:+ adjustedV
  else signature.

Definition customSignMessage (capsule : Capsule) (message : string) : Task string :=
  try_catch
    (fun w =>
       match capsule_wallets capsule w with
       | None => throw (Err ClientsSigningError
                          "Capsule instance is not properly initialized" None) w
       | Some wallets =>
           match firstWallet wallets with
           | None => throw (Err ClientsSigningError
                              "No wallet available for signing" None) w
           | Some wallet =>
               let hashedMessage := hashMessage message in
               (let! res :=
                  retry3 (external
                            (SignMessage (wallet_id wallet) (hexStringToBase64 hashedMessage))
                            (capsule_signMessage capsule (wallet_id wallet)
                               (hexStringToBase64 hashedMessage))) in
                (* Validate signature format *)
                match signature res with
                | VString sig =>
                    if nonempty sig
                    then ret ("0x" +:+ fixV sig)
                    else throw (Err ClientsSigningError
                                  "Invalid signature format received" None)
                | _ => throw (Err ClientsSigningError
                                "Invalid signature format received" None)
                end) w
           end
       end)
    (fun error =>
       throw (Err ClientsSigningError "Message signing failed" (Some error))).

Definition createViemClient (capsule : Capsule) : Task (WalletClient W ViemBase) :=
  fun w =>
    match capsule_wallets capsule w with
    | None => throw (Err ClientsWalletOperationError
                       "Capsule instance is not properly initialized" None) w
    | Some _ =>
        try_catch
          (let! viemCapsuleAccount :=
             external CreateCapsuleAccount (createCapsuleAccount capsule) in
           if negb (nonempty (ALCHEMY_RPC_URL K))
           then throw (Err ClientsWalletOperationError "Missing Alchemy RPC URL" None)
           else
             let! viemClient :=
               external CreateCapsuleViemClient
                 (createCapsuleViemClient capsule viemCapsuleAccount (ALCHEMY_RPC_URL K)) in
             ret {| viem_base := viemClient;
                    signMessage := fun message => customSignMessage capsule message |})
          (fun error =>
             throw (Err ClientsWalletOperationError
                      "Failed to create Viem client" (Some error))) w
    end.

Definition createAlchemyClient (viemClient : WalletClient W ViemBase)
    : Task AlchemyClient :=
  try_catch
    (if negb (nonempty (ALCHEMY_API_KEY K)) || negb (nonempty (ALCHEMY_GAS_POLICY_ID K))
     then throw (Err ClientsWalletOperationError
                   "Missing required Alchemy configuration" None)
     else
       retry3 (external CreateModularAccountAlchemyClient
                 (createModularAccountAlchemyClient
                    (ALCHEMY_API_KEY K) (ALCHEMY_GAS_POLICY_ID K)
                    (viem_base viemClient))))
    (fun error =>
       throw (Err ClientsWalletOperationError
                "Failed to create Alchemy client" (Some error))).

End Clients.

(* ===================================================================== *)
(** ** server.ts: types and configuration                                  *)
(* ===================================================================== *)

(** The integers read from the environment, and whether [NODE_ENV] is
    ["development"]. *)
Record ServerConfig : Type := {
  CACHE_TTL : Z;
  CIRCUIT_BREAKER_THRESHOLD : Z;
  CIRCUIT_BREAKER_RESET_TIME : Z;
  MAX_RETRIES : Z;
  INITIAL_RETRY_DELAY : Z;
  development : bool
}.

Definition defaultConfig : ServerConfig :=
  {| CACHE_TTL := 3600;
     CIRCUIT_BREAKER_THRESHOLD := 10;
     CIRCUIT_BREAKER_RESET_TIME := 300000;
     MAX_RETRIES := 3;
     INITIAL_RETRY_DELAY := 1000;
     development := false |}.

(** [req.body] as [MintBody] declares it: each field a string or absent. *)
Record MintBody : Type := { email : option string; phone : option string }.

Record MintResult : Type := {
  status : string;
  identifier : string;
  identifierType : PregenIdentifierType;
  walletAddress : string;
  operationHash : string
}.

(** The fields of [ErrorResponse] that the [/mint] route writes. *)
Record ErrorResponse : Type := {
  error : string;
  retryAfter : option Q;
  details : option string
}.

(** [MintResult] objects live in a heap and are passed by reference. *)
Definition loc : Type := nat.

Inductive Payload : Type :=
  | JsonResult (ref : loc)              (* [res.json(result)] *)
  | JsonError (e : ErrorResponse).

Record Response : Type := { code : Z; payload : Payload }.

Definition badRequest (msg : string) : Response :=
  {| code := 400;
     payload := JsonError {| error := msg; retryAfter := None; details := None |} |}.

(* ===================================================================== *)
(** ** server.ts: the circuit breaker                                      *)
(* ===================================================================== *)

Record CircuitBreaker : Type := {
  failures : Z;
  lastFailure : Z;
  isOpen : bool
}.

Section Breaker.

Variable cfg : ServerConfig.

(** [new CircuitBreaker()] at time [now]. *)
Definition newCircuitBreaker (now : Z) : CircuitBreaker :=
  {| failures := 0; lastFailure := now; isOpen := false |}.

Definition reset (cb : CircuitBreaker) : CircuitBreaker :=
  {| failures := 0; lastFailure := lastFailure cb; isOpen := false |}.

(** Returns the answer and the breaker as the check leaves it. *)
Definition isCircuitOpen (now : Z) (cb : CircuitBreaker) : bool * CircuitBreaker :=
  if isOpen cb then
    if now - lastFailure cb >? CIRCUIT_BREAKER_RESET_TIME cfg
    then (false, reset cb)
    else (true, cb)
  else (false, cb).

Definition recordFailure (now : Z) (cb : CircuitBreaker) : CircuitBreaker :=
  let failures' := failures cb + 1 in
  {| failures := failures';
     lastFailure := now;
     isOpen := if failures' >? CIRCUIT_BREAKER_THRESHOLD cfg then true else isOpen cb |}.

(** [recordFailure()] once at each of the given times, in order. *)
Definition recordFailures (times : list Z) (cb : CircuitBreaker) : CircuitBreaker :=
  fold_left (fun cb now => recordFailure now cb) times cb.

End Breaker.

(* ===================================================================== *)
(** ** The response cache (node-cache with [useClones: false])             *)
(* ===================================================================== *)

(** An entry keeps the reference it was given and its expiry time in
    milliseconds ([0]: never expires). *)
Record CacheEntry : Type := { expires : Z; stored : loc }.

Definition Cache : Type := gmap string CacheEntry.

(** [cache.get(key)] at time [now]: an entry past its expiry time is dropped
    and reported as missing. *)
Definition cache_get (now : Z) (key : string) (c : gmap string CacheEntry)
    : option loc * gmap string CacheEntry :=
  match c !! key with
  | Some e =>
      if negb (expires e =? 0) && (expires e <? now)
      then (None, delete key c)
      else (Some (stored e), c)
  | None => (None, c)
  end.

(** [cache.set(key, value)] at time [now] with the standard TTL (seconds). *)
Definition cache_set (stdTTL now : Z) (key : string) (value : loc)
    (c : gmap string CacheEntry) : gmap string CacheEntry :=
  <[ key := {| expires := if stdTTL =? 0 then 0 else now + stdTTL * 1000;
               stored := value |} ]> c.

(** The state the process shares between requests. *)
Record ServerState : Type := {
  heap : list MintResult;
  cache : gmap string CacheEntry;
  circuitBreaker : CircuitBreaker
}.

(** What the client receives for a payload. *)
Definition wire (h : list MintResult) (p : Payload)
    : option (MintResult + ErrorResponse) :=
  match p with
  | JsonResult l => inl <$> (h !! l)
  | JsonError e => Some (inr e)
  end.

(* ===================================================================== *)
(** ** server.ts: middleware                                               *)
(* ===================================================================== *)

(** A middleware either answers or calls [next()]. *)
Inductive step (A : Type) : Type :=
  | Respond (r : Response)
  | Next (a : A).
Arguments Respond {A} r.
Arguments Next {A} a.

(** The string behind a truthy optional field. *)
Definition str (o : option string) : string :=
  match o with
  | Some s => s
  | None => ""
  end.

(** With [string]-typed fields nothing in the body of [validateRequest]
    throws, so its [catch] branch is not reached; [validateJson] below is the
    same function on any parsed body, with that branch. *)
Definition validateRequest (body : MintBody) : step MintBody :=
  let email0 := email body in
  let phone0 := phone body in
  if negb (Js.truthy email0) && negb (Js.truthy phone0)
  then Respond (badRequest "Either email or phone is required")
  else if Js.truthy email0 && negb (isValidEmail (str email0))
  then Respond (badRequest "Invalid email format")
  else
    let email1 :=
      if Js.truthy email0 then Some (Js.trim (Js.toLowerCase (str email0))) else email0 in
    if Js.truthy phone0 && negb (isValidPhone (str phone0))
    then Respond (badRequest
           "Invalid phone format. Use international format (e.g. +5511999999999)")
    else
      let phone1 := if Js.truthy phone0 then Some (Js.trim (str phone0)) else phone0 in
      Next {| email := email1; phone := phone1 |}.

(** A field of a parsed JSON body: absent, a string, or a value of another
    type (a number, a boolean, [null], an array, an object).  Of such a
    value the code sees whether it is truthy and, where a pattern is tested
    on it, its conversion to a string; [None] is a value whose conversion
    throws (an object with a [toString] property that is no function). *)
Inductive JsonField : Type :=
  | Absent
  | Text (s : string)
  | Other (truthy : bool) (text : option string).

(** [req.body], a parsed JSON object. *)
Record JsonBody : Type := { json_email : JsonField; json_phone : JsonField }.

Definition fieldTruthy (f : JsonField) : bool :=
  match f with
  | Absent => false
  | Text s => nonempty s
  | Other truthy _ => truthy
  end.

(** [String(f)], which [RegExp.prototype.test] applies to its argument. *)
Definition fieldText (f : JsonField) : outcome string :=
  match f with
  | Absent => Ok "undefined"
  | Text s => Ok s
  | Other _ (Some text) => Ok text
  | Other _ None =>
      Throw (Err ClsTypeError "Cannot convert object to primitive value" None)
  end.

(** A field that validation left alone is falsy; the later middleware only
    test it for truthiness, so what is not a string is kept as absent. *)
Definition fieldKept (f : JsonField) : option string :=
  match f with
  | Text s => Some s
  | _ => None
  end.

(** A middleware that can also fail: it answers, calls [next()] or calls
    [next(error)]. *)
Inductive verdict (A : Type) : Type :=
  | Answered (r : Response)
  | Continued (a : A)
  | Errored (error : exn).
Arguments Answered {A} r.
Arguments Continued {A} a.
Arguments Errored {A} error.

(** [validateRequest] on any parsed body.  Testing a pattern converts the
    value to a string, which can throw; only strings have a [toLowerCase]
    and a [trim] method, so on a truthy value of another type that passed
    the pattern the call throws; the [catch] branch hands the error on. *)
Definition validateJson (body : JsonBody) : verdict MintBody :=
  let email0 := json_email body in
  let phone0 := json_phone body in
  if negb (fieldTruthy email0) && negb (fieldTruthy phone0)
  then Answered (badRequest "Either email or phone is required")
  else
    match
      (if fieldTruthy email0 then
         match fieldText email0 with
         | Throw error => Errored error
         | Ok text =>
             if negb (isValidEmail text)
             then Answered (badRequest "Invalid email format")
             else
               match email0 with
               | Text s => Continued (Some (Js.trim (Js.toLowerCase s)))
               | _ => Errored (Err ClsTypeError
                                 "email.toLowerCase is not a function" None)
               end
         end
       else Continued (fieldKept email0))
    with
    | Answered r => Answered r
    | Errored error => Errored error
    | Continued email1 =>
        match
          (if fieldTruthy phone0 then
             match fieldText phone0 with
             | Throw error => Errored error
             | Ok text =>
                 if negb (isValidPhone text)
                 then Answered (badRequest
                        "Invalid phone format. Use international format (e.g. +5511999999999)")
                 else
                   match phone0 with
                   | Text s => Continued (Some (Js.trim s))
                   | _ => Errored (Err ClsTypeError "phone.trim is not a function" None)
                   end
             end
           else Continued (fieldKept phone0))
        with
        | Answered r => Answered r
        | Errored error => Errored error
        | Continued phone1 => Continued {| email := email1; phone := phone1 |}
        end
    end.

(** What [errorHandler] writes; of [err.stack] only whether it is sent. *)
Record ErrorPage : Type := {
  page_code : Z;
  page_error : string;
  page_message : option string;
  page_stack : bool
}.

(** The global error handler, which answers a [next(error)]. *)
Definition errorHandler (cfg : ServerConfig) (err : exn) : ErrorPage :=
  {| page_code := 500;
     page_error := "Internal server error";
     page_message := if development cfg
                     then match err with
                          | Err _ message _ => Some message
                          | _ => None
                          end
                     else None;
     page_stack := development cfg && isError err |}.

Definition cacheKey (identifier : string) : string := "mint:" +:+ identifier.

Definition with_cache (ss : ServerState) (c : gmap string CacheEntry) : ServerState :=
  {| heap := heap ss; cache := c; circuitBreaker := circuitBreaker ss |}.

Definition with_breaker (ss : ServerState) (cb : CircuitBreaker) : ServerState :=
  {| heap := heap ss; cache := cache ss; circuitBreaker := cb |}.

Definition cacheMiddleware (now : Z) (body : MintBody) (ss : ServerState)
    : step unit * ServerState :=
  let identifier := Js.or_else (email body) (phone body) in
  if negb (Js.truthy identifier)
  then (Next tt, ss)
  else
    match cache_get now (cacheKey (str identifier)) (cache ss) with
    | (Some cachedResult, c') =>
        (Respond {| code := 200; payload := JsonResult cachedResult |},
         with_cache ss c')
    | (None, c') => (Next tt, with_cache ss c')
    end.

Definition circuitBreakerMiddleware (cfg : ServerConfig) (now : Z) (ss : ServerState)
    : step unit * ServerState :=
  match isCircuitOpen cfg now (circuitBreaker ss) with
  | (true, cb') =>
      (Respond {| code := 503;
                  payload := JsonError
                    {| error := "Service temporarily unavailable";
                       retryAfter := Some (CIRCUIT_BREAKER_RESET_TIME cfg # 1000);
                       details := None |} |},
       with_breaker ss cb')
  | (false, cb') => (Next tt, with_breaker ss cb')
  end.

(* ===================================================================== *)
(** ** server.ts: the mint workflow and the route                          *)
(* ===================================================================== *)

Section Server.

Context `{X : Env} (K : Constants) (cfg : ServerConfig).

Local Abbreviation Task := (M (W:=W)).

(** [await alchemyClient.sendUserOperation({ uo: [{ target, data }] })], where
    [viemClient] is the wallet client that [alchemyClient] was built on: the
    call is recorded, and so is every signature the SDK asks of that client. *)
Definition sendOperation (viemClient : WalletClient W ViemBase)
    (alchemyClient : AlchemyClient) (target data : string)
    : Task UserOperationResult :=
  fun w =>
    match sendUserOperation alchemyClient target data w with
    | (r, w1) =>
        match runRelay (signMessage viemClient) r w1 with
        | (res, w2, tr) => (res, w2, EvCall (SendUserOperation target data) :: tr)
        end
    end.

(** One pass through the body of the [try] block of [performMint]. *)
Definition mintOnce (identifier : string) (identifierType : PregenIdentifierType)
    : Task MintResult :=
  let! capsuleClient := initializeCapsule K in
  let! wallet := createOrGetPregenWallet capsuleClient identifier identifierType in
  if negb (Js.truthy (wallet_address wallet))
  then throw (Err ClsError "Failed to create or get wallet" None)
  else
    let! viemClient := createViemClient K capsuleClient in
    let! alchemyClient := createAlchemyClient K viemClient in
    let target := NFT_CONTRACT_ADDRESS in
    match encodeFunctionData "mintTo" [str (wallet_address wallet)] with
    | inr message => throw (Err ClsError message None)
    | inl data =>
        let! userOperationResult :=
          sendOperation viemClient alchemyClient target data in
        ret {| status := "success";
               identifier := identifier;
               identifierType := identifierType;
               walletAddress := str (wallet_address wallet);
               operationHash := hash userOperationResult |}
    end.

(** [for (let attempt = 0; attempt < MAX_RETRIES; attempt++)], with
    [remaining] the iterations the loop condition still allows. *)
Fixpoint performMint_loop (identifier : string) (identifierType : PregenIdentifierType)
    (remaining : nat) (attempt : Z) (lastError : option exn) : Task MintResult :=
  match remaining with
  | O => throw (match lastError with
                | Some e => e
                | None => Err ClsError "Max retries exceeded" None
                end)
  | S remaining' =>
      try_catch (mintOnce identifier identifierType)
        (fun error =>
           let lastError' :=
             if isError error then error else Err ClsError "Unknown error" None in
           run! (if attempt <? MAX_RETRIES cfg - 1
                 then delay sleep (INITIAL_RETRY_DELAY cfg * 2 ^ attempt)
                 else ret tt) in
           performMint_loop identifier identifierType remaining'
             (attempt + 1) (Some lastError'))
  end.

Definition performMint (body : MintBody) : Task MintResult :=
  let identifier := Js.or_else (email body) (phone body) in
  if negb (Js.truthy identifier)
  then throw (Err ClsError "No identifier provided" None)
  else
    let identifierType := if Js.truthy (email body) then EMAIL else PHONE in
    performMint_loop (str identifier) identifierType
      (Z.to_nat (MAX_RETRIES cfg)) 0 None.

Definition errorMessage (e : exn) : string :=
  match e with
  | Err _ message _ => message
  | _ => "Unknown error"
  end.

(** The [catch] block of [mintHandler]. *)
Definition mintFailure (e : exn) : Response :=
  if instanceof e ServerCapsuleInitializationError then
    {| code := 503;
       payload := JsonError
         {| error := "Service temporarily unavailable";
            retryAfter := Some (CIRCUIT_BREAKER_RESET_TIME cfg # 1000);
            details := Some "Failed to initialize Capsule service" |} |}
  else if instanceof e ServerWalletOperationError then
    {| code := 500;
       payload := JsonError
         {| error := "Wallet operation failed";
            retryAfter := Some (60 # 1);
            details := Some (if development cfg then errorMessage e
                             else "Wallet operation error") |} |}
  else
    {| code := 500;
       payload := JsonError
         {| error := "Failed to mint NFT";
            retryAfter := Some (CIRCUIT_BREAKER_RESET_TIME cfg # 1000);
            details := Some (if development cfg then errorMessage e
                             else "Internal server error") |} |}.

(** A request handler: the response, the shared state and world it leaves,
    and what it did. *)
Definition Handler : Type := ServerState -> W -> Response * ServerState * W * list event.

Definition mintHandler (body : MintBody) : Handler :=
  fun ss w =>
    let identifier := Js.or_else (email body) (phone body) in
    match initializeCapsule K w with
    | (Throw _, w1, tr1) =>
        ({| code := 503;
            payload := JsonError
              {| error := "Service initialization failed";
                 retryAfter := Some (60 # 1);
                 details := Some "Failed to initialize necessary services" |} |},
         ss, w1, tr1)
    | (Ok _, w1, tr1) =>
        match performMint body w1 with
        | (Ok result, w2, tr2) =>
            let ref := List.length (heap ss) in
            let heap' := heap ss ++ [result] in
            let cache' :=
              if Js.truthy identifier
              then cache_set (CACHE_TTL cfg) (clock w2) (cacheKey (str identifier)) ref
                     (cache ss)
              else cache ss in
            ({| code := 200; payload := JsonResult ref |},
             {| heap := heap';
                cache := cache';
                circuitBreaker := reset (circuitBreaker ss) |},
             w2, tr1 ++ tr2)
        | (Throw error, w2, tr2) =>
            (mintFailure error,
             with_breaker ss (recordFailure cfg (clock w2) (circuitBreaker ss)),
             w2, tr1 ++ tr2)
        end
    end.

(** [app.post("/mint", limiter, validateRequest, cacheMiddleware,
    circuitBreakerMiddleware, mintHandler)] *)
Definition postMint (body : MintBody) : Handler :=
  fun ss w =>
    match limiter w with
    | (false, w1) =>
        ({| code := 429;
            payload := JsonError
              {| error := "Too many requests, please try again later";
                 retryAfter := None; details := None |} |},
         ss, w1, [])
    | (true, w1) =>
        match validateRequest body with
        | Respond r => (r, ss, w1, [])
        | Next body1 =>
            match cacheMiddleware (clock w1) body1 ss with
            | (Respond r, ss1) => (r, ss1, w1, [])
            | (Next _, ss1) =>
                match circuitBreakerMiddleware cfg (clock w1) ss1 with
                | (Respond r, ss2) => (r, ss2, w1, [])
                | (Next _, ss2) => mintHandler body1 ss2 w1
                end
            end
        end
    end.

End Server.

(* ===================================================================== *)
(** ** Vocabulary of the statements                                        *)
(* ===================================================================== *)

Fixpoint allChars (p : ascii -> bool) (s : string) : bool :=
  match s with
  | EmptyString => true
  | String c s' => p c && allChars p s'
  end.



Definition notSpace (c : ascii) : bool := negb (Js.isSpace c).

Definition trace_of {A B} (x : A * B * list event) : list event := snd x.

(** A trace of the shape attempt, wait [d], attempt, wait [d], ..., attempt. *)
Fixpoint alternates (d : Z) (tr : list event) : bool :=
  match tr with
  | [] => true
  | EvAttempt _ _ :: [] => true
  | EvAttempt _ _ :: EvSleep ms :: ((EvAttempt _ _ :: _) as tr') =>
      (ms =? d) && alternates d tr'
  | _ => false
  end.

(** The loop counter of the wrapper and the iterations left agree. *)
Definition in_step (maxRetries : Z) (remaining : nat) (attempt : Z) : Prop :=
  remaining = O \/ Z.of_nat remaining = maxRetries - attempt + 1.

(** [isCircuitOpen()] at each of the given times, in order. *)
Fixpoint checkAll (cfg : ServerConfig) (nows : list Z) (cb : CircuitBreaker)
    : list bool * CircuitBreaker :=
  match nows with
  | [] => ([], cb)
  | now :: nows' =>
      match isCircuitOpen cfg now cb with
      | (b, cb1) =>
          match checkAll cfg nows' cb1 with
          | (bs, cb2) => (b :: bs, cb2)
          end
      end
  end.

Definition unavailable (cfg : ServerConfig) : Response :=
  {| code := 503;
     payload := JsonError
       {| error := "Service temporarily unavailable";
          retryAfter := Some (CIRCUIT_BREAKER_RESET_TIME cfg # 1000);
          details := None |} |}.

(** A signature as a signer is meant to return it: hexadecimal digits, at
    least one byte. *)
Definition hexSignature (s : string) : bool :=
  allChars Js.isHexDigit s && (2 <=? String.length s)%nat.

(** The trailing byte of a hexadecimal string, read as the code reads it. *)
Definition recoveryByte (s : string) : option Z :=
  Js.parseInt16 (Js.sliceLast2 s).

Definition isWalletOperationError (e : exn) : bool :=
  instanceof e ClientsWalletOperationError.

Definition isSigningError (e : exn) : bool :=
  instanceof e ClientsSigningError.

(** The signature a signer's answer carries, when it is a non-empty string. *)
Definition validSignature (v : jsval) : option string :=
  match v with
  | VString s => if nonempty s then Some s else None
  | _ => None
  end.

(** [n.toString(16).padStart(2, "0")] *)
Definition twoHex (n : Z) : string := Js.padStart2 (Js.toString16 n).

Definition allAscii : list ascii := List.map ascii_of_nat (List.seq 0 256).

(** What the byte adjustment does to one pair of hexadecimal digits. *)
Definition hexPairCheck (a b : ascii) : bool :=
  if Js.isHexDigit a && Js.isHexDigit b then
    match Js.parseInt16 (String a (String b "")) with
    | Some v =>
        (0 <=? v) && (v <=? 255)
        && (if v <? 27
            then (String.length (twoHex (v + 27)) =? 2)%nat
                 && match Js.parseInt16 (twoHex (v + 27)) with
                    | Some v' => v' =? v + 27
                    | None => false
                    end
            else true)
    | None => false
    end
  else true.

Definition signingFailed (cause : exn) : exn :=
  Err ClientsSigningError "Message signing failed" (Some cause).

Definition walletOperationFailed (cause : exn) : exn :=
  Err ClientsWalletOperationError "Wallet operation failed" (Some cause).


Definition noWalletFound : exn :=
  Err ClientsWalletOperationError "No wallet found after setting user share" None.

(** An upper bound of a quantifier, as a predicate on the repetition count. *)
Definition within (hi : option nat) (n : nat) : Prop :=
  match hi with
  | Some h => (n <= h)%nat
  | None => True
  end.

(* ===================================================================== *)
(** ** Vocabulary of the further properties                                *)
(* ===================================================================== *)

(** Number of collaborator calls in a trace, at any depth. *)
Definition ncalls (tr : list event) : nat := List.length (calls tr).

(** A computation that makes at most [n] collaborator calls, whatever the
    world it starts in. *)
Definition bounded {W A : Type} (n : nat) (m : M (W:=W) A) : Prop :=
  forall w, (ncalls (trace_of (m w)) <= n)%nat.

(** The trace of a handled request. *)
Definition handled_trace {R S V : Type} (x : R * S * V * list event) : list event :=
  snd x.

(** A character allowed in the three parts of an e-mail address: neither
    white space nor [@]. *)
Definition plainChar (c : ascii) : bool := negb (Js.isSpace c || Ascii.eqb c "@").

(** A non-empty run of such characters. *)
Definition emailPart (s : string) : bool := nonempty s && allChars plainChar s.

(** What [validateRequest] lets through: at least one field is non-empty and
    each non-empty field matches its pattern. *)
Definition acceptable (body : MintBody) : bool :=
  (Js.truthy (email body) || Js.truthy (phone body))
  && (negb (Js.truthy (email body)) || isValidEmail (str (email body)))
  && (negb (Js.truthy (phone body)) || isValidPhone (str (phone body))).

(** The body as [validateRequest] hands it on: the e-mail in lower case. *)
Definition normalised (body : MintBody) : MintBody :=
  {| email := if Js.truthy (email body)
              then Some (Js.toLowerCase (str (email body)))
              else email body;
     phone := phone body |}.

(** A body whose fields are strings or absent, as it is parsed. *)
Definition asJson (body : MintBody) : JsonBody :=
  {| json_email := match email body with Some s => Text s | None => Absent end;
     json_phone := match phone body with Some s => Text s | None => Absent end |}.

(** A field that [validateJson] accepts: falsy, or a string that matches. *)
Definition fieldAccepted (valid : string -> bool) (f : JsonField) : Prop :=
  fieldTruthy f = false \/ exists s, f = Text s /\ valid s = true.

(** A truthy field that is not a string and is not refused: its conversion
    to a string matches, or throws. *)
Definition fieldCoerced (valid : string -> bool) (f : JsonField) : Prop :=
  exists text,
    f = Other true text
    /\ match text with Some t => valid t = true | None => True end.

Section MintPasses.

Context `{X : Env} (K : Constants) (cfg : ServerConfig).

(** Pass number [k] of the mint workflow (counted from [attempt]) when the
    [k] passes before it all failed and failed pass [i] was followed by a
    wait of [INITIAL_RETRY_DELAY * 2^i]: its outcome, the world it leaves and
    everything done up to then; [None] when an earlier pass succeeded. *)
Fixpoint nth_pass (identifier : string) (identifierType : PregenIdentifierType)
    (k : nat) (attempt : Z) (w : W) : option (outcome MintResult * W * list event) :=
  match k with
  | O => Some (mintOnce K identifier identifierType w)
  | S k' =>
      match mintOnce K identifier identifierType w with
      | (Throw _, w1, tr) =>
          let ms := INITIAL_RETRY_DELAY cfg * 2 ^ attempt in
          match nth_pass identifier identifierType k' (attempt + 1) (sleep ms w1) with
          | Some (r, w2, tr') => Some (r, w2, tr ++ EvSleep ms :: tr')
          | None => None
          end
      | (Ok _, _, _) => None
      end
  end.

End MintPasses.

(** [lastError = error instanceof Error ? error : new Error('Unknown error')] *)
Definition asError (e : exn) : exn :=
  if isError e then e else Err ClsError "Unknown error" None.

(** An error that is an instance of neither error class declared in
    [server.ts]. *)
Definition notServerError (e : exn) : bool :=
  negb (instanceof e ServerCapsuleInitializationError)
  && negb (instanceof e ServerWalletOperationError).

(** The SDK asks for at most [n] signatures before it answers. *)
Fixpoint signsAtMost {W : Type} (n : nat) (r : Relay W) : Prop :=
  match r with
  | RelayDone _ => True
  | RelaySign _ next =>
      match n with
      | O => False
      | S n' => forall signed w, match next signed w with (r', _) => signsAtMost n' r' end
      end
  end.

(** The SDK ends with no instance of the error classes of [server.ts], as
    long as the signer throws none. *)
Fixpoint foreignRelay {W : Type} (r : Relay W) : Prop :=
  match r with
  | RelayDone (Ok _) => True
  | RelayDone (Throw e) => notServerError e = true
  | RelaySign _ next =>
      forall signed w,
        match signed with
        | Ok _ => True
        | Throw e => notServerError e = true
        end ->
        match next signed w with (r', _) => foreignRelay r' end
  end.

Definition initFailed (cause : exn) : exn :=
  Err ClientsCapsuleInitializationError "Failed to initialize Capsule" (Some cause).

(** The last branch of the [catch] block of [mintHandler]. *)
Definition mintFailedResponse (cfg : ServerConfig) (e : exn) : Response :=
  {| code := 500;
     payload := JsonError
       {| error := "Failed to mint NFT";
          retryAfter := Some (CIRCUIT_BREAKER_RESET_TIME cfg # 1000);
          details := Some (if development cfg
                           then match e with
                                | Err _ message _ => message
                                | _ => "Unknown error"
                                end
                           else "Internal server error") |} |}.

(** The open flag says exactly that the counter is above the threshold. *)
Definition breaker_consistent (cfg : ServerConfig) (cb : CircuitBreaker) : Prop :=
  0 <= failures cb
  /\ isOpen cb = (failures cb >? CIRCUIT_BREAKER_THRESHOLD cfg).

(** A result as a successful mint builds it. *)
Definition minted (r : MintResult) : Prop :=
  status r = "success" /\ identifier r <> "" /\ walletAddress r <> "".

(** The shared state is in order: the breaker is consistent, every object in
    the heap is a minted result, and every cache entry refers to an object of
    the heap and sits under the key of that object's identifier. *)
Definition state_wf (cfg : ServerConfig) (ss : ServerState) : Prop :=
  breaker_consistent cfg (circuitBreaker ss)
  /\ Forall minted (heap ss)
  /\ forall key e,
       cache ss !! key = Some e ->
       exists r, heap ss !! stored e = Some r /\ key = cacheKey (identifier r).

Definition handled_response {S V T : Type} (x : Response * S * V * T) : Response :=
  fst (fst (fst x)).

Definition handled_state {R V T : Type} (x : R * ServerState * V * T) : ServerState :=
  snd (fst (fst x)).

Definition handled_world {R S V T : Type} (x : R * S * V * T) : V :=
  snd (fst x).

Section Provisioning.

Context `{X : Env}.

(** The three retried steps of the branch that creates a wallet. *)
Definition checkWallet (capsule : Capsule) (identifier : string)
    (identifierType : PregenIdentifierType) : M (W:=W) bool :=
  retry3 (external (HasPregenWallet identifier identifierType)
            (capsule_hasPregenWallet capsule identifier identifierType)).

Definition createWallet (capsule : Capsule) (identifier : string)
    (identifierType : PregenIdentifierType) : M (W:=W) Wallet :=
  retry3 (external (CreateWalletPreGen identifier identifierType)
            (capsule_createWalletPreGen capsule identifier identifierType)).

Definition exportShare (capsule : Capsule) : M (W:=W) string :=
  retry3 (let! share := external GetUserShare (capsule_getUserShare capsule) in
          orThrow share (Err ClientsWalletOperationError "Failed to get user share" None)).

End Provisioning.

(** server.ts, [app.get("/health", ...)]: the body of the answer. *)
Inductive HealthBody : Type :=
  | Healthy (capsule viem alchemy hasNFTAddress hasNFTAbi : bool)
  | Unhealthy (error : string).

Record HealthResponse : Type := { health_code : Z; health_body : HealthBody }.

Section Health.

Context `{X : Env} (K : Constants).

(** The three clients the route builds, in order. *)
Definition healthClients : M (W:=W) (Capsule * WalletClient W ViemBase * AlchemyClient) :=
  let! capsuleClient := initializeCapsule K in
  let! viemClient := createViemClient K capsuleClient in
  let! alchemyClient := createAlchemyClient K viemClient in
  ret (capsuleClient, viemClient, alchemyClient).

(** Client objects and the ABI array are truthy; the contract address is a
    string. *)
Definition healthHandler (w : W) : HealthResponse * W * list event :=
  match healthClients w with
  | (Ok _, w1, tr) =>
      ({| health_code := 200;
          health_body := Healthy true true true (nonempty NFT_CONTRACT_ADDRESS) true |},
       w1, tr)
  | (Throw e, w1, tr) =>
      ({| health_code := 500;
          health_body := Unhealthy (match e with
                                    | Err _ message _ => message
                                    | _ => "Unknown error"
                                    end) |},
       w1, tr)
  end.

End Health.

(** The messages the health route can report. *)
Definition healthMessages : list string :=
  [ "Failed to initialize Capsule";
    "Capsule instance is not properly initialized";
    "Failed to create Viem client";
    "Failed to create Alchemy client" ].

(** What the adjustment writes for a byte [v] below 27. *)
Definition adjustedCheck (v : Z) : bool :=
  (String.length (twoHex (v + 27)) =? 2)%nat
  && allChars Js.isHexDigit (twoHex (v + 27))
  && match Js.parseInt16 (twoHex (v + 27)) with
     | Some v' => v' =? v + 27
     | None => false
     end.

(* ===================================================================== *)
(** ** A small concrete world, for running the model                       *)
(* ===================================================================== *)

Module Demo.

(** The clock, how many more times the signer is going to fail, and whether
    the relay refuses every user operation.  A relay that is up asks for one
    signature and passes on what the signer throws. *)
Record World : Type := { time : Z; pending : nat; relayDown : bool }.

Definition wallet0 : Wallet :=
  {| wallet_id := "w-1"; wallet_address := Some "0xabc" |}.

Definition wallets0 : WalletSet := [("w-1", wallet0)].

Definition sign (w : World) : outcome SignatureRes * World :=
  match pending w with
  | O => (Ok {| signature := VString "8f3a01" |}, w)
  | S n => (Throw (Err ClsError "signer unavailable" None),
            {| time := time w; pending := n; relayDown := relayDown w |})
  end.

#[export] Instance env : Env := {|
  W := World;
  Capsule := unit;
  Account := unit;
  ViemBase := unit;
  AlchemyClient := unit;
  sleep := fun ms w =>
    {| time := time w + ms; pending := pending w; relayDown := relayDown w |};
  clock := time;
  capsule_new := fun _ _ w => (Ok tt, w);
  capsule_wallets := fun _ _ => Some wallets0;
  capsule_getWallets := fun _ w => (Ok (Some wallets0), w);
  capsule_hasPregenWallet := fun _ _ _ w => (Ok true, w);
  capsule_createWalletPreGen := fun _ _ _ w => (Ok wallet0, w);
  capsule_getUserShare := fun _ w => (Ok (Some "share-1"), w);
  capsule_setUserShare := fun _ _ w => (Ok tt, w);
  capsule_signMessage := fun _ _ _ w => sign w;
  hexStringToBase64 := fun s => s;
  supabase_insert := fun _ _ _ w => (Ok {| ins_error := None |}, w);
  supabase_select_share :=
    fun _ w => (Ok {| sel_share := Some "share-1"; sel_error := None |}, w);
  hashMessage := fun s => s;
  encodeFunctionData := fun name _ => inl name;
  createCapsuleAccount := fun _ w => (Ok tt, w);
  createCapsuleViemClient := fun _ _ _ w => (Ok tt, w);
  createModularAccountAlchemyClient := fun _ _ _ w => (Ok tt, w);
  sendUserOperation :=
    fun _ _ _ w =>
      if relayDown w
      then (RelayDone (Throw (Err ClsError "relay unavailable" None)), w)
      else (RelaySign "user-operation-hash"
              (fun signed w' =>
                 match signed with
                 | Ok _ => (RelayDone (Ok {| hash := "0xop" |}), w')
                 | Throw e => (RelayDone (Throw e), w')
                 end), w);
  limiter := fun w => (true, w)
|}.

Definition constants : Constants :=
  {| CAPSULE_API_KEY := "capsule-key";
     ALCHEMY_API_KEY := "alchemy-key";
     ALCHEMY_GAS_POLICY_ID := "policy" |}.

Definition world0 : World := {| time := 1000000; pending := 0; relayDown := false |}.

Definition worldDown : World := {| time := 0; pending := 0; relayDown := true |}.

Definition failure (n : nat) : exn :=
  Err ClsError
    (match n with
     | O => "failure 1"
     | S O => "failure 2"
     | S (S O) => "failure 3"
     | _ => "a later failure"
     end) None.

(** A work function that fails while the counter is below [k]. *)
Definition flaky (k : nat) : M (W:=nat) string :=
  fun n =>
    if (n <? k)%nat
    then (Throw (failure n), S n, [])
    else (Ok "done", S n, []).

Definition result0 : MintResult :=
  {| status := "success";
     identifier := "user@example.com";
     identifierType := EMAIL;
     walletAddress := "0xabc";
     operationHash := "0xop" |}.

(** A server that has already answered one request for [user@example.com]. *)
Definition served : ServerState :=
  {| heap := [result0];
     cache := {[ "mint:user@example.com" := {| expires := 4600000; stored := 0%nat |} ]};
     circuitBreaker := newCircuitBreaker 0 |}.

(** A server whose breaker saw eleven failures in a row, the last at 900000. *)
Definition tripped : ServerState :=
  {| heap := [];
     cache := ∅;
     circuitBreaker :=
       recordFailures defaultConfig
         [100; 200; 300; 400; 500; 600; 700; 800; 900; 1000; 900000]
         (newCircuitBreaker 0) |}.

(** [n] requests for the same body, one after the other; the status codes
    answered, and the state, world and calls of the last one. *)
Fixpoint serve (n : nat) (body : MintBody) (ss : ServerState) (w : World)
    : list Z * ServerState * World * list call :=
  match n with
  | O => ([], ss, w, [])
  | S n' =>
      match postMint (X:=env) constants defaultConfig body ss w with
      | (r, ss1, w1, tr) =>
          match n' with
          | O => ([code r], ss1, w1, calls tr)
          | S _ =>
              match serve n' body ss1 w1 with
              | (codes, ss2, w2, last) => (code r :: codes, ss2, w2, last)
              end
          end
      end
  end.

Definition fresh : ServerState :=
  {| heap := []; cache := ∅; circuitBreaker := newCircuitBreaker 0 |}.

End Demo.

(** The same world seen by a custodial service that knows no wallet yet and
    a store that reports an error for every query. *)
Module DemoNew.

#[export] Instance env : Env := {|
  W := Demo.World;
  Capsule := unit;
  Account := unit;
  ViemBase := unit;
  AlchemyClient := unit;
  sleep := @sleep Demo.env;
  clock := @clock Demo.env;
  capsule_new := @capsule_new Demo.env;
  capsule_wallets := @capsule_wallets Demo.env;
  capsule_getWallets := @capsule_getWallets Demo.env;
  capsule_hasPregenWallet := fun _ identifier _ w =>
    (Ok (String.eqb identifier "known@example.com"), w);
  capsule_createWalletPreGen := @capsule_createWalletPreGen Demo.env;
  capsule_getUserShare := @capsule_getUserShare Demo.env;
  capsule_setUserShare := @capsule_setUserShare Demo.env;
  capsule_signMessage := @capsule_signMessage Demo.env;
  hexStringToBase64 := @hexStringToBase64 Demo.env;
  supabase_insert := @supabase_insert Demo.env;
  supabase_select_share :=
    fun _ w => (Ok {| sel_share := None;
                      sel_error := Some (NonError "PGRST116") |}, w);
  hashMessage := @hashMessage Demo.env;
  encodeFunctionData := @encodeFunctionData Demo.env;
  createCapsuleAccount := @createCapsuleAccount Demo.env;
  createCapsuleViemClient := @createCapsuleViemClient Demo.env;
  createModularAccountAlchemyClient := @createModularAccountAlchemyClient Demo.env;
  sendUserOperation := @sendUserOperation Demo.env;
  limiter := @limiter Demo.env
|}.

End DemoNew.

(** The same world again, with a custodial service that holds two wallets. *)
Module DemoPair.

Definition wallet1 : Wallet :=
  {| wallet_id := "w-2"; wallet_address := Some "0xdef" |}.

Definition wallets : WalletSet := [("w-1", Demo.wallet0); ("w-2", wallet1)].

#[export] Instance env : Env := {|
  W := Demo.World;
  Capsule := unit;
  Account := unit;
  ViemBase := unit;
  AlchemyClient := unit;
  sleep := @sleep Demo.env;
  clock := @clock Demo.env;
  capsule_new := @capsule_new Demo.env;
  capsule_wallets := fun _ _ => Some wallets;
  capsule_getWallets := fun _ w => (Ok (Some wallets), w);
  capsule_hasPregenWallet := @capsule_hasPregenWallet Demo.env;
  capsule_createWalletPreGen := @capsule_createWalletPreGen Demo.env;
  capsule_getUserShare := @capsule_getUserShare Demo.env;
  capsule_setUserShare := @capsule_setUserShare Demo.env;
  capsule_signMessage := @capsule_signMessage Demo.env;
  hexStringToBase64 := @hexStringToBase64 Demo.env;
  supabase_insert := @supabase_insert Demo.env;
  supabase_select_share := @supabase_select_share Demo.env;
  hashMessage := @hashMessage Demo.env;
  encodeFunctionData := @encodeFunctionData Demo.env;
  createCapsuleAccount := @createCapsuleAccount Demo.env;
  createCapsuleViemClient := @createCapsuleViemClient Demo.env;
  createModularAccountAlchemyClient := @createModularAccountAlchemyClient Demo.env;
  sendUserOperation := @sendUserOperation Demo.env;
  limiter := @limiter Demo.env
|}.

End DemoPair.

(** A custodial service whose wallet lookup rejects with [undefined]. *)
Module DemoReject.

#[export] Instance env : Env := {|
  W := Demo.World;
  Capsule := unit;
  Account := unit;
  ViemBase := unit;
  AlchemyClient := unit;
  sleep := @sleep Demo.env;
  clock := @clock Demo.env;
  capsule_new := @capsule_new Demo.env;
  capsule_wallets := @capsule_wallets Demo.env;
  capsule_getWallets := @capsule_getWallets Demo.env;
  capsule_hasPregenWallet := fun _ _ _ w => (Throw Undefined, w);
  capsule_createWalletPreGen := @capsule_createWalletPreGen Demo.env;
  capsule_getUserShare := @capsule_getUserShare Demo.env;
  capsule_setUserShare := @capsule_setUserShare Demo.env;
  capsule_signMessage := @capsule_signMessage Demo.env;
  hexStringToBase64 := @hexStringToBase64 Demo.env;
  supabase_insert := @supabase_insert Demo.env;
  supabase_select_share := @supabase_select_share Demo.env;
  hashMessage := @hashMessage Demo.env;
  encodeFunctionData := @encodeFunctionData Demo.env;
  createCapsuleAccount := @createCapsuleAccount Demo.env;
  createCapsuleViemClient := @createCapsuleViemClient Demo.env;
  createModularAccountAlchemyClient := @createModularAccountAlchemyClient Demo.env;
  sendUserOperation := @sendUserOperation Demo.env;
  limiter := @limiter Demo.env
|}.

End DemoReject.

(* ===================================================================== *)
(** * Properties                                                           *)
(* ===================================================================== *)

(** ** Strings and the matcher *)


Lemma string_eqb_cons_empty (c : ascii) (s : string) :
  String.eqb (String c s) "" = false.
Proof. reflexivity. Qed.

Lemma match_rep_zero cs k s : match_rep cs 0 (Some 0%nat) k s = k s.
Proof. destruct s; reflexivity. Qed.

Lemma match_once cs k s :
  match_rep cs 1 (Some 1%nat) k s =
  match s with
  | String c s' => mem cs c && k s'
  | EmptyString => false
  end.
Proof.
  destruct s as [|c s']; [reflexivity|].
  cbn [match_rep more dec option_map Nat.pred andb].
  rewrite match_rep_zero, orb_false_r.
  destruct (mem cs c); reflexivity.
Qed.


(** The matcher decides the language of [atom{lo,hi}] followed by [k]. *)
Lemma match_rep_complete cs k s1 :
  forall lo hi s2,
    allChars (mem cs) s1 = true ->
    (lo <= String.length s1)%nat -> within hi (String.length s1) ->
    k s2 = true ->
    match_rep cs lo hi k (s1 +:+ s2) = true.
Proof.
  induction s1 as [|c s1 IH]; intros lo hi s2 Hall Hlo Hhi Hk.
  - cbn [String.length] in Hlo. assert (lo = O) as -> by lia.
    change ("" +:+ s2) with s2. destruct s2; cbn [match_rep]; rewrite Hk.
    + reflexivity.
    + apply orb_true_r.
  - change (String c s1 +:+ s2) with (String c (s1 +:+ s2)).
    cbn [allChars String.length] in *. apply andb_true_iff in Hall as [Hc Hall].
    cbn [match_rep]. rewrite Hc.
    assert (more hi = true) as ->.
    { destruct hi as [[|h]|]; cbn in *; auto; lia. }
    cbn [andb]. rewrite IH; auto.
    + lia.
    + destruct hi as [h|]; cbn in *; [lia|exact I].
Qed.

Lemma match_rep_sound cs k s :
  forall lo hi,
    match_rep cs lo hi k s = true ->
    exists s1 s2,
      s = s1 +:+ s2 /\ allChars (mem cs) s1 = true
      /\ (lo <= String.length s1)%nat /\ within hi (String.length s1)
      /\ k s2 = true.
Proof.
  induction s as [|c s IH]; intros lo hi H.
  - cbn [match_rep orb] in H. destruct lo; [|discriminate].
    exists "", "". split; [reflexivity|]. split; [reflexivity|].
    split; [cbn; lia|]. split; [destruct hi; cbn; [lia|exact I]|exact H].
  - cbn [match_rep] in H. apply orb_true_iff in H as [H|H].
    + destruct (more hi && mem cs c) eqn:E; [|discriminate].
      apply andb_true_iff in E as [Hm Hc].
      destruct (IH _ _ H) as (s1 & s2 & -> & Hall & Hlo & Hhi & Hk).
      exists (String c s1), s2. cbn [allChars String.length]. rewrite Hc, Hall.
      split; [reflexivity|]. split; [reflexivity|]. split; [lia|].
      split; [|exact Hk].
      destruct hi as [[|h]|]; cbn in *; try discriminate; [lia|exact I].
    + destruct lo; [|discriminate].
      exists "", (String c s). split; [reflexivity|]. split; [reflexivity|].
      split; [cbn; lia|]. split; [destruct hi; cbn; [lia|exact I]|exact H].
Qed.

Lemma match_rep_all (P : ascii -> bool) cs lo hi k s :
  (forall c, mem cs c = true -> P c = true) ->
  (forall s', k s' = true -> allChars P s' = true) ->
  match_rep cs lo hi k s = true -> allChars P s = true.
Proof.
  intros Hcs Hk. revert lo hi.
  induction s as [|c s IH]; intros lo hi H; [reflexivity|].
  cbn [match_rep] in H. apply orb_true_iff in H as [H|H].
  - destruct (more hi && mem cs c) eqn:E; [|discriminate].
    apply andb_true_iff in E as [_ E].
    cbn [allChars]. rewrite (Hcs _ E), (IH _ _ H). reflexivity.
  - destruct lo; [|discriminate]. apply Hk, H.
Qed.

Lemma match_terms_all (P : ascii -> bool) (r : regex) s :
  Forall (fun t => forall c, mem (atom t) c = true -> P c = true) r ->
  match_terms r s = true -> allChars P s = true.
Proof.
  intros Hr. revert s. induction Hr as [|t r Ht Hr IH]; intros s H.
  - cbn in H. apply String.eqb_eq in H. subst. reflexivity.
  - cbn [match_terms] in H. eapply match_rep_all; eauto.
Qed.

Lemma ascii_cases (P : ascii -> Prop) :
  (forall b0 b1 b2 b3 b4 b5 b6 b7, P (Ascii b0 b1 b2 b3 b4 b5 b6 b7)) ->
  forall c, P c.
Proof. intros H []. apply H. Qed.

Lemma emailRegex_no_space :
  Forall (fun t => forall c, mem (atom t) c = true -> notSpace c = true) emailRegex.
Proof.
  repeat constructor; intros c; pattern c; apply ascii_cases;
    intros [] [] [] [] [] [] [] []; vm_compute; auto.
Qed.

Lemma phoneRegex_no_space :
  Forall (fun t => forall c, mem (atom t) c = true -> notSpace c = true) phoneRegex.
Proof.
  repeat constructor; intros c; pattern c; apply ascii_cases;
    intros [] [] [] [] [] [] [] []; vm_compute; auto.
Qed.

Lemma lowerChar_notSpace c : notSpace c = true -> notSpace (Js.lowerChar c) = true.
Proof.
  pattern c; apply ascii_cases; intros [] [] [] [] [] [] [] []; vm_compute; auto.
Qed.

Lemma toLowerCase_notSpace s :
  allChars notSpace s = true -> allChars notSpace (Js.toLowerCase s) = true.
Proof.
  induction s as [|c s IH]; [reflexivity|].
  cbn [allChars Js.toLowerCase]. intros H.
  apply andb_true_iff in H as [Hc Hs].
  rewrite (lowerChar_notSpace _ Hc), (IH Hs). reflexivity.
Qed.

Lemma trimEnd_notSpace s : allChars notSpace s = true -> Js.trimEnd s = s.
Proof.
  induction s as [|c s IH]; [reflexivity|].
  cbn [allChars Js.trimEnd]. intros H.
  apply andb_true_iff in H as [Hc Hs].
  rewrite (IH Hs). unfold notSpace in Hc. apply negb_true_iff in Hc.
  destruct s; [rewrite Hc|]; reflexivity.
Qed.

Lemma trim_notSpace s : allChars notSpace s = true -> Js.trim s = s.
Proof.
  intros H. unfold Js.trim.
  assert (Js.trimStart s = s) as ->.
  { destruct s as [|c s]; [reflexivity|].
    cbn [allChars] in H. apply andb_true_iff in H as [Hc _].
    unfold notSpace in Hc. apply negb_true_iff in Hc.
    cbn [Js.trimStart]. rewrite Hc. reflexivity. }
  apply trimEnd_notSpace, H.
Qed.

Lemma toLowerCase_nonempty s : nonempty s = true -> nonempty (Js.toLowerCase s) = true.
Proof. destruct s; [discriminate|reflexivity]. Qed.

(** A string that passes [isValidEmail] holds no white space, so the [trim]
    applied after the check returns its argument. *)
Lemma valid_email_trim e :
  isValidEmail e = true ->
  Js.trim (Js.toLowerCase e) = Js.toLowerCase e /\ nonempty (Js.toLowerCase e) = true.
Proof.
  intros H. split.
  - apply trim_notSpace, toLowerCase_notSpace.
    apply (match_terms_all notSpace emailRegex); [apply emailRegex_no_space|exact H].
  - apply toLowerCase_nonempty. destruct e; [discriminate|reflexivity].
Qed.

Lemma valid_phone_trim p :
  isValidPhone p = true -> Js.trim p = p /\ nonempty p = true.
Proof.
  intros H. split.
  - apply trim_notSpace.
    apply (match_terms_all notSpace phoneRegex); [apply phoneRegex_no_space|exact H].
  - destruct p; [discriminate|reflexivity].
Qed.



Lemma validated_identifier body body1 :
  validateRequest body = Next body1 ->
  Js.truthy (Js.or_else (email body1) (phone body1)) = true.
Proof.
  unfold validateRequest.
  destruct (Js.truthy (email body)) eqn:Ee;
  destruct (Js.truthy (phone body)) eqn:Ep; cbn [negb andb]; try discriminate.
  - destruct (isValidEmail (str (email body))) eqn:Ve; cbn [negb]; [|discriminate].
    destruct (isValidPhone (str (phone body))); cbn [negb]; [|discriminate].
    intros [= <-]. cbn [email phone]. unfold Js.or_else.
    destruct (valid_email_trim _ Ve) as [-> Hn].
    cbn [Js.truthy]. fold (nonempty (Js.toLowerCase (str (email body)))).
    rewrite Hn. cbn [Js.truthy]. exact Hn.
  - destruct (isValidEmail (str (email body))) eqn:Ve; cbn [negb]; [|discriminate].
    intros [= <-]. cbn [email phone]. unfold Js.or_else.
    destruct (valid_email_trim _ Ve) as [-> Hn].
    cbn [Js.truthy]. fold (nonempty (Js.toLowerCase (str (email body)))).
    rewrite Hn. cbn [Js.truthy]. exact Hn.
  - destruct (isValidPhone (str (phone body))) eqn:Vp; cbn [negb]; [|discriminate].
    intros [= <-]. cbn [email phone]. unfold Js.or_else. rewrite Ee.
    destruct (valid_phone_trim _ Vp) as [-> Hn].
    cbn [Js.truthy]. exact Hn.
Qed.

(* ===================================================================== *)
(** ** Identifier validation                                               *)
(* ===================================================================== *)





(** C4: the body [{email: "User@Example.com "}] does not pass validation.
    [isValidEmail] runs on the raw string, whose trailing space the pattern
    refuses, so the request is answered with 400 and the normalisation that
    would have produced ["user@example.com"] is never reached; without the
    trailing space the same address passes and is lower-cased. *)
Theorem email_trailing_space_rejected :
  validateRequest {| email := Some "User@Example.com "; phone := None |}
    = Respond (badRequest "Invalid email format")
  /\ Js.trim (Js.toLowerCase "User@Example.com ") = "user@example.com"
  /\ validateRequest {| email := Some "User@Example.com"; phone := None |}
    = Next {| email := Some "user@example.com"; phone := None |}.
Proof. repeat split; reflexivity. Qed.

(* ===================================================================== *)
(** ** The retry wrapper                                                   *)
(* ===================================================================== *)

Section RetryFacts.

Context {W T : Type} (sleep : Z -> W -> W) (operation : M (W:=W) T).
Variables maxRetries retryDelay : Z.

Lemma retry_loop_step remaining attempt lastError w :
  retry_loop sleep operation maxRetries retryDelay (S remaining) attempt lastError w =
  match operation w with
  | (Ok v, w1, tr) => (Ok v, w1, [EvAttempt attempt tr])
  | (Throw error, w1, tr) =>
      if attempt =? maxRetries
      then (Throw error, w1, [EvAttempt attempt tr])
      else
        match retry_loop sleep operation maxRetries retryDelay remaining
                (attempt + 1) (Some error) (sleep retryDelay w1) with
        | (r, w2, tr2) => (r, w2, EvAttempt attempt tr :: EvSleep retryDelay :: tr2)
        end
  end.
Proof.
  cbn [retry_loop]. destruct (operation w) as [[[v|error] w1] tr]; [reflexivity|].
  destruct (attempt =? maxRetries); [reflexivity|].
  unfold bind, delay.
  destruct (retry_loop _ _ _ _ _ _ _ _) as [[r w2] tr2]. reflexivity.
Qed.

Lemma retry_loop_trace remaining attempt lastError w :
  in_step maxRetries remaining attempt ->
  let tr := trace_of (retry_loop sleep operation maxRetries retryDelay
                        remaining attempt lastError w) in
  alternates retryDelay tr = true
  /\ sleeps tr = repeat retryDelay (Nat.pred (attempts tr))
  /\ (remaining <> O -> exists a inner tr', tr = EvAttempt a inner :: tr').
Proof.
  revert attempt lastError w.
  induction remaining as [|remaining IH]; intros attempt lastError w Hstep.
  - cbn. repeat split. intros []. reflexivity.
  - cbv zeta. rewrite retry_loop_step.
    destruct (operation w) as [[[v|error] w1] tr0].
    + cbn. repeat split; eauto.
    + destruct (Z.eqb_spec attempt maxRetries) as [->|Hne].
      * cbn. repeat split; eauto.
      * assert (Hr : remaining <> O /\ in_step maxRetries remaining (attempt + 1)).
        { destruct Hstep as [|Hstep]; [discriminate|].
          split; [|right]; lia. }
        destruct Hr as [Hr Hstep'].
        specialize (IH (attempt + 1) (Some error) (sleep retryDelay w1) Hstep').
        cbv zeta in IH.
        destruct (retry_loop _ _ _ _ _ _ _ _) as [[r w2] tr2].
        unfold trace_of in *. cbn [snd] in *.
        destruct IH as (Halt & Hsl & Hhd).
        destruct (Hhd Hr) as (a & inner & tr' & ->).
        repeat split; eauto.
        -- cbn [alternates]. rewrite Z.eqb_refl. exact Halt.
        -- cbn [sleeps]. cbn [sleeps] in Hsl. rewrite Hsl. reflexivity.
Qed.

Lemma retry_loop_nth k :
  forall remaining attempt lastError w r w',
    Z.of_nat remaining = maxRetries - attempt + 1 ->
    nth_invocation sleep operation retryDelay k w = Some (r, w') ->
    match r with
    | Ok _ => (k < remaining)%nat
    | Throw _ => S k = remaining
    end ->
    exists tr,
      retry_loop sleep operation maxRetries retryDelay remaining attempt lastError w
        = (r, w', tr)
      /\ attempts tr = S k.
Proof.
  induction k as [|k IH]; intros remaining attempt lastError w r w' Hstep Hnth Hr.
  - cbn [nth_invocation] in Hnth.
    destruct remaining as [|remaining]; [destruct r; lia|].
    rewrite retry_loop_step.
    destruct (operation w) as [[[v|error] w1] tr0]; injection Hnth as <- <-.
    + eexists; split; reflexivity.
    + injection Hr as <-.
      destruct (Z.eqb_spec attempt maxRetries); [|lia].
      eexists; split; reflexivity.
  - cbn [nth_invocation] in Hnth.
    destruct remaining as [|remaining]; [destruct r; lia|].
    rewrite retry_loop_step.
    destruct (operation w) as [[[v|error] w1] tr0]; [discriminate|].
    destruct (Z.eqb_spec attempt maxRetries) as [->|Hne]; [destruct r; lia|].
    destruct (IH remaining (attempt + 1) (Some error) (sleep retryDelay w1) r w')
      as (tr & -> & Hn); [lia|exact Hnth|destruct r; lia|].
    eexists; split; [reflexivity|].
    unfold attempts in *. cbn. rewrite Hn. reflexivity.
Qed.

End RetryFacts.

(** C1, as stated, fails on the code: a work function that fails three times
    is retried after 1000 and again after 1000, which is the base delay times
    neither [2^i] for [i] counted from 0 nor from 1. *)
Lemma retry_backoff_counterexample :
  ~ (forall (operation : M (W:=nat) string) maxRetries baseDelay w i ms,
       sleeps (trace_of (retry (fun _ w => w) operation maxRetries baseDelay w)) !! i
         = Some ms ->
       ms = baseDelay * 2 ^ Z.of_nat i)
  /\
  ~ (forall (operation : M (W:=nat) string) maxRetries baseDelay w i ms,
       sleeps (trace_of (retry (fun _ w => w) operation maxRetries baseDelay w)) !! i
         = Some ms ->
       ms = baseDelay * 2 ^ (Z.of_nat i + 1)).
Proof.
  split; intros H;
    specialize (H (Demo.flaky 3) 3 1000 0%nat 1%nat 1000 eq_refl); discriminate.
Qed.

(** C1, amended: whatever the work does, the wrapper's own trace is a
    sequence of attempts separated by waits, and every wait lasts exactly
    [retryDelay]: one wait after each failed attempt that is not the last,
    none of them scaled by the attempt number. *)
Theorem retry_waits_fixed_delay {W T : Type} (sleep : Z -> W -> W)
    (operation : M (W:=W) T) (maxRetries retryDelay : Z) (w : W) :
  let tr := trace_of (retry sleep operation maxRetries retryDelay w) in
  alternates retryDelay tr = true
  /\ sleeps tr = repeat retryDelay (Nat.pred (attempts tr)).
Proof.
  destruct (retry_loop_trace sleep operation maxRetries retryDelay
              (Z.to_nat maxRetries) 1 None w) as (H1 & H2 & _).
  - unfold in_step. destruct (Z.to_nat maxRetries) eqn:E; [left; reflexivity|].
    right. lia.
  - split; assumption.
Qed.

(** C2: if the work fails at its first [k] invocations and succeeds at the
    next one, and [maxRetries > k], the wrapper returns that success after
    exactly [k + 1] invocations; if the work fails at each of its first
    [n + 1] invocations and [maxRetries = n + 1], the wrapper invokes it
    exactly [n + 1] times and throws the failure of the last invocation;
    with [maxRetries = 0] it invokes nothing. *)
Theorem retry_invocation_count {W T : Type} (sleep : Z -> W -> W)
    (operation : M (W:=W) T) (retryDelay : Z) (w : W) :
  (forall k v w' maxRetries,
     nth_invocation sleep operation retryDelay k w = Some (Ok v, w') ->
     Z.of_nat k < maxRetries ->
     exists tr,
       retry sleep operation maxRetries retryDelay w = (Ok v, w', tr)
       /\ attempts tr = S k)
  /\
  (forall n e w',
     nth_invocation sleep operation retryDelay n w = Some (Throw e, w') ->
     exists tr,
       retry sleep operation (Z.of_nat (S n)) retryDelay w = (Throw e, w', tr)
       /\ attempts tr = S n)
  /\
  attempts (trace_of (retry sleep operation 0 retryDelay w)) = O.
Proof.
  split; [|split].
  - intros k v w' maxRetries Hnth Hk.
    apply (retry_loop_nth sleep operation maxRetries retryDelay k
             (Z.to_nat maxRetries) 1 None w (Ok v) w'); [lia|exact Hnth|lia].
  - intros n e w' Hnth.
    unfold retry. rewrite Nat2Z.id.
    apply (retry_loop_nth sleep operation (Z.of_nat (S n)) retryDelay n
             (S n) 1 None w (Throw e) w'); [lia|exact Hnth|reflexivity].
  - reflexivity.
Qed.

Lemma retry_invocation_count_witness :
  (exists tr, retry (fun _ w => w) (Demo.flaky 2) 3 1000 0%nat = (Ok "done", 3%nat, tr)
              /\ attempts tr = 3%nat)
  /\
  (exists tr, retry (fun _ w => w) (Demo.flaky 7) 3 1000 0%nat
                = (Throw (Demo.failure 2), 3%nat, tr)
              /\ attempts tr = 3%nat).
Proof.
  split.
  - apply (proj1 (retry_invocation_count (fun _ w => w) (Demo.flaky 2) 1000 0%nat)
             2%nat "done" 3%nat 3); [reflexivity|lia].
  - apply (proj1 (proj2 (retry_invocation_count (fun _ w => w) (Demo.flaky 7) 1000 0%nat))
             2%nat (Demo.failure 2) 3%nat).
    reflexivity.
Defined.

(* ===================================================================== *)
(** ** The circuit breaker                                                 *)
(* ===================================================================== *)

Section BreakerFacts.

Variable cfg : ServerConfig.

Lemma recordFailures_cons now times cb :
  recordFailures cfg (now :: times) cb = recordFailures cfg times (recordFailure cfg now cb).
Proof. reflexivity. Qed.

Lemma recordFailures_failures times cb :
  failures (recordFailures cfg times cb) = failures cb + Z.of_nat (List.length times).
Proof.
  revert cb. induction times as [|now times IH]; intros cb.
  - cbn. lia.
  - rewrite recordFailures_cons, IH. cbn [recordFailure failures List.length]. lia.
Qed.

(** Below the threshold a closed breaker stays closed. *)
Lemma recordFailures_closed times cb :
  isOpen cb = false ->
  failures cb + Z.of_nat (List.length times) <= CIRCUIT_BREAKER_THRESHOLD cfg ->
  isOpen (recordFailures cfg times cb) = false.
Proof.
  revert cb. induction times as [|now times IH]; intros cb Hc Hn; [exact Hc|].
  rewrite recordFailures_cons. cbn [List.length] in Hn. apply IH.
  - cbn [recordFailure isOpen].
    destruct (Z.gtb_spec (failures cb + 1) (CIRCUIT_BREAKER_THRESHOLD cfg)); [lia|exact Hc].
  - cbn [recordFailure failures]. lia.
Qed.

Lemma checkAll_open checks cb :
  isOpen cb = true ->
  Forall (fun t => t - lastFailure cb <= CIRCUIT_BREAKER_RESET_TIME cfg) checks ->
  checkAll cfg checks cb = (repeat true (List.length checks), cb).
Proof.
  intros Ho H. induction H as [|t checks Ht _ IH]; [reflexivity|].
  cbn [checkAll List.length repeat]. unfold isCircuitOpen. rewrite Ho.
  destruct (Z.gtb_spec (t - lastFailure cb) (CIRCUIT_BREAKER_RESET_TIME cfg)); [lia|].
  rewrite IH. reflexivity.
Qed.

End BreakerFacts.

(** C5: starting from a reset breaker, [threshold] recorded failures leave
    it closed; one more opens it.  From then on every check made no later
    than [resetTimeMs] after that last failure answers [true] and leaves the
    breaker as it is; the first check made later than that answers [false]
    and leaves the counter at zero and the breaker closed.  Nothing happens
    between checks: the state changes only inside the check. *)
Theorem breaker_opens_after_threshold_plus_one (cfg : ServerConfig)
    (cb0 : CircuitBreaker) (times : list Z) (tlast : Z) (checks : list Z) (now : Z) :
  0 <= CIRCUIT_BREAKER_THRESHOLD cfg ->
  Z.of_nat (List.length times) = CIRCUIT_BREAKER_THRESHOLD cfg ->
  let before := recordFailures cfg times (reset cb0) in
  let cb := recordFailure cfg tlast before in
  isCircuitOpen cfg now before = (false, before)
  /\ cb = {| failures := CIRCUIT_BREAKER_THRESHOLD cfg + 1;
             lastFailure := tlast; isOpen := true |}
  /\ (Forall (fun t => t - tlast <= CIRCUIT_BREAKER_RESET_TIME cfg) checks ->
      checkAll cfg checks cb = (repeat true (List.length checks), cb))
  /\ (now - tlast > CIRCUIT_BREAKER_RESET_TIME cfg ->
      isCircuitOpen cfg now cb
      = (false, {| failures := 0; lastFailure := tlast; isOpen := false |})).
Proof.
  intros Hthr Hlen before cb.
  assert (Hclosed : isOpen before = false).
  { apply recordFailures_closed; [reflexivity|]. cbn [reset failures]. lia. }
  assert (Hcount : failures before = CIRCUIT_BREAKER_THRESHOLD cfg).
  { unfold before. rewrite recordFailures_failures. cbn [reset failures]. lia. }
  assert (Hcb : cb = {| failures := CIRCUIT_BREAKER_THRESHOLD cfg + 1;
                        lastFailure := tlast; isOpen := true |}).
  { unfold cb, recordFailure. rewrite Hcount.
    destruct (Z.gtb_spec (CIRCUIT_BREAKER_THRESHOLD cfg + 1)
                (CIRCUIT_BREAKER_THRESHOLD cfg)); [reflexivity|lia]. }
  split; [|split; [|split]].
  - unfold isCircuitOpen. rewrite Hclosed. reflexivity.
  - exact Hcb.
  - intros Hchecks. apply checkAll_open; rewrite Hcb; [reflexivity|exact Hchecks].
  - intros Hlate. rewrite Hcb. unfold isCircuitOpen. cbn [isOpen lastFailure].
    destruct (Z.gtb_spec (now - tlast) (CIRCUIT_BREAKER_RESET_TIME cfg)); [reflexivity|lia].
Qed.

Lemma breaker_opens_after_threshold_plus_one_witness :
  checkAll defaultConfig [5000; 300000; 305000]
    (recordFailures defaultConfig [1; 2; 3; 4; 5; 6; 7; 8; 9; 10; 5000]
       (reset (newCircuitBreaker 0)))
  = ([true; true; true],
     {| failures := 11; lastFailure := 5000; isOpen := true |})
  /\ isCircuitOpen defaultConfig 305001
       (recordFailures defaultConfig [1; 2; 3; 4; 5; 6; 7; 8; 9; 10; 5000]
          (reset (newCircuitBreaker 0)))
     = (false, {| failures := 0; lastFailure := 5000; isOpen := false |}).
Proof.
  destruct (breaker_opens_after_threshold_plus_one defaultConfig (newCircuitBreaker 0)
              [1; 2; 3; 4; 5; 6; 7; 8; 9; 10] 5000 [5000; 300000; 305000] 305001)
    as (_ & _ & H3 & H4); [cbn; lia|reflexivity|].
  split.
  - apply H3. repeat constructor; cbn; lia.
  - apply H4. cbn. lia.
Defined.

(* ===================================================================== *)
(** ** The route                                                           *)
(* ===================================================================== *)

Section RouteFacts.

Context `{X : Env} (K : Constants) (cfg : ServerConfig).

Lemma cache_get_live now key (c : gmap string CacheEntry) entry :
  c !! key = Some entry ->
  expires entry = 0 \/ now <= expires entry ->
  cache_get now key c = (Some (stored entry), c).
Proof.
  intros Hk Hlive. unfold cache_get. rewrite Hk.
  destruct (Z.eqb_spec (expires entry) 0) as [E|E]; cbn [negb andb]; [reflexivity|].
  destruct (Z.ltb_spec (expires entry) now); [lia|reflexivity].
Qed.

Lemma with_cache_same ss : with_cache ss (cache ss) = ss.
Proof. destruct ss; reflexivity. Qed.

Lemma with_breaker_same ss : with_breaker ss (circuitBreaker ss) = ss.
Proof. destruct ss; reflexivity. Qed.

End RouteFacts.

(** C6: a request that passes the limiter and validation, and whose
    identifier has a live cache entry, is answered 200 with the very
    reference the cache holds.  No collaborator is called, the heap, the
    cache and the breaker are left as they were, and the answer is the same
    whatever the breaker holds. *)
Theorem cache_hit_short_circuits `{X : Env} (K : Constants) (cfg : ServerConfig)
    (body body1 : MintBody) (ss : ServerState) (w w1 : W) (entry : CacheEntry) :
  limiter w = (true, w1) ->
  validateRequest body = Next body1 ->
  cache ss !! cacheKey (str (Js.or_else (email body1) (phone body1))) = Some entry ->
  expires entry = 0 \/ clock w1 <= expires entry ->
  forall cb : CircuitBreaker,
    postMint K cfg body (with_breaker ss cb) w
    = ({| code := 200; payload := JsonResult (stored entry) |},
       with_breaker ss cb, w1, [])
    /\ wire (heap (with_breaker ss cb)) (JsonResult (stored entry))
       = inl <$> (heap ss !! stored entry).
Proof.
  intros Hlim Hval Hentry Hlive cb. split; [|reflexivity].
  unfold postMint. rewrite Hlim, Hval.
  unfold cacheMiddleware. rewrite (validated_identifier _ _ Hval). cbn [negb].
  cbn [with_breaker cache].
  rewrite (cache_get_live _ _ _ _ Hentry Hlive).
  reflexivity.
Qed.

Lemma cache_hit_short_circuits_witness :
  postMint (X:=Demo.env) Demo.constants defaultConfig
    {| email := Some "User@Example.com"; phone := None |}
    (with_breaker Demo.served (circuitBreaker Demo.tripped)) Demo.world0
  = ({| code := 200; payload := JsonResult 0%nat |},
     with_breaker Demo.served (circuitBreaker Demo.tripped), Demo.world0, [])
  /\ wire (heap (with_breaker Demo.served (circuitBreaker Demo.tripped)))
       (JsonResult 0%nat)
     = Some (inl Demo.result0).
Proof.
  apply (cache_hit_short_circuits (X:=Demo.env) Demo.constants defaultConfig
           {| email := Some "User@Example.com"; phone := None |}
           {| email := Some "user@example.com"; phone := None |}
           Demo.served Demo.world0 Demo.world0
           {| expires := 4600000; stored := 0%nat |}).
  - reflexivity.
  - reflexivity.
  - reflexivity.
  - right. cbn. lia.
Defined.

(** C7: when the breaker is open (its flag is set and no more than the reset
    time has passed since the last recorded failure) a request that passes
    the limiter and validation and misses the cache is answered 503 with
    [retryAfter] the reset time divided by 1000; no collaborator is called
    and the breaker is left as it was. *)
Theorem open_breaker_fails_fast `{X : Env} (K : Constants) (cfg : ServerConfig)
    (body body1 : MintBody) (ss : ServerState) (w w1 : W)
    (c' : gmap string CacheEntry) :
  limiter w = (true, w1) ->
  validateRequest body = Next body1 ->
  cache_get (clock w1) (cacheKey (str (Js.or_else (email body1) (phone body1))))
    (cache ss) = (None, c') ->
  isOpen (circuitBreaker ss) = true ->
  clock w1 - lastFailure (circuitBreaker ss) <= CIRCUIT_BREAKER_RESET_TIME cfg ->
  postMint K cfg body ss w = (unavailable cfg, with_cache ss c', w1, []).
Proof.
  intros Hlim Hval Hmiss Hopen Hwin.
  unfold postMint. rewrite Hlim, Hval.
  unfold cacheMiddleware. rewrite (validated_identifier _ _ Hval). cbn [negb].
  rewrite Hmiss.
  unfold circuitBreakerMiddleware, isCircuitOpen.
  cbn [with_cache circuitBreaker]. rewrite Hopen.
  destruct (Z.gtb_spec (clock w1 - lastFailure (circuitBreaker ss))
              (CIRCUIT_BREAKER_RESET_TIME cfg)); [lia|].
  reflexivity.
Qed.

Lemma open_breaker_fails_fast_witness :
  postMint (X:=Demo.env) Demo.constants defaultConfig
    {| email := None; phone := Some "+5511999999999" |} Demo.tripped Demo.world0
  = (unavailable defaultConfig, Demo.tripped, Demo.world0, []).
Proof.
  apply (open_breaker_fails_fast (X:=Demo.env) Demo.constants defaultConfig
           {| email := None; phone := Some "+5511999999999" |}
           {| email := None; phone := Some "+5511999999999" |}
           Demo.tripped Demo.world0 Demo.world0 ∅).
  - reflexivity.
  - reflexivity.
  - reflexivity.
  - reflexivity.
  - cbn. lia.
Defined.

(* ===================================================================== *)
(** ** The signing adapter                                                 *)
(* ===================================================================== *)

Lemma length_app_string (x t : string) :
  String.length (x +:+ t) = (String.length x + String.length t)%nat.
Proof. induction x as [|c x IH]; simpl; [reflexivity|]. rewrite IH. reflexivity. Qed.

Lemma drop_app_string (x t : string) : Js.drop (String.length x) (x +:+ t) = t.
Proof. induction x as [|c x IH]; [destruct t; reflexivity|exact IH]. Qed.

Lemma take_app_string (x t : string) : Js.take (String.length x) (x +:+ t) = x.
Proof. induction x as [|c x IH]; [destruct t; reflexivity|]. simpl. rewrite IH. reflexivity. Qed.

Lemma take_drop_string n (s : string) : Js.take n s +:+ Js.drop n s = s.
Proof.
  revert s. induction n as [|n IH]; intros [|c s]; try reflexivity.
  change (String c (Js.take n s +:+ Js.drop n s) = String c s).
  f_equal. apply IH.
Qed.

Lemma length_drop_string n (s : string) :
  String.length (Js.drop n s) = (String.length s - n)%nat.
Proof.
  revert s. induction n as [|n IH]; intros [|c s]; simpl; try reflexivity.
  apply IH.
Qed.

Lemma allChars_drop p n (s : string) :
  allChars p s = true -> allChars p (Js.drop n s) = true.
Proof.
  revert s. induction n as [|n IH]; intros [|c s]; simpl; auto.
  intros H. apply andb_true_iff in H as [_ H]. auto.
Qed.

Lemma sliceLast2_app (x t : string) :
  String.length t = 2%nat -> Js.sliceLast2 (x +:+ t) = t.
Proof.
  intros Ht. unfold Js.sliceLast2. rewrite length_app_string, Ht.
  replace (String.length x + 2 - 2)%nat with (String.length x) by lia.
  apply drop_app_string.
Qed.

Lemma slices_split (s : string) : Js.sliceButLast2 s +:+ Js.sliceLast2 s = s.
Proof. apply take_drop_string. Qed.

Lemma app_assoc_string (a b c : string) : (a +:+ b) +:+ c = a +:+ (b +:+ c).
Proof.
  induction a as [|x a IH]; [reflexivity|].
  change (String x ((a +:+ b) +:+ c) = String x (a +:+ (b +:+ c))).
  f_equal. exact IH.
Qed.

Lemma in_allAscii c : In c allAscii.
Proof.
  unfold allAscii. rewrite <- (ascii_nat_embedding c).
  apply in_map, in_seq. pose proof (nat_ascii_bounded c). lia.
Qed.

Lemma hexPairCheck_all a b : hexPairCheck a b = true.
Proof.
  assert (H : forallb (fun a => forallb (hexPairCheck a) allAscii) allAscii = true)
    by (vm_compute; reflexivity).
  rewrite forallb_forall in H. specialize (H a (in_allAscii a)).
  rewrite forallb_forall in H. exact (H b (in_allAscii b)).
Qed.

(** The last two digits of a hexadecimal signature. *)
Lemma hexSignature_last2 sig :
  hexSignature sig = true ->
  exists a b, Js.sliceLast2 sig = String a (String b "")
              /\ Js.isHexDigit a = true /\ Js.isHexDigit b = true.
Proof.
  unfold hexSignature. intros H. apply andb_true_iff in H as [Hall Hlen].
  apply Nat.leb_le in Hlen.
  pose proof (length_drop_string (String.length sig - 2) sig) as Hl.
  pose proof (allChars_drop _ (String.length sig - 2) _ Hall) as Hd.
  fold (Js.sliceLast2 sig) in Hl, Hd.
  destruct (Js.sliceLast2 sig) as [|a [|b [|c t]]]; cbn in Hl; try lia.
  exists a, b. cbn in Hd.
  apply andb_true_iff in Hd as [Ha Hb]. apply andb_true_iff in Hb as [Hb _].
  auto.
Qed.

(** What [fixV] does to a hexadecimal signature whose last byte is [v]. *)
Lemma fixV_hex sig :
  hexSignature sig = true ->
  exists v,
    recoveryByte sig = Some v /\ 0 <= v <= 255
    /\ fixV sig = (if v <? 27 then Js.sliceButLast2 sig +:+ twoHex (v + 27) else sig)
    /\ recoveryByte ("0x" +:+ fixV sig) = Some (if v <? 27 then v + 27 else v).
Proof.
  intros Hsig. destruct (hexSignature_last2 sig Hsig) as (a & b & Hlast & Ha & Hb).
  pose proof (hexPairCheck_all a b) as Hchk. unfold hexPairCheck in Hchk.
  rewrite Ha, Hb in Hchk. cbn [andb] in Hchk.
  unfold recoveryByte at 1. rewrite Hlast.
  destruct (Js.parseInt16 (String a (String b ""))) as [v|] eqn:Hv; [|discriminate].
  apply andb_true_iff in Hchk as [Hrange Hadj].
  apply andb_true_iff in Hrange as [Hlo Hhi].
  exists v. split; [reflexivity|]. split; [lia|].
  assert (Hfix : fixV sig
                 = (if v <? 27 then Js.sliceButLast2 sig +:+ twoHex (v + 27) else sig)).
  { unfold fixV. rewrite Hlast, Hv. cbn [Js.ltNum]. reflexivity. }
  split; [exact Hfix|]. rewrite Hfix.
  unfold recoveryByte. destruct (v <? 27) eqn:Hlt.
  - apply andb_true_iff in Hadj as [Hlen Hparse]. apply Nat.eqb_eq in Hlen.
    rewrite <- app_assoc_string, sliceLast2_app by exact Hlen.
    destruct (Js.parseInt16 (twoHex (v + 27))) as [v'|]; [|discriminate].
    f_equal. lia.
  - rewrite <- (slices_split sig) at 1.
    rewrite <- app_assoc_string, sliceLast2_app by (rewrite Hlast; reflexivity).
    rewrite Hlast. exact Hv.
Qed.

Lemma try_catch_wraps `{X : Env} {A} (m : M (W:=W) A) (wrap : exn -> exn) w e w' tr :
  try_catch m (fun err => throw (wrap err)) w = (Throw e, w', tr) ->
  exists cause, e = wrap cause.
Proof.
  unfold try_catch, throw. destruct (m w) as [[[a|cause] w1] tr1]; [discriminate|].
  intros [= <- _ _]. eauto.
Qed.

(** C8: when the wallet is there and the signer has answered, a signature
    that is missing, not a string or empty makes the operation fail with a
    [SigningError]; otherwise the operation returns ["0x"] followed by the
    adjusted signature, and for a hexadecimal signature whose last byte is
    [v] the adjustment replaces that byte by the two hexadecimal digits of
    [v + 27] exactly when [v < 27], so the last byte of what is returned is
    at least 27. *)
Theorem sign_recovery_byte `{X : Env} (capsule : Capsule) (message : string)
    (w w1 : W) (wallets : WalletSet) (wallet : Wallet) (res : SignatureRes)
    (tr : list event) :
  capsule_wallets capsule w = Some wallets ->
  firstWallet wallets = Some wallet ->
  retry3 (external
            (SignMessage (wallet_id wallet) (hexStringToBase64 (hashMessage message)))
            (capsule_signMessage capsule (wallet_id wallet)
               (hexStringToBase64 (hashMessage message)))) w
    = (Ok res, w1, tr) ->
  (validSignature (signature res) = None ->
     customSignMessage capsule message w
     = (Throw (signingFailed
                 (Err ClientsSigningError "Invalid signature format received" None)),
        w1, tr))
  /\
  (forall sig, validSignature (signature res) = Some sig ->
     customSignMessage capsule message w = (Ok ("0x" +:+ fixV sig), w1, tr)
     /\ (hexSignature sig = true ->
         exists v,
           recoveryByte sig = Some v
           /\ fixV sig
              = (if v <? 27 then Js.sliceButLast2 sig +:+ twoHex (v + 27) else sig)
           /\ recoveryByte ("0x" +:+ fixV sig) = Some (if v <? 27 then v + 27 else v)
           /\ 27 <= (if v <? 27 then v + 27 else v))).
Proof.
  intros Hw Hfirst Hsign.
  split.
  - intros Hbad. unfold customSignMessage, try_catch.
    rewrite Hw, Hfirst. unfold bind at 1. rewrite Hsign.
    unfold validSignature in Hbad.
    destruct (signature res) as [|sig|]; cbn.
    + rewrite !app_nil_r. reflexivity.
    + destruct (nonempty sig); [discriminate|]. cbn. rewrite !app_nil_r. reflexivity.
    + rewrite !app_nil_r. reflexivity.
  - intros sig Hgood. split.
    + unfold customSignMessage, try_catch.
      rewrite Hw, Hfirst. unfold bind at 1. rewrite Hsign.
      unfold validSignature in Hgood.
      destruct (signature res) as [|sig'|]; try discriminate.
      destruct (nonempty sig') eqn:Hn; [|discriminate].
      injection Hgood as ->. cbn. rewrite !app_nil_r. reflexivity.
    + intros Hhex. destruct (fixV_hex sig Hhex) as (v & Hv & Hrange & Hfix & Hout).
      exists v. repeat split; auto.
      destruct (Z.ltb_spec v 27); lia.
Qed.

Lemma sign_recovery_byte_witness :
  customSignMessage (X:=Demo.env) tt "hello" Demo.world0
  = (Ok "0x8f3a1c", Demo.world0,
     [EvAttempt 1 [EvCall (SignMessage "w-1" "hello")]])
  /\ recoveryByte "0x8f3a1c" = Some 28.
Proof.
  destruct (proj2 (sign_recovery_byte (X:=Demo.env) tt "hello" Demo.world0 Demo.world0
                     Demo.wallets0 Demo.wallet0 {| signature := VString "8f3a01" |}
                     [EvAttempt 1 [EvCall (SignMessage "w-1" "hello")]]
                     eq_refl eq_refl eq_refl) "8f3a01" eq_refl)
    as [Hrun Hbyte].
  split; [exact Hrun|].
  destruct (Hbyte eq_refl) as (v & Hv & _ & Hout & _).
  injection Hv as <-. exact Hout.
Defined.

(* ===================================================================== *)
(** ** Provisioning: the wallet that already exists                        *)
(* ===================================================================== *)

Lemma try_catch_throws `{X : Env} {A} (m : M (W:=W) A) (h : exn -> M (W:=W) A)
    w e w' tr :
  try_catch m h w = (Throw e, w', tr) ->
  exists cause w1 tr1 tr2,
    m w = (Throw cause, w1, tr1) /\ h cause w1 = (Throw e, w', tr2).
Proof.
  unfold try_catch. destruct (m w) as [[[a|cause] w1] tr1]; [discriminate|].
  destruct (h cause w1) as [[r w2] tr2] eqn:E. intros [= -> <- _].
  exists cause, w1, tr1, tr2. auto.
Qed.

(** What [createOrGetPregenWallet] throws: a [WalletOperationError], or the
    [TypeError] of its [catch] block when the value caught there is
    [undefined] or [null]. *)
Lemma createOrGetPregenWallet_throws `{X : Env} capsule identifier identifierType
    (w w' : W) e tr :
  createOrGetPregenWallet capsule identifier identifierType w = (Throw e, w', tr) ->
  e = Err ClientsWalletOperationError "Invalid identifier or identifier type" None
  \/ (exists cause,
        cause <> Undefined /\ cause <> Null
        /\ e = Err ClientsWalletOperationError "Wallet operation failed" (Some cause))
  \/ e = Err ClsTypeError "Cannot read properties of undefined (reading 'name')" None
  \/ e = Err ClsTypeError "Cannot read properties of null (reading 'name')" None.
Proof.
  unfold createOrGetPregenWallet.
  destruct (nonempty identifier); cbn [negb].
  - intros H. apply try_catch_throws in H as (cause & w1 & tr1 & tr2 & _ & H).
    destruct cause as [cls message original| | |description];
      unfold throw in H; injection H as <- _ _.
    + right. left. eexists. repeat split; discriminate || reflexivity.
    + right. right. left. reflexivity.
    + right. right. right. reflexivity.
    + right. left. eexists. repeat split; discriminate || reflexivity.
  - unfold throw. intros [= <- _ _]. left. reflexivity.
Qed.



(* ===================================================================== *)
(** ** Runs of the whole route in the demonstration world                  *)
(* ===================================================================== *)

(** The outer loop of [performMint] is where the delay doubles: with the
    relay down, the three passes are separated by 1000 and 2000. *)
Example performMint_backoff_doubles :
  sleeps (trace_of (performMint (X:=Demo.env) Demo.constants defaultConfig
                      {| email := Some "a@b.co"; phone := None |} Demo.worldDown))
  = [1000; 2000].
Proof. vm_compute. reflexivity. Qed.

(** Eleven requests that fail downstream are answered 500 and trip the
    breaker; the twelfth is answered 503 without any call. *)
Example eleven_failures_then_unavailable :
  match Demo.serve 12 {| email := Some "a@b.co"; phone := None |}
          Demo.fresh Demo.worldDown with
  | (codes, ss, _, last) =>
      codes = [500; 500; 500; 500; 500; 500; 500; 500; 500; 500; 500; 503]
      /\ isOpen (circuitBreaker ss) = true
      /\ failures (circuitBreaker ss) = 11
      /\ last = []
  end.
Proof. vm_compute. repeat split; reflexivity. Qed.

(** The same request twice: the second answer comes from the cache, calls
    nothing and allocates nothing. *)
Example repeat_request_served_from_cache :
  match Demo.serve 2 {| email := Some "User@Example.com"; phone := None |}
          Demo.fresh Demo.world0 with
  | (codes, ss, _, last) =>
      codes = [200; 200] /\ last = [] /\ List.length (heap ss) = 1%nat
  end.
Proof. vm_compute. repeat split; reflexivity. Qed.

(** One pass of the workflow: the relay's request for a signature goes
    through the signing adapter and is recorded after the call that caused
    it. *)
Example mint_signs_through_adapter :
  calls (trace_of (mintOnce (X:=Demo.env) Demo.constants "a@b.co" EMAIL Demo.world0))
  = [NewCapsule; GetWallets; HasPregenWallet "a@b.co" EMAIL; DbSelectShare "a@b.co";
     SetUserShare "share-1"; GetWallets; CreateCapsuleAccount; CreateCapsuleViemClient;
     CreateModularAccountAlchemyClient;
     SendUserOperation "0xb8db917bd55DEAec469236Ace6058f2fa76791E6" "mintTo";
     SignMessage "w-1" "user-operation-hash"].
Proof. vm_compute. reflexivity. Qed.

(** A wallet lookup that rejects with [undefined] three times: the [catch]
    block of [createOrGetPregenWallet] fails on [err.name], and what comes
    out is a [TypeError], not a [WalletOperationError]. *)
Example undefined_rejection_is_type_error :
  createOrGetPregenWallet (X:=DemoReject.env) tt "user@example.com" EMAIL Demo.world0
  = (Throw (Err ClsTypeError "Cannot read properties of undefined (reading 'name')" None),
     {| Demo.time := 1002000; Demo.pending := 0; Demo.relayDown := false |},
     [EvAttempt 1 [EvCall (HasPregenWallet "user@example.com" EMAIL)];
      EvSleep 1000;
      EvAttempt 2 [EvCall (HasPregenWallet "user@example.com" EMAIL)];
      EvSleep 1000;
      EvAttempt 3 [EvCall (HasPregenWallet "user@example.com" EMAIL)]]).
Proof. vm_compute. reflexivity. Qed.

(** A body whose e-mail is the array [["a@b.co"]]: the pattern is tested on
    ["a@b.co"] and passes, and the call of [toLowerCase] throws. *)
Example array_email_is_unhandled :
  validateJson {| json_email := Other true (Some "a@b.co"); json_phone := Absent |}
  = Errored (Err ClsTypeError "email.toLowerCase is not a function" None).
Proof. reflexivity. Qed.

(* ===================================================================== *)
(** * Further properties of the code                                       *)
(* ===================================================================== *)

(** ** Counting collaborator calls *)

Lemma ncalls_app tr1 tr2 : ncalls (tr1 ++ tr2) = (ncalls tr1 + ncalls tr2)%nat.
Proof. unfold ncalls, calls. rewrite flat_map_app, length_app. reflexivity. Qed.

Lemma ncalls_attempt a inner tr :
  ncalls (EvAttempt a inner :: tr) = (ncalls inner + ncalls tr)%nat.
Proof.
  unfold ncalls, calls. cbn [flat_map calls_of]. rewrite length_app. reflexivity.
Qed.

Lemma ncalls_sleep ms tr : ncalls (EvSleep ms :: tr) = ncalls tr.
Proof. reflexivity. Qed.

Section Bounds.

Context {W : Type}.

Local Abbreviation Task := (M (W:=W)).

Lemma bounded_le {A} n n' (m : Task A) : bounded n m -> (n <= n')%nat -> bounded n' m.
Proof. intros H Hle w. specialize (H w). lia. Qed.

Lemma bounded_ret {A} (a : A) : bounded 0 (ret a : Task A).
Proof. intros w. cbn. lia. Qed.

Lemma bounded_throw {A} e : bounded 0 (throw e : Task A).
Proof. intros w. cbn. lia. Qed.

Lemma bounded_external {A} c (f : W -> outcome A * W) : bounded 1 (external c f).
Proof. intros w. unfold external. destruct (f w). cbn. lia. Qed.

Lemma bounded_delay (sleep : Z -> W -> W) ms : bounded 0 (delay sleep ms).
Proof. intros w. cbn. lia. Qed.

Lemma bounded_bind {A B} n1 n2 (m : Task A) (f : A -> Task B) :
  bounded n1 m -> (forall a, bounded n2 (f a)) -> bounded (n1 + n2) (bind m f).
Proof.
  intros Hm Hf w. unfold bind. specialize (Hm w). revert Hm.
  destruct (m w) as [[[a|e] w1] tr1]; intros Hm;
    unfold trace_of in *; cbn [snd] in *; [|lia].
  specialize (Hf a w1). revert Hf. destruct (f a w1) as [[r w2] tr2]. intros Hf.
  unfold trace_of in *. cbn [snd] in *.
  rewrite ncalls_app. lia.
Qed.

Lemma bounded_bind_from {A B} n1 n2 (m : Task A) (f : A -> Task B) :
  bounded n1 m ->
  (forall a, (exists w w1 tr, m w = (Ok a, w1, tr)) -> bounded n2 (f a)) ->
  bounded (n1 + n2) (bind m f).
Proof.
  intros Hm Hf w. unfold bind. specialize (Hm w). revert Hm.
  destruct (m w) as [[[a|e] w1] tr1] eqn:E; intros Hm;
    unfold trace_of in *; cbn [snd] in *; [|lia].
  assert (Hfa : bounded n2 (f a)) by (apply Hf; eauto).
  specialize (Hfa w1). revert Hfa. destruct (f a w1) as [[r w2] tr2]. intros Hfa.
  unfold trace_of in *. cbn [snd] in *.
  rewrite ncalls_app. lia.
Qed.

Lemma bounded_try_catch {A} n1 n2 (m : Task A) (h : exn -> Task A) :
  bounded n1 m -> (forall e, bounded n2 (h e)) -> bounded (n1 + n2) (try_catch m h).
Proof.
  intros Hm Hh w. unfold try_catch. specialize (Hm w). revert Hm.
  destruct (m w) as [[[a|e] w1] tr1]; intros Hm;
    unfold trace_of in *; cbn [snd] in *; [lia|].
  specialize (Hh e w1). revert Hh. destruct (h e w1) as [[r w2] tr2]. intros Hh.
  unfold trace_of in *. cbn [snd] in *.
  rewrite ncalls_app. lia.
Qed.

Lemma bounded_if {A} n1 n2 (b : bool) (m1 m2 : Task A) :
  bounded n1 m1 -> bounded n2 m2 -> bounded (Nat.max n1 n2) (if b then m1 else m2).
Proof. intros H1 H2. destruct b; eapply bounded_le; eauto; lia. Qed.

Variable sleep : Z -> W -> W.

Lemma retry_loop_bounds {T} (operation : Task T) maxRetries retryDelay n remaining :
  forall attempt lastError w,
    bounded n operation ->
    let tr := trace_of (retry_loop sleep operation maxRetries retryDelay
                          remaining attempt lastError w) in
    (attempts tr <= remaining)%nat /\ (ncalls tr <= remaining * n)%nat.
Proof.
  induction remaining as [|remaining IH]; intros attempt lastError w Hop.
  - cbn. lia.
  - cbv zeta. rewrite retry_loop_step. pose proof (Hop w) as Hw. revert Hw.
    destruct (operation w) as [[[v|error] w1] tr0]; intros Hw;
      unfold trace_of in *; cbn [snd] in *.
    + rewrite ncalls_attempt. cbn. lia.
    + destruct (attempt =? maxRetries); cbn [snd].
      * rewrite ncalls_attempt. cbn. lia.
      * specialize (IH (attempt + 1) (Some error) (sleep retryDelay w1) Hop).
        cbv zeta in IH. revert IH.
        destruct (retry_loop _ _ _ _ _ _ _ _) as [[r w2] tr2]. intros IH.
        unfold trace_of in *. cbn [snd] in *.
        rewrite ncalls_attempt, ncalls_sleep. unfold attempts in *.
        cbn [List.filter is_attempt List.length] in *. lia.
Qed.

Lemma bounded_retry {T} (operation : Task T) maxRetries retryDelay n :
  bounded n operation ->
  bounded (Z.to_nat maxRetries * n) (retry sleep operation maxRetries retryDelay).
Proof.
  intros Hop w. apply (retry_loop_bounds operation maxRetries retryDelay n
                         (Z.to_nat maxRetries) 1 None w Hop).
Qed.

End Bounds.

(** X1: the retry wrapper never invokes the work more than [maxRetries]
    times (not at all when [maxRetries < 1]), and when one invocation makes
    at most [n] collaborator calls the whole retried call makes at most
    [maxRetries * n]. *)
Theorem retry_never_exceeds_budget {W T : Type} (sleep : Z -> W -> W)
    (operation : M (W:=W) T) (maxRetries retryDelay : Z) (n : nat) (w : W) :
  bounded n operation ->
  let tr := trace_of (retry sleep operation maxRetries retryDelay w) in
  (attempts tr <= Z.to_nat maxRetries)%nat
  /\ (ncalls tr <= Z.to_nat maxRetries * n)%nat.
Proof.
  intros Hop. apply (retry_loop_bounds sleep operation maxRetries retryDelay n
                       (Z.to_nat maxRetries) 1 None w Hop).
Qed.

Lemma retry_never_exceeds_budget_witness :
  (attempts (trace_of (retry (fun _ w => w) (Demo.flaky 7) 3 1000 0%nat)) <= 3)%nat
  /\ (ncalls (trace_of (retry (fun _ w => w) (Demo.flaky 7) 3 1000 0%nat)) <= 3 * 0)%nat.
Proof.
  apply (retry_never_exceeds_budget (fun _ w => w) (Demo.flaky 7) 3 1000 0 0%nat).
  intros w. unfold Demo.flaky. destruct (w <? 7)%nat; cbn; lia.
Defined.

Ltac leaf :=
  eapply bounded_le;
  [ first [ apply bounded_ret | apply bounded_throw
          | apply bounded_external | apply bounded_delay ]
  | lia ].

Ltac bind_with a b :=
  eapply bounded_le; [ apply (bounded_bind a b) | lia ].

Ltac catch_with a b :=
  eapply bounded_le; [ apply (bounded_try_catch a b) | lia ].

Ltac retry_with k :=
  unfold retry3; eapply bounded_le;
  [ apply (bounded_retry sleep _ _ _ k) | vm_compute; lia ].

Section CallBudgets.

Context `{X : Env} (K : Constants) (cfg : ServerConfig).

Lemma storeUserShare_calls identifier userShare identifierType :
  bounded 1 (storeUserShare identifier userShare identifierType).
Proof.
  unfold storeUserShare. catch_with 1%nat 0%nat.
  - bind_with 1%nat 0%nat; [leaf|]. intros res. destruct (ins_error res); leaf.
  - intros e. leaf.
Qed.

Lemma getUserShareFromDatabase_calls identifier :
  bounded 1 (getUserShareFromDatabase identifier).
Proof.
  unfold getUserShareFromDatabase. catch_with 1%nat 0%nat.
  - bind_with 1%nat 0%nat; [leaf|]. intros res. destruct (sel_error res); leaf.
  - intros e. leaf.
Qed.

Lemma initializeCapsule_calls : bounded 6 (initializeCapsule K).
Proof.
  unfold initializeCapsule. catch_with 6%nat 0%nat; [|intros e; leaf].
  destruct (negb (nonempty (CAPSULE_API_KEY K)) || negb (nonempty CAPSULE_ENVIRONMENT));
    [leaf|].
  retry_with 2%nat.
  bind_with 1%nat 1%nat; [leaf|]. intros capsule.
  bind_with 1%nat 0%nat; [|intros u; leaf].
  catch_with 1%nat 0%nat; [|intros e; leaf].
  bind_with 1%nat 0%nat; [leaf|]. intros [ws|]; leaf.
Qed.

Lemma orThrow_calls share e : bounded 0 (orThrow share e).
Proof. unfold orThrow. destruct share as [s|]; [destruct (nonempty s)|]; leaf. Qed.

Lemma createOrGetPregenWallet_calls capsule identifier identifierType :
  bounded 12 (createOrGetPregenWallet capsule identifier identifierType).
Proof.
  unfold createOrGetPregenWallet.
  destruct (negb (nonempty identifier)); [leaf|].
  catch_with 12%nat 0%nat; [|intros e; destruct e; leaf].
  bind_with 3%nat 9%nat; [retry_with 1%nat; leaf|].
  intros hasWallet. destruct (negb hasWallet).
  - bind_with 3%nat 6%nat; [retry_with 1%nat; leaf|]. intros pregenWallet.
    bind_with 3%nat 3%nat.
    + retry_with 1%nat. bind_with 1%nat 0%nat; [leaf|]. intros share.
      apply orThrow_calls.
    + intros userShare.
      bind_with 3%nat 0%nat; [|intros u; leaf].
      retry_with 1%nat. apply storeUserShare_calls.
  - bind_with 3%nat 4%nat.
    + retry_with 1%nat. apply getUserShareFromDatabase_calls.
    + intros found. bind_with 0%nat 4%nat; [apply orThrow_calls|].
      intros userShare. bind_with 3%nat 1%nat; [retry_with 1%nat; leaf|].
      intros u. bind_with 1%nat 0%nat; [leaf|].
      intros [ws|]; [destruct (firstWallet ws)|]; leaf.
Qed.

Lemma customSignMessage_calls capsule message :
  bounded 3 (customSignMessage capsule message).
Proof.
  unfold customSignMessage. catch_with 3%nat 0%nat; [|intros e; leaf].
  intros w. destruct (capsule_wallets capsule w) as [wallets|]; [|cbn; lia].
  destruct (firstWallet wallets) as [wallet|]; [|cbn; lia].
  revert w. change (bounded 3 (let! res :=
      retry3 (external
                (SignMessage (wallet_id wallet) (hexStringToBase64 (hashMessage message)))
                (capsule_signMessage capsule (wallet_id wallet)
                   (hexStringToBase64 (hashMessage message)))) in
      match signature res with
      | VString sig =>
          if nonempty sig
          then ret ("0x" +:+ fixV sig)
          else throw (Err ClientsSigningError "Invalid signature format received" None)
      | _ => throw (Err ClientsSigningError "Invalid signature format received" None)
      end)).
  bind_with 3%nat 0%nat; [retry_with 1%nat; leaf|].
  intros res. destruct (signature res) as [|sig|]; [|destruct (nonempty sig)|]; leaf.
Qed.

Lemma createViemClient_calls capsule : bounded 2 (createViemClient K capsule).
Proof.
  intros w. unfold createViemClient.
  destruct (capsule_wallets capsule w); [|cbn; lia].
  revert w. apply (bounded_le 2 2); [|lia].
  catch_with 2%nat 0%nat; [|intros e; leaf].
  bind_with 1%nat 1%nat; [leaf|]. intros account.
  destruct (negb (nonempty (ALCHEMY_RPC_URL K))); [leaf|].
  bind_with 1%nat 0%nat; [leaf|]. intros v. leaf.
Qed.

Lemma createAlchemyClient_calls viemClient : bounded 3 (createAlchemyClient K viemClient).
Proof.
  unfold createAlchemyClient. catch_with 3%nat 0%nat; [|intros e; leaf].
  destruct (negb (nonempty (ALCHEMY_API_KEY K)) || negb (nonempty (ALCHEMY_GAS_POLICY_ID K)));
    [leaf|].
  retry_with 1%nat. leaf.
Qed.

End CallBudgets.

Lemma createViemClient_signer `{X : Env} (K : Constants) capsule (w w' : W) client tr :
  createViemClient K capsule w = (Ok client, w', tr) ->
  signMessage client = (fun message => customSignMessage capsule message).
Proof.
  unfold createViemClient. destruct (capsule_wallets capsule w); [|discriminate].
  unfold try_catch, bind, external.
  destruct (createCapsuleAccount capsule w) as [[account|e] w1]; [|discriminate].
  destruct (negb (nonempty (ALCHEMY_RPC_URL K))); [discriminate|].
  destruct (createCapsuleViemClient _ _ _ w1) as [[v|e] w2]; [|discriminate].
  cbn. intros [= <- _ _]. reflexivity.
Qed.

Section MintBudget.

Context `{X : Env} (K : Constants) (cfg : ServerConfig).

(** The SDK asks for at most [signatures] signatures per user operation. *)
Variable signatures : nat.
Hypothesis relay_signs :
  forall client target data w,
    signsAtMost signatures (fst (sendUserOperation client target data w)).

Lemma runRelay_calls (sign : string -> M (W:=W) string) n :
  (forall message, bounded n (sign message)) ->
  forall s r, signsAtMost s r -> bounded (s * n) (runRelay sign r).
Proof.
  intros Hsign. induction s as [|s IH]; intros [res|message next] Hr w;
    cbn [runRelay signsAtMost] in *; try (cbn; lia); try contradiction.
  pose proof (Hsign message w) as H1. revert H1.
  destruct (sign message w) as [[signed w1] tr1]. unfold trace_of. cbn [snd].
  intros H1. specialize (Hr signed w1). revert Hr.
  destruct (next signed w1) as [r' w2]. intros Hr.
  specialize (IH r' Hr w2). revert IH.
  destruct (runRelay sign r' w2) as [[res w3] tr2]. unfold trace_of. cbn [snd].
  intros IH. rewrite ncalls_app. lia.
Qed.

Lemma sendOperation_calls viemClient alchemyClient target data :
  (forall message, bounded 3 (signMessage viemClient message)) ->
  bounded (1 + signatures * 3) (sendOperation viemClient alchemyClient target data).
Proof.
  intros Hsign w. unfold sendOperation.
  pose proof (relay_signs alchemyClient target data w) as Hr. revert Hr.
  destruct (sendUserOperation alchemyClient target data w) as [r w1]. cbn [fst].
  intros Hr.
  pose proof (runRelay_calls _ 3 Hsign signatures r Hr w1) as Hb. revert Hb.
  destruct (runRelay _ r w1) as [[res w2] tr]. unfold trace_of. cbn [snd].
  intros Hb. change (EvCall (SendUserOperation target data) :: tr)
    with ([EvCall (SendUserOperation target data)] ++ tr).
  rewrite ncalls_app. cbn. lia.
Qed.

Lemma mintOnce_calls identifier identifierType :
  bounded (24 + 3 * signatures) (mintOnce K identifier identifierType).
Proof.
  unfold mintOnce.
  bind_with 6%nat (18 + 3 * signatures)%nat; [apply initializeCapsule_calls|].
  intros capsuleClient.
  bind_with 12%nat (6 + 3 * signatures)%nat; [apply createOrGetPregenWallet_calls|].
  intros wallet.
  destruct (negb (Js.truthy (wallet_address wallet))); [leaf|].
  eapply bounded_le; [apply (bounded_bind_from 2 (4 + 3 * signatures))|lia];
    [apply createViemClient_calls|].
  intros viemClient (w0 & w1 & tr0 & Hviem).
  bind_with 3%nat (1 + 3 * signatures)%nat; [apply createAlchemyClient_calls|].
  intros alchemyClient.
  destruct (encodeFunctionData _ _) as [data|message]; [|leaf].
  bind_with (1 + signatures * 3)%nat 0%nat; [|intros r; leaf].
  apply sendOperation_calls. intros message.
  rewrite (createViemClient_signer _ _ _ _ _ _ Hviem). apply customSignMessage_calls.
Qed.

Lemma performMint_loop_calls identifier identifierType remaining :
  forall attempt lastError,
    bounded (remaining * (24 + 3 * signatures))
      (performMint_loop K cfg identifier identifierType remaining attempt lastError).
Proof.
  induction remaining as [|remaining IH]; intros attempt lastError.
  - cbn [performMint_loop]. leaf.
  - cbn [performMint_loop].
    eapply bounded_le;
      [apply (bounded_try_catch (24 + 3 * signatures)
                (remaining * (24 + 3 * signatures)))|lia].
    + apply mintOnce_calls.
    + intros error.
      eapply bounded_le;
        [apply (bounded_bind 0 (remaining * (24 + 3 * signatures)))|lia].
      * destruct (attempt <? MAX_RETRIES cfg - 1); leaf.
      * intros u. apply IH.
Qed.

Lemma performMint_calls body :
  bounded (Z.to_nat (MAX_RETRIES cfg) * (24 + 3 * signatures)) (performMint K cfg body).
Proof.
  unfold performMint.
  destruct (negb (Js.truthy (Js.or_else (email body) (phone body)))); [leaf|].
  apply performMint_loop_calls.
Qed.

End MintBudget.

(** X2: call budgets of the client functions, whatever the collaborators
    answer: connecting makes at most 6 calls (three attempts of constructor
    plus connection test), provisioning at most 12, signing at most 3,
    building the viem client at most 2 and the account client at most 3. *)
Theorem client_call_budgets `{X : Env} (K : Constants) (capsule : Capsule)
    (identifier message : string) (identifierType : PregenIdentifierType)
    (viemClient : WalletClient W ViemBase) :
  bounded 6 (initializeCapsule K)
  /\ bounded 12 (createOrGetPregenWallet capsule identifier identifierType)
  /\ bounded 3 (customSignMessage capsule message)
  /\ bounded 2 (createViemClient K capsule)
  /\ bounded 3 (createAlchemyClient K viemClient).
Proof.
  repeat split.
  - apply initializeCapsule_calls.
  - apply createOrGetPregenWallet_calls.
  - apply customSignMessage_calls.
  - apply createViemClient_calls.
  - apply createAlchemyClient_calls.
Qed.

(** X3: when the account-abstraction SDK asks the signer for at most
    [signatures] signatures per user operation, one [POST /mint] makes at
    most [6 + MAX_RETRIES * (24 + 3 * signatures)] collaborator calls: the
    handler's own connection test, then in each pass of [performMint] at
    most 24 calls of its own and at most 3 for each signature. *)
Theorem postMint_call_budget `{X : Env} (K : Constants) (cfg : ServerConfig)
    (signatures : nat) (body : MintBody) (ss : ServerState) (w : W) :
  (forall client target data w0,
     signsAtMost signatures (fst (sendUserOperation client target data w0))) ->
  (ncalls (handled_trace (postMint K cfg body ss w))
   <= 6 + Z.to_nat (MAX_RETRIES cfg) * (24 + 3 * signatures))%nat.
Proof.
  intros Hrelay.
  unfold postMint, handled_trace.
  destruct (limiter w) as [[|] w1]; [|cbn; lia].
  destruct (validateRequest body) as [r|body1]; [cbn; lia|].
  destruct (cacheMiddleware (clock w1) body1 ss) as [[r|u] ss1]; [cbn; lia|].
  destruct (circuitBreakerMiddleware cfg (clock w1) ss1) as [[r|u'] ss2]; [cbn; lia|].
  unfold mintHandler.
  pose proof (initializeCapsule_calls K w1) as Hinit. revert Hinit.
  destruct (initializeCapsule K w1) as [[[c|e] w2] tr1]; unfold trace_of; cbn [snd];
    intros Hinit; [|lia].
  pose proof (performMint_calls K cfg signatures Hrelay body1 w2) as Hmint. revert Hmint.
  destruct (performMint K cfg body1 w2) as [[[result|e] w3] tr2];
    unfold trace_of; cbn [snd]; intros Hmint; rewrite ncalls_app; lia.
Qed.

Lemma postMint_call_budget_witness :
  (ncalls (handled_trace
             (postMint (X:=Demo.env) Demo.constants defaultConfig
                {| email := Some "a@b.co"; phone := None |} Demo.fresh Demo.world0))
   <= 87)%nat.
Proof.
  apply (postMint_call_budget (X:=Demo.env) Demo.constants defaultConfig 1
           {| email := Some "a@b.co"; phone := None |} Demo.fresh Demo.world0).
  intros client target data w0. cbn. destruct (Demo.relayDown w0); cbn.
  - exact I.
  - intros signed w'. destruct signed; exact I.
Defined.

(* ===================================================================== *)
(** ** Validation                                                          *)
(* ===================================================================== *)

Lemma app_empty_r_string (s : string) : s +:+ "" = s.
Proof.
  induction s as [|c s IH]; [reflexivity|].
  change (String c (s +:+ "") = String c s). f_equal. exact IH.
Qed.

Lemma length_nonempty (s : string) : (1 <= String.length s)%nat <-> nonempty s = true.
Proof. destruct s; cbn; split; intros; try lia; try discriminate; reflexivity. Qed.

Lemma mem_plain c : mem (CsNeg (CsUnion CsSpace (CsChar "@"))) c = plainChar c.
Proof. reflexivity. Qed.

Lemma allChars_ext p q s : (forall c, p c = q c) -> allChars p s = allChars q s.
Proof.
  intros H. induction s as [|c s IH]; [reflexivity|]. cbn. rewrite H, IH. reflexivity.
Qed.

Lemma email_parts_sound (e : string) :
  isValidEmail e = true ->
  exists l d t,
    e = l +:+ "@" +:+ d +:+ "." +:+ t
    /\ emailPart l = true /\ emailPart d = true /\ emailPart t = true.
Proof.
  unfold isValidEmail, test, emailRegex, emailPart.
  cbn [match_terms plus once atom qmin qmax].
  intros H.
  apply match_rep_sound in H as (l & s2 & -> & Hl & Hnl & _ & H).
  rewrite match_once in H. destruct s2 as [|c2 s3]; [discriminate|].
  apply andb_true_iff in H as [Hc2 H]. apply Ascii.eqb_eq in Hc2. subst c2.
  apply match_rep_sound in H as (d & s4 & -> & Hd & Hnd & _ & H).
  rewrite match_once in H. destruct s4 as [|c4 s5]; [discriminate|].
  apply andb_true_iff in H as [Hc4 H]. apply Ascii.eqb_eq in Hc4. subst c4.
  apply match_rep_sound in H as (t & s6 & -> & Ht & Hnt & _ & H).
  apply String.eqb_eq in H. subst s6. rewrite app_empty_r_string.
  exists l, d, t. split; [reflexivity|].
  rewrite (allChars_ext _ _ l mem_plain) in Hl.
  rewrite (allChars_ext _ _ d mem_plain) in Hd.
  rewrite (allChars_ext _ _ t mem_plain) in Ht.
  apply length_nonempty in Hnl, Hnd, Hnt.
  rewrite Hl, Hd, Ht, Hnl, Hnd, Hnt. auto.
Qed.

Lemma email_parts_complete (e : string) :
  (exists l d t,
     e = l +:+ "@" +:+ d +:+ "." +:+ t
     /\ emailPart l = true /\ emailPart d = true /\ emailPart t = true) ->
  isValidEmail e = true.
Proof.
  unfold isValidEmail, test, emailRegex, emailPart.
  cbn [match_terms plus once atom qmin qmax].
  intros (l & d & t & -> & Hl & Hd & Ht).
  apply andb_true_iff in Hl as [Hnl Hl], Hd as [Hnd Hd], Ht as [Hnt Ht].
  apply length_nonempty in Hnl, Hnd, Hnt.
  apply match_rep_complete; [rewrite (allChars_ext _ _ l mem_plain); exact Hl
                            |exact Hnl|exact I|].
  change ("@" +:+ d +:+ "." +:+ t) with (String "@" (d +:+ "." +:+ t)).
  rewrite match_once. cbn [mem]. rewrite Ascii.eqb_refl. cbn [andb].
  apply match_rep_complete; [rewrite (allChars_ext _ _ d mem_plain); exact Hd
                            |exact Hnd|exact I|].
  change ("." +:+ t) with (String "." t).
  rewrite match_once. cbn [mem]. rewrite Ascii.eqb_refl. cbn [andb].
  rewrite <- (app_empty_r_string t).
  apply match_rep_complete; [rewrite (allChars_ext _ _ t mem_plain); exact Ht
                            |exact Hnt|exact I|reflexivity].
Qed.

(** X4: [isValidEmail] accepts exactly the strings [l@d.t] in which [l],
    [d] and [t] are non-empty and hold neither white space nor [@]; so an
    accepted address has exactly one [@] and a dot somewhere after it with
    text on both sides. *)
Theorem isValidEmail_shape (e : string) :
  isValidEmail e = true <->
  exists l d t,
    e = l +:+ "@" +:+ d +:+ "." +:+ t
    /\ emailPart l = true /\ emailPart d = true /\ emailPart t = true.
Proof.
  split.
  - apply email_parts_sound.
  - apply email_parts_complete.
Qed.

Lemma truthy_some (o : option string) : Js.truthy o = true -> o = Some (str o).
Proof. destruct o; [reflexivity|discriminate]. Qed.

Lemma validateRequest_cases (body : MintBody) :
  (acceptable body = true -> validateRequest body = Next (normalised body))
  /\ (acceptable body = false ->
      exists r, validateRequest body = Respond r /\ code r = 400).
Proof.
  unfold acceptable, validateRequest, normalised.
  destruct (Js.truthy (email body)) eqn:Te; destruct (Js.truthy (phone body)) eqn:Tp;
    cbn [negb andb orb].
  - destruct (isValidEmail (str (email body))) eqn:Ve; cbn [negb andb].
    + destruct (isValidPhone (str (phone body))) eqn:Vp; cbn [negb].
      * split; [intros _|discriminate].
        rewrite (proj1 (valid_email_trim _ Ve)), (proj1 (valid_phone_trim _ Vp)).
        rewrite <- (truthy_some _ Tp). reflexivity.
      * split; [discriminate|]. intros _. eexists; split; reflexivity.
    + split; [discriminate|]. intros _. eexists; split; reflexivity.
  - destruct (isValidEmail (str (email body))) eqn:Ve; cbn [negb andb].
    + split; [intros _|discriminate].
      rewrite (proj1 (valid_email_trim _ Ve)). reflexivity.
    + split; [discriminate|]. intros _. eexists; split; reflexivity.
  - destruct (isValidPhone (str (phone body))) eqn:Vp; cbn [negb].
    + split; [intros _|discriminate].
      rewrite (proj1 (valid_phone_trim _ Vp)), <- (truthy_some _ Tp). reflexivity.
    + split; [discriminate|]. intros _. eexists; split; reflexivity.
  - split; [discriminate|]. intros _. eexists; split; reflexivity.
Qed.

Lemma valid_email_nonempty s : isValidEmail s = true -> nonempty s = true.
Proof. destruct s; [discriminate|reflexivity]. Qed.

Lemma valid_phone_nonempty s : isValidPhone s = true -> nonempty s = true.
Proof. destruct s; [discriminate|reflexivity]. Qed.

Lemma fieldAccepted_cases (valid : string -> bool) (f : JsonField) :
  (forall s, valid s = true -> nonempty s = true) ->
  fieldAccepted valid f ->
  (fieldTruthy f = false)
  \/ (exists s, f = Text s /\ valid s = true /\ nonempty s = true).
Proof.
  intros Hv [H|(s & -> & H)]; [left; exact H|].
  right. exists s. auto.
Qed.

Lemma fieldAccepted_dec (valid : string -> bool) (f : JsonField) :
  fieldAccepted valid f \/ ~ fieldAccepted valid f.
Proof.
  unfold fieldAccepted. destruct f as [|s|truthy text]; cbn [fieldTruthy].
  - left. left. reflexivity.
  - destruct (nonempty s); [|left; left; reflexivity].
    destruct (valid s) eqn:Hv; [left; right; eauto|].
    right. intros [H|(s' & [= <-] & H)]; congruence.
  - destruct truthy; [|left; left; reflexivity].
    right. intros [H|(s' & H & _)]; discriminate.
Qed.

Lemma fieldCoerced_dec (valid : string -> bool) (f : JsonField) :
  fieldCoerced valid f \/ ~ fieldCoerced valid f.
Proof.
  unfold fieldCoerced. destruct f as [|s|truthy text].
  - right. intros (x & H & _). discriminate.
  - right. intros (x & H & _). discriminate.
  - destruct truthy; [|right; intros (x & H & _); discriminate].
    destruct text as [t|]; [|left; exists None; auto].
    destruct (valid t) eqn:Hv; [left; exists (Some t); auto|].
    right. intros (x & [= <-] & H). congruence.
Qed.

Lemma fieldCoerced_not_accepted (valid : string -> bool) (f : JsonField) :
  fieldCoerced valid f -> ~ fieldAccepted valid f.
Proof.
  intros (x & -> & _) [H|(s & H & _)]; discriminate.
Qed.

(** What [validateJson] does with an e-mail field that is not a string. *)
Lemma validateJson_email_coerced (body : JsonBody) :
  fieldCoerced isValidEmail (json_email body) ->
  exists message, validateJson body = Errored (Err ClsTypeError message None).
Proof.
  intros (text & He & Hv). unfold validateJson. rewrite He.
  cbn [fieldTruthy negb andb fieldText].
  destruct text as [t|].
  - rewrite Hv. cbn [negb]. eexists. reflexivity.
  - eexists. reflexivity.
Qed.

(** An e-mail field that is neither accepted nor coerced is refused. *)
Lemma validateJson_email_refused (body : JsonBody) :
  ~ fieldAccepted isValidEmail (json_email body) ->
  ~ fieldCoerced isValidEmail (json_email body) ->
  validateJson body = Answered (badRequest "Invalid email format").
Proof.
  intros Hna Hnc. unfold validateJson.
  destruct (json_email body) as [|s|truthy [text|]]; cbn [fieldTruthy fieldText].
  - exfalso. apply Hna. left. reflexivity.
  - destruct (nonempty s) eqn:Hn; [|exfalso; apply Hna; left; exact Hn].
    cbn [negb andb].
    destruct (isValidEmail s) eqn:Hv; [|reflexivity].
    exfalso. apply Hna. right. eauto.
  - destruct truthy; [|exfalso; apply Hna; left; reflexivity].
    cbn [negb andb]. destruct (isValidEmail text) eqn:Hv; [|reflexivity].
    exfalso. apply Hnc. exists (Some text). auto.
  - destruct truthy; [|exfalso; apply Hna; left; reflexivity].
    exfalso. apply Hnc. exists None. auto.
Qed.

Ltac phone_cases body :=
  destruct (json_phone body) as [|sp|tp [xp|]];
  cbn [fieldTruthy fieldText fieldKept negb andb];
  [ reflexivity
  | destruct (nonempty sp); cbn [negb andb]; [|reflexivity];
    let Vp := fresh "Vp" in
    destruct (isValidPhone sp) eqn:Vp; cbn [negb]; [|reflexivity];
    rewrite (proj1 (valid_phone_trim _ Vp)); reflexivity
  | destruct tp; cbn [negb andb]; [|reflexivity];
    destruct (isValidPhone xp); reflexivity
  | destruct tp; reflexivity ].

(** What it does once the e-mail field is accepted. *)
Lemma validateJson_phone (body : JsonBody) :
  fieldAccepted isValidEmail (json_email body) ->
  validateJson body
  = if negb (fieldTruthy (json_email body)) && negb (fieldTruthy (json_phone body))
    then Answered (badRequest "Either email or phone is required")
    else if fieldTruthy (json_phone body)
    then
      match fieldText (json_phone body) with
      | Throw error => Errored error
      | Ok text =>
          if isValidPhone text
          then match json_phone body with
               | Text s =>
                   Continued
                     {| email := option_map Js.toLowerCase (fieldKept (json_email body));
                        phone := Some s |}
               | _ => Errored (Err ClsTypeError "phone.trim is not a function" None)
               end
          else Answered (badRequest
                 "Invalid phone format. Use international format (e.g. +5511999999999)")
      end
    else Continued {| email := option_map Js.toLowerCase (fieldKept (json_email body));
                      phone := fieldKept (json_phone body) |}.
Proof.
  intros He. apply (fieldAccepted_cases _ _ valid_email_nonempty) in He.
  unfold validateJson.
  destruct He as [He|(s & He & Hv & Hn)].
  - assert (Hk : option_map Js.toLowerCase (fieldKept (json_email body))
                 = fieldKept (json_email body)).
    { destruct (json_email body) as [|s|t x]; try reflexivity.
      cbn in He. apply negb_false_iff in He. apply String.eqb_eq in He. subst s.
      reflexivity. }
    rewrite Hk, He. cbn [negb andb].
    phone_cases body.
  - rewrite He. cbn [fieldTruthy fieldText fieldKept option_map].
    rewrite Hn, Hv. cbn [negb andb].
    rewrite (proj1 (valid_email_trim _ Hv)).
    phone_cases body.
Qed.

(** X5: [validateRequest] on any parsed JSON body.  It calls [next()]
    exactly when at least one field is truthy and every truthy field is a
    string that matches its pattern, and then hands on the e-mail in lower
    case and the phone as it came (the two [trim] calls never remove
    anything).  It calls [next(error)] with a [TypeError], which the error
    handler answers with status 500, exactly when the first truthy field
    that is not a string is not refused (its conversion to a string matches
    the pattern, or throws) and the field before it is accepted.  Every
    other body is answered with status 400.  On a body whose fields are
    strings or absent this is [validateRequest] as modelled above. *)
Theorem validateRequest_verdict (cfg : ServerConfig) (body : JsonBody) :
  let accepted :=
    (fieldTruthy (json_email body) || fieldTruthy (json_phone body) = true)
    /\ fieldAccepted isValidEmail (json_email body)
    /\ fieldAccepted isValidPhone (json_phone body) in
  let coerced :=
    fieldCoerced isValidEmail (json_email body)
    \/ (fieldAccepted isValidEmail (json_email body)
        /\ fieldCoerced isValidPhone (json_phone body)) in
  (accepted ->
     validateJson body
     = Continued {| email := option_map Js.toLowerCase (fieldKept (json_email body));
                    phone := fieldKept (json_phone body) |})
  /\ (forall body1, validateJson body = Continued body1 -> accepted)
  /\ (coerced ->
      exists message,
        validateJson body = Errored (Err ClsTypeError message None)
        /\ errorHandler cfg (Err ClsTypeError message None)
           = {| page_code := 500;
                page_error := "Internal server error";
                page_message := if development cfg then Some message else None;
                page_stack := development cfg |})
  /\ (forall error, validateJson body = Errored error -> coerced)
  /\ (forall r, validateJson body = Answered r -> code r = 400)
  /\ (forall typed : MintBody,
        body = asJson typed ->
        validateJson body
        = match validateRequest typed with
          | Respond r => Answered r
          | Next body1 => Continued body1
          end).
Proof.
  cbv zeta.
  assert (Hpage : forall message,
            errorHandler cfg (Err ClsTypeError message None)
            = {| page_code := 500;
                 page_error := "Internal server error";
                 page_message := if development cfg then Some message else None;
                 page_stack := development cfg |}).
  { intros message. unfold errorHandler. cbn [isError]. rewrite andb_true_r.
    reflexivity. }
  destruct (fieldAccepted_dec isValidEmail (json_email body)) as [He|He].
  - pose proof (validateJson_phone body He) as Hrun.
    split; [|split; [|split; [|split; [|split]]]].
    + intros (Ht & _ & Hp). rewrite Hrun.
      apply orb_true_iff in Ht.
      apply (fieldAccepted_cases _ _ valid_phone_nonempty) in Hp.
      destruct Hp as [Hp|(s & Hp & Hv & Hn)].
      * rewrite Hp. destruct Ht as [Ht|Ht]; [|congruence]. rewrite Ht. reflexivity.
      * rewrite Hp. cbn [fieldTruthy fieldText fieldKept]. rewrite Hn, Hv.
        rewrite andb_false_r. reflexivity.
    + intros body1. rewrite Hrun.
      destruct (json_phone body) as [|sp|tp [xp|]] eqn:Ep;
        cbn [fieldTruthy fieldText].
      * rewrite andb_true_r.
        destruct (fieldTruthy (json_email body)) eqn:Te; cbn [negb]; [|discriminate].
        intros _. repeat split; auto. left. reflexivity.
      * destruct (nonempty sp) eqn:Hn.
        -- rewrite andb_false_r.
           destruct (isValidPhone sp) eqn:Vp; [|discriminate].
           intros _. split; [apply orb_true_r|]. split; [exact He|]. right. eauto.
        -- rewrite andb_true_r.
           destruct (fieldTruthy (json_email body)) eqn:Te; cbn [negb]; [|discriminate].
           intros _. repeat split; auto. left. exact Hn.
      * destruct tp.
        -- rewrite andb_false_r. destruct (isValidPhone xp); discriminate.
        -- rewrite andb_true_r.
           destruct (fieldTruthy (json_email body)) eqn:Te; cbn [negb]; [|discriminate].
           intros _. repeat split; auto. left. reflexivity.
      * destruct tp.
        -- rewrite andb_false_r. discriminate.
        -- rewrite andb_true_r.
           destruct (fieldTruthy (json_email body)) eqn:Te; cbn [negb]; [|discriminate].
           intros _. repeat split; auto. left. reflexivity.
    + intros [Hc|[_ (text & Hp & Hv)]].
      { exfalso. exact (fieldCoerced_not_accepted _ _ Hc He). }
      rewrite Hrun, Hp. cbn [fieldTruthy fieldText]. rewrite andb_false_r.
      destruct text as [t|].
      * rewrite Hv. eexists. split; [reflexivity|apply Hpage].
      * eexists. split; [reflexivity|apply Hpage].
    + intros error. rewrite Hrun.
      destruct (json_phone body) as [|sp|tp [xp|]] eqn:Ep;
        cbn [fieldTruthy fieldText].
      * destruct (negb (fieldTruthy (json_email body)) && negb false); discriminate.
      * destruct (negb (fieldTruthy (json_email body)) && negb (nonempty sp));
          [discriminate|].
        destruct (nonempty sp); [|discriminate].
        destruct (isValidPhone sp); discriminate.
      * destruct (negb (fieldTruthy (json_email body)) && negb tp); [discriminate|].
        destruct tp; [|discriminate].
        destruct (isValidPhone xp) eqn:Vp; [|discriminate].
        intros _. right. split; [exact He|]. exists (Some xp). auto.
      * destruct (negb (fieldTruthy (json_email body)) && negb tp); [discriminate|].
        destruct tp; [|discriminate].
        intros _. right. split; [exact He|]. exists None. auto.
    + intros r. rewrite Hrun.
      destruct (negb (fieldTruthy (json_email body)) && negb (fieldTruthy (json_phone body)));
        [intros [= <-]; reflexivity|].
      destruct (fieldTruthy (json_phone body)); [|discriminate].
      destruct (fieldText (json_phone body)) as [text|error]; [|discriminate].
      destruct (isValidPhone text); [|intros [= <-]; reflexivity].
      destruct (json_phone body); discriminate.
    + intros typed ->. unfold validateJson, validateRequest, asJson.
      cbn [json_email json_phone].
      destruct (email typed) as [se|]; destruct (phone typed) as [sp|];
        cbn [fieldTruthy fieldText fieldKept Js.truthy str negb andb];
        unfold nonempty;
        repeat match goal with
               | |- context [String.eqb ?x ""] => destruct (String.eqb x "")
               | |- context [isValidEmail ?x] => destruct (isValidEmail x)
               | |- context [isValidPhone ?x] => destruct (isValidPhone x)
               | _ => progress cbn [negb andb]
               end; reflexivity.
  - destruct (fieldCoerced_dec isValidEmail (json_email body)) as [Hc|Hc].
    + destruct (validateJson_email_coerced body Hc) as [message Hrun].
      split; [|split; [|split; [|split; [|split]]]].
      * intros (_ & Hacc & _). contradiction.
      * intros body1. rewrite Hrun. discriminate.
      * intros _. exists message. split; [exact Hrun|apply Hpage].
      * intros _ _. left. exact Hc.
      * intros r. rewrite Hrun. discriminate.
      * intros typed ->. exfalso. destruct Hc as (text & Hc & _).
        unfold asJson in Hc. cbn in Hc. destruct (email typed); discriminate.
    + pose proof (validateJson_email_refused body He Hc) as Hrun.
      split; [|split; [|split; [|split; [|split]]]].
      * intros (_ & Hacc & _). contradiction.
      * intros body1. rewrite Hrun. discriminate.
      * intros [H|[H _]]; contradiction.
      * intros error. rewrite Hrun. discriminate.
      * intros r. rewrite Hrun. intros [= <-]. reflexivity.
      * intros typed Hb. rewrite Hrun.
        rewrite Hb in He. unfold asJson in He. cbn [json_email] in He.
        unfold validateRequest.
        destruct (email typed) as [se|]; [|exfalso; apply He; left; reflexivity].
        cbn [Js.truthy str]. fold (nonempty se).
        destruct (nonempty se) eqn:Hn; [|exfalso; apply He; left; exact Hn].
        cbn [negb andb].
        destruct (isValidEmail se) eqn:Hv; [exfalso; apply He; right; eauto|].
        reflexivity.
Qed.

Lemma validateRequest_verdict_witness :
  validateJson {| json_email := Text "A@b.co"; json_phone := Text "+5511999999999" |}
    = Continued {| email := Some "a@b.co"; phone := Some "+5511999999999" |}
  /\ exists message,
       validateJson {| json_email := Other true (Some "a@b.co"); json_phone := Absent |}
       = Errored (Err ClsTypeError message None)
       /\ errorHandler defaultConfig (Err ClsTypeError message None)
          = {| page_code := 500;
               page_error := "Internal server error";
               page_message := None;
               page_stack := false |}.
Proof.
  split.
  - apply (proj1 (validateRequest_verdict defaultConfig
                    {| json_email := Text "A@b.co";
                       json_phone := Text "+5511999999999" |})).
    split; [reflexivity|]. split; right; eexists; split; reflexivity.
  - apply (proj1 (proj2 (proj2 (validateRequest_verdict defaultConfig
                    {| json_email := Other true (Some "a@b.co");
                       json_phone := Absent |})))).
    left. exists (Some "a@b.co"). split; reflexivity.
Defined.

Lemma lowerChar_idem c : Js.lowerChar (Js.lowerChar c) = Js.lowerChar c.
Proof.
  pattern c; apply ascii_cases; intros [] [] [] [] [] [] [] []; vm_compute; reflexivity.
Qed.

Lemma lowerChar_plain c : plainChar (Js.lowerChar c) = plainChar c.
Proof.
  pattern c; apply ascii_cases; intros [] [] [] [] [] [] [] []; vm_compute; reflexivity.
Qed.

Lemma toLowerCase_idem s : Js.toLowerCase (Js.toLowerCase s) = Js.toLowerCase s.
Proof.
  induction s as [|c s IH]; [reflexivity|].
  cbn [Js.toLowerCase]. rewrite lowerChar_idem, IH. reflexivity.
Qed.

Lemma toLowerCase_app a b :
  Js.toLowerCase (a +:+ b) = Js.toLowerCase a +:+ Js.toLowerCase b.
Proof.
  induction a as [|c a IH]; [reflexivity|].
  change (String (Js.lowerChar c) (Js.toLowerCase (a +:+ b))
          = String (Js.lowerChar c) (Js.toLowerCase a +:+ Js.toLowerCase b)).
  f_equal. exact IH.
Qed.

Lemma toLowerCase_part s : emailPart s = true -> emailPart (Js.toLowerCase s) = true.
Proof.
  unfold emailPart. intros H. apply andb_true_iff in H as [Hn Ha].
  rewrite (toLowerCase_nonempty _ Hn). cbn [andb].
  clear Hn. induction s as [|c s IH]; [reflexivity|].
  cbn [allChars Js.toLowerCase] in *. apply andb_true_iff in Ha as [Hc Ha].
  rewrite lowerChar_plain, Hc, (IH Ha). reflexivity.
Qed.

Lemma toLowerCase_valid e : isValidEmail e = true -> isValidEmail (Js.toLowerCase e) = true.
Proof.
  intros H. apply email_parts_sound in H as (l & d & t & -> & Hl & Hd & Ht).
  apply email_parts_complete.
  exists (Js.toLowerCase l), (Js.toLowerCase d), (Js.toLowerCase t).
  rewrite !toLowerCase_app. split; [reflexivity|].
  auto using toLowerCase_part.
Qed.

(** X6: normalisation is idempotent: a body that [validateRequest] has let
    through passes again and comes out unchanged. *)
Theorem validateRequest_idempotent (body body1 : MintBody) :
  validateRequest body = Next body1 -> validateRequest body1 = Next body1.
Proof.
  intros H.
  destruct (acceptable body) eqn:A.
  - rewrite (proj1 (validateRequest_cases body) A) in H. injection H as <-.
    assert (A1 : acceptable (normalised body) = true).
    { unfold acceptable, normalised in *. cbn [email phone].
      destruct (Js.truthy (email body)) eqn:Te; [|rewrite Te; exact A].
      cbn [negb orb andb] in A. apply andb_true_iff in A as [Ve Vp].
      assert (Hn : Js.truthy (Some (Js.toLowerCase (str (email body)))) = true).
      { apply toLowerCase_nonempty. destruct (email body) as [[|]|]; try discriminate.
        reflexivity. }
      rewrite Hn. cbn [negb orb andb str].
      rewrite (toLowerCase_valid _ Ve). exact Vp. }
    rewrite (proj1 (validateRequest_cases _) A1).
    unfold normalised. cbn [email phone]. f_equal.
    destruct (Js.truthy (email body)) eqn:Te; [|rewrite Te; destruct body; reflexivity].
    assert (Hn : Js.truthy (Some (Js.toLowerCase (str (email body)))) = true).
    { apply toLowerCase_nonempty. destruct (email body) as [[|]|]; try discriminate.
      reflexivity. }
    rewrite Hn. cbn [str]. rewrite toLowerCase_idem. reflexivity.
  - destruct (proj2 (validateRequest_cases body) A) as (r & Hr & _). congruence.
Qed.

Lemma validateRequest_idempotent_witness :
  validateRequest {| email := Some "user@example.com"; phone := None |}
  = Next {| email := Some "user@example.com"; phone := None |}.
Proof.
  apply (validateRequest_idempotent {| email := Some "User@Example.com"; phone := None |}).
  reflexivity.
Defined.

(* ===================================================================== *)
(** ** The outer loop of performMint                                       *)
(* ===================================================================== *)

Section MintLoopFacts.

Context `{X : Env} (K : Constants) (cfg : ServerConfig).
Variables (identifier : string) (identifierType : PregenIdentifierType).

Lemma performMint_loop_step remaining attempt lastError w :
  performMint_loop K cfg identifier identifierType (S remaining) attempt lastError w =
  match mintOnce K identifier identifierType w with
  | (Ok r, w1, tr) => (Ok r, w1, tr)
  | (Throw error, w1, tr) =>
      if attempt <? MAX_RETRIES cfg - 1 then
        let ms := INITIAL_RETRY_DELAY cfg * 2 ^ attempt in
        match performMint_loop K cfg identifier identifierType remaining
                (attempt + 1) (Some (asError error)) (sleep ms w1) with
        | (r, w2, tr2) => (r, w2, tr ++ EvSleep ms :: tr2)
        end
      else
        match performMint_loop K cfg identifier identifierType remaining
                (attempt + 1) (Some (asError error)) w1 with
        | (r, w2, tr2) => (r, w2, tr ++ tr2)
        end
  end.
Proof.
  cbn [performMint_loop]. unfold try_catch.
  destruct (mintOnce K identifier identifierType w) as [[[r|error] w1] tr]; [reflexivity|].
  unfold bind, asError.
  destruct (attempt <? MAX_RETRIES cfg - 1); unfold delay, ret; cbv zeta.
  - destruct (performMint_loop _ _ _ _ _ _ _ _) as [[r w2] tr2]. reflexivity.
  - destruct (performMint_loop _ _ _ _ _ _ _ _) as [[r w2] tr2]. reflexivity.
Qed.

Lemma performMint_loop_nth k :
  forall remaining attempt lastError w r w' tr,
    Z.of_nat remaining = MAX_RETRIES cfg - attempt ->
    nth_pass K cfg identifier identifierType k attempt w = Some (r, w', tr) ->
    match r with
    | Ok _ => (k < remaining)%nat
    | Throw _ => S k = remaining
    end ->
    performMint_loop K cfg identifier identifierType remaining attempt lastError w
    = (match r with Ok v => Ok v | Throw e => Throw (asError e) end, w', tr).
Proof.
  induction k as [|k IH]; intros remaining attempt lastError w r w' tr Hstep Hnth Hr.
  - cbn [nth_pass] in Hnth. injection Hnth as Hnth.
    destruct remaining as [|remaining]; [destruct r; lia|].
    rewrite performMint_loop_step, Hnth.
    destruct r as [v|e]; [reflexivity|].
    injection Hr as <-.
    destruct (Z.ltb_spec attempt (MAX_RETRIES cfg - 1)); [lia|].
    cbn. rewrite app_nil_r. reflexivity.
  - cbn [nth_pass] in Hnth.
    destruct remaining as [|remaining]; [destruct r; lia|].
    rewrite performMint_loop_step.
    destruct (mintOnce K identifier identifierType w) as [[[v|error] w1] tr0];
      [discriminate|].
    destruct (Z.ltb_spec attempt (MAX_RETRIES cfg - 1)); [|destruct r; lia].
    cbv zeta in *.
    destruct (nth_pass _ _ _ _ _ _ _) as [[[r1 w2] tr1]|] eqn:E; [|discriminate].
    injection Hnth as -> -> <-.
    rewrite (IH remaining (attempt + 1) (Some (asError error)) _ r w' tr1);
      [reflexivity|lia|exact E|destruct r; lia].
Qed.

End MintLoopFacts.

(** X7: the outer loop of [performMint].  If the first [k] passes of the
    workflow fail and the next one succeeds, with [k < MAX_RETRIES], that
    result is returned; failed pass [i] is followed by a wait of
    [INITIAL_RETRY_DELAY * 2^i] and nothing else.  If all [MAX_RETRIES]
    passes fail, the failure of the last pass is thrown without a further
    wait (wrapped as [Error('Unknown error')] when it is not an [Error]).
    With [MAX_RETRIES < 1] the workflow is not run at all and
    [Error('Max retries exceeded')] is thrown; without an identifier
    [Error('No identifier provided')] is. *)
Theorem performMint_passes `{X : Env} (K : Constants) (cfg : ServerConfig)
    (body : MintBody) (w : W) :
  let identifier := str (Js.or_else (email body) (phone body)) in
  let identifierType := if Js.truthy (email body) then EMAIL else PHONE in
  (Js.truthy (Js.or_else (email body) (phone body)) = false ->
     performMint K cfg body w
     = (Throw (Err ClsError "No identifier provided" None), w, []))
  /\
  (Js.truthy (Js.or_else (email body) (phone body)) = true ->
     (forall k r w' tr,
        nth_pass K cfg identifier identifierType k 0 w = Some (Ok r, w', tr) ->
        Z.of_nat k < MAX_RETRIES cfg ->
        performMint K cfg body w = (Ok r, w', tr))
     /\
     (forall n e w' tr,
        nth_pass K cfg identifier identifierType n 0 w = Some (Throw e, w', tr) ->
        MAX_RETRIES cfg = Z.of_nat (S n) ->
        performMint K cfg body w = (Throw (asError e), w', tr))
     /\
     (MAX_RETRIES cfg < 1 ->
        performMint K cfg body w
        = (Throw (Err ClsError "Max retries exceeded" None), w, []))).
Proof.
  cbv zeta. split; [|split; [|split]].
  - intros H. unfold performMint. rewrite H. reflexivity.
  - intros k r w' tr Hnth Hk. unfold performMint. rewrite H. cbn [negb].
    apply (performMint_loop_nth K cfg _ _ k (Z.to_nat (MAX_RETRIES cfg)) 0 None
             w (Ok r) w' tr); [lia|exact Hnth|lia].
  - intros n e w' tr Hnth Hmax. unfold performMint. rewrite H. cbn [negb].
    apply (performMint_loop_nth K cfg _ _ n (Z.to_nat (MAX_RETRIES cfg)) 0 None
             w (Throw e) w' tr); [lia|exact Hnth|lia].
  - intros Hmax. unfold performMint. rewrite H. cbn [negb].
    replace (Z.to_nat (MAX_RETRIES cfg)) with O by lia. reflexivity.
Qed.

Lemma performMint_passes_witness :
  exists w' tr,
    performMint (X:=Demo.env) Demo.constants defaultConfig
      {| email := Some "a@b.co"; phone := None |} Demo.worldDown
    = (Throw (Err ClsError "relay unavailable" None), w', tr)
    /\ sleeps tr = [1000; 2000].
Proof.
  destruct (nth_pass (X:=Demo.env) Demo.constants defaultConfig "a@b.co" EMAIL 2 0
              Demo.worldDown) as [[[r w'] tr]|] eqn:E; [|discriminate].
  vm_compute in E. injection E as <- <- <-.
  eexists _, _. split.
  - apply (proj1 (proj2 (proj2 (performMint_passes (X:=Demo.env) Demo.constants
                                  defaultConfig
                                  {| email := Some "a@b.co"; phone := None |}
                                  Demo.worldDown) eq_refl))
             2%nat (Err ClsError "relay unavailable" None)); reflexivity.
  - reflexivity.
Defined.

(* ===================================================================== *)
(** ** What the client functions throw                                     *)
(* ===================================================================== *)

Section ThrowFacts.

Context `{X : Env} (K : Constants).

Lemma bind_throw {A B} (m : M (W:=W) A) (f : A -> M (W:=W) B) w e w' tr :
  bind m f w = (Throw e, w', tr) ->
  (exists tr1, m w = (Throw e, w', tr1))
  \/ (exists a w1 tr1 tr2, m w = (Ok a, w1, tr1) /\ f a w1 = (Throw e, w', tr2)).
Proof.
  unfold bind. destruct (m w) as [[[a|e0] w1] tr1].
  - destruct (f a w1) as [[r w2] tr2] eqn:E. intros [= -> <- _].
    right. exists a, w1, tr1, tr2. auto.
  - intros [= <- <- _]. left. eauto.
Qed.

Lemma initializeCapsule_throws w e w' tr :
  initializeCapsule K w = (Throw e, w', tr) -> exists cause, e = initFailed cause.
Proof. unfold initializeCapsule. apply (try_catch_wraps _ initFailed). Qed.

Lemma customSignMessage_throws capsule message w e w' tr :
  customSignMessage capsule message w = (Throw e, w', tr) ->
  exists cause, e = signingFailed cause.
Proof. unfold customSignMessage. apply (try_catch_wraps _ signingFailed). Qed.

Lemma createViemClient_throws capsule w e w' tr :
  createViemClient K capsule w = (Throw e, w', tr) -> isWalletOperationError e = true.
Proof.
  unfold createViemClient. destruct (capsule_wallets capsule w).
  - intros H.
    apply (try_catch_wraps _ (fun error => Err ClientsWalletOperationError
                                "Failed to create Viem client" (Some error)))
      in H as [cause ->].
    reflexivity.
  - unfold throw. intros [= <- _ _]. reflexivity.
Qed.

Lemma createAlchemyClient_throws viemClient w e w' tr :
  createAlchemyClient K viemClient w = (Throw e, w', tr) ->
  isWalletOperationError e = true.
Proof.
  unfold createAlchemyClient. intros H.
  apply (try_catch_wraps _ (fun error => Err ClientsWalletOperationError
                              "Failed to create Alchemy client" (Some error)))
    in H as [cause ->].
  reflexivity.
Qed.

Lemma walletOperationError_notServer e :
  isWalletOperationError e = true -> notServerError e = true.
Proof. destruct e as [[] ? ?| | |]; cbn; intros; try discriminate; reflexivity. Qed.

Lemma createOrGetPregenWallet_notServer capsule identifier identifierType w e w' tr :
  createOrGetPregenWallet capsule identifier identifierType w = (Throw e, w', tr) ->
  notServerError e = true.
Proof.
  intros H. apply createOrGetPregenWallet_throws in H
    as [-> | [(cause & _ & _ & ->) | [-> | ->]]]; reflexivity.
Qed.

End ThrowFacts.

(** X8: what the client functions throw.  Connecting throws
    [CapsuleInitializationError('Failed to initialize Capsule')] around the
    cause, signing throws [SigningError('Message signing failed')] around the
    cause, building the viem client and building the account client throw a
    [WalletOperationError].  Provisioning throws
    [WalletOperationError('Invalid identifier or identifier type')], or
    [WalletOperationError('Wallet operation failed')] around a cause that is
    neither [undefined] nor [null], or, when what its [catch] block caught is
    [undefined] or [null], the [TypeError] of reading [err.name]. *)
Theorem client_error_classes `{X : Env} (K : Constants) (capsule : Capsule)
    (identifier message : string) (identifierType : PregenIdentifierType)
    (viemClient : WalletClient W ViemBase) (w w' : W) (e : exn) (tr : list event) :
  (initializeCapsule K w = (Throw e, w', tr) ->
   exists cause,
     e = Err ClientsCapsuleInitializationError "Failed to initialize Capsule" (Some cause))
  /\ (customSignMessage capsule message w = (Throw e, w', tr) ->
      exists cause, e = Err ClientsSigningError "Message signing failed" (Some cause))
  /\ (createOrGetPregenWallet capsule identifier identifierType w = (Throw e, w', tr) ->
      e = Err ClientsWalletOperationError "Invalid identifier or identifier type" None
      \/ (exists cause,
            cause <> Undefined /\ cause <> Null
            /\ e = Err ClientsWalletOperationError "Wallet operation failed" (Some cause))
      \/ e = Err ClsTypeError "Cannot read properties of undefined (reading 'name')" None
      \/ e = Err ClsTypeError "Cannot read properties of null (reading 'name')" None)
  /\ (createViemClient K capsule w = (Throw e, w', tr) ->
      exists msg cause, e = Err ClientsWalletOperationError msg cause)
  /\ (createAlchemyClient K viemClient w = (Throw e, w', tr) ->
      exists msg cause, e = Err ClientsWalletOperationError msg cause).
Proof.
  repeat split.
  - apply initializeCapsule_throws.
  - apply customSignMessage_throws.
  - apply createOrGetPregenWallet_throws.
  - intros H. apply createViemClient_throws in H.
    destruct e as [[] msg cause| | |]; try discriminate. eauto.
  - intros H. apply createAlchemyClient_throws in H.
    destruct e as [[] msg cause| | |]; try discriminate. eauto.
Qed.

Lemma client_error_classes_witness :
  (exists cause,
     Err ClientsSigningError "Message signing failed"
       (Some (Err ClsError "signer unavailable" None))
     = Err ClientsSigningError "Message signing failed" (Some cause))
  /\ (Err ClsTypeError "Cannot read properties of undefined (reading 'name')" None
      = Err ClientsWalletOperationError "Invalid identifier or identifier type" None
      \/ (exists cause,
            cause <> Undefined /\ cause <> Null
            /\ Err ClsTypeError "Cannot read properties of undefined (reading 'name')" None
               = Err ClientsWalletOperationError "Wallet operation failed" (Some cause))
      \/ Err ClsTypeError "Cannot read properties of undefined (reading 'name')" None
         = Err ClsTypeError "Cannot read properties of undefined (reading 'name')" None
      \/ Err ClsTypeError "Cannot read properties of undefined (reading 'name')" None
         = Err ClsTypeError "Cannot read properties of null (reading 'name')" None).
Proof.
  split.
  - apply (proj1 (proj2 (client_error_classes (X:=Demo.env) Demo.constants tt
                           "user@example.com" "hello" EMAIL
                           {| viem_base := tt;
                              signMessage := customSignMessage (X:=Demo.env) tt |}
                           {| Demo.time := 0; Demo.pending := 3; Demo.relayDown := false |}
                           {| Demo.time := 2000; Demo.pending := 0; Demo.relayDown := false |}
                           (Err ClientsSigningError "Message signing failed"
                              (Some (Err ClsError "signer unavailable" None)))
                           [EvAttempt 1 [EvCall (SignMessage "w-1" "hello")];
                            EvSleep 1000;
                            EvAttempt 2 [EvCall (SignMessage "w-1" "hello")];
                            EvSleep 1000;
                            EvAttempt 3 [EvCall (SignMessage "w-1" "hello")]]))).
    reflexivity.
  - apply (proj1 (proj2 (proj2 (client_error_classes (X:=DemoReject.env) Demo.constants tt
                           "user@example.com" "hello" EMAIL
                           {| viem_base := tt;
                              signMessage := customSignMessage (X:=DemoReject.env) tt |}
                           {| Demo.time := 0; Demo.pending := 0; Demo.relayDown := false |}
                           {| Demo.time := 2000; Demo.pending := 0; Demo.relayDown := false |}
                           (Err ClsTypeError
                              "Cannot read properties of undefined (reading 'name')" None)
                           [EvAttempt 1 [EvCall (HasPregenWallet "user@example.com" EMAIL)];
                            EvSleep 1000;
                            EvAttempt 2 [EvCall (HasPregenWallet "user@example.com" EMAIL)];
                            EvSleep 1000;
                            EvAttempt 3 [EvCall (HasPregenWallet "user@example.com" EMAIL)]])))).
    reflexivity.
Defined.

(* ===================================================================== *)
(** ** How a failed mint is answered                                       *)
(* ===================================================================== *)

Section MintFailureFacts.

Context `{X : Env} (K : Constants) (cfg : ServerConfig).

(** The relay throws nothing that is an instance of a class private to
    [server.ts]. *)
Hypothesis relay_foreign :
  forall client target data w,
    foreignRelay (fst (sendUserOperation client target data w)).

Lemma runRelay_throws (sign : string -> M (W:=W) string) :
  (forall message w e w' tr,
     sign message w = (Throw e, w', tr) -> notServerError e = true) ->
  forall r, foreignRelay r ->
  forall w e w' tr, runRelay sign r w = (Throw e, w', tr) -> notServerError e = true.
Proof.
  intros Hsign. fix IH 1. intros [res|message next]; cbn [runRelay foreignRelay].
  - intros Hr w e w' tr [= -> _ _]. exact Hr.
  - intros Hr w e w' tr.
    destruct (sign message w) as [[signed w1] tr1] eqn:Es.
    assert (Hsigned : match signed with
                      | Ok _ => True
                      | Throw e0 => notServerError e0 = true
                      end).
    { destruct signed as [v|e0]; [exact I|]. eapply Hsign; eauto. }
    specialize (Hr signed w1 Hsigned). revert Hr.
    destruct (next signed w1) as [r' w2]. intros Hr.
    destruct (runRelay sign r' w2) as [[res w3] tr2] eqn:Er.
    intros [= -> _ _]. exact (IH r' Hr w2 e w3 tr2 Er).
Qed.

Lemma mintOnce_throws identifier identifierType w e w' tr :
  mintOnce K identifier identifierType w = (Throw e, w', tr) -> notServerError e = true.
Proof.
  unfold mintOnce. intros H.
  apply bind_throw in H as [[tr1 H]|(capsule & w1 & tr1 & tr2 & _ & H)].
  { apply initializeCapsule_throws in H as [cause ->]. reflexivity. }
  apply bind_throw in H as [[tr3 H]|(wallet & w2 & tr3 & tr4 & _ & H)].
  { eapply createOrGetPregenWallet_notServer; eauto. }
  destruct (negb (Js.truthy (wallet_address wallet))).
  { unfold throw in H. injection H as <- _ _. reflexivity. }
  apply bind_throw in H as [[tr5 H]|(viem & w3 & tr5 & tr6 & Hviem & H)].
  { apply walletOperationError_notServer. eapply createViemClient_throws; eauto. }
  apply bind_throw in H as [[tr7 H]|(alchemy & w4 & tr7 & tr8 & _ & H)].
  { apply walletOperationError_notServer. eapply createAlchemyClient_throws; eauto. }
  destruct (encodeFunctionData _ _) as [data|message].
  - apply bind_throw in H as [[tr9 H]|(r & w5 & tr9 & tr10 & _ & H)]; [|discriminate].
    unfold sendOperation in H.
    pose proof (relay_foreign alchemy NFT_CONTRACT_ADDRESS data w4) as Hr. revert Hr.
    destruct (sendUserOperation _ _ _ _) as [r w5]. cbn [fst]. intros Hr.
    destruct (runRelay _ r w5) as [[res w6] tr10] eqn:Er.
    injection H as -> _ _.
    refine (runRelay_throws _ _ r Hr _ _ _ _ Er).
    intros message w0 e0 w0' tr0. rewrite (createViemClient_signer _ _ _ _ _ _ Hviem).
    intros Hs. apply customSignMessage_throws in Hs as [cause ->]. reflexivity.
  - unfold throw in H. injection H as <- _ _. reflexivity.
Qed.

Lemma asError_notServer e : notServerError e = true -> notServerError (asError e) = true.
Proof. unfold asError. destruct (isError e); auto. Qed.

Lemma performMint_loop_throws identifier identifierType remaining :
  forall attempt lastError w e w' tr,
    match lastError with Some e0 => notServerError e0 = true | None => True end ->
    performMint_loop K cfg identifier identifierType remaining attempt lastError w
      = (Throw e, w', tr) ->
    notServerError e = true.
Proof.
  induction remaining as [|remaining IH]; intros attempt lastError w e w' tr Hlast H.
  - cbn [performMint_loop] in H. unfold throw in H. injection H as <- _ _.
    destruct lastError; [exact Hlast|reflexivity].
  - rewrite performMint_loop_step in H.
    destruct (mintOnce K identifier identifierType w) as [[[r|error] w1] tr0] eqn:E;
      [discriminate|].
    apply mintOnce_throws in E.
    destruct (attempt <? MAX_RETRIES cfg - 1); cbv zeta in H;
      destruct (performMint_loop _ _ _ _ _ _ _ _) as [[r w2] tr2] eqn:E2;
      injection H as -> _ _;
      exact (IH _ (Some (asError error)) _ _ _ _ (asError_notServer _ E) E2).
Qed.

Lemma performMint_throws body w e w' tr :
  performMint K cfg body w = (Throw e, w', tr) -> notServerError e = true.
Proof.
  unfold performMint.
  destruct (negb (Js.truthy (Js.or_else (email body) (phone body)))).
  - unfold throw. intros [= <- _ _]. reflexivity.
  - apply performMint_loop_throws. exact I.
Qed.

End MintFailureFacts.

(** X9: the two [instanceof] branches of the handler's [catch] block are
    never taken for what the workflow throws.  The classes they test are
    declared in [server.ts]; the errors of [clients.ts] are instances of its
    own classes of the same names.  So, provided the relay throws no instance
    of the [server.ts] classes (however many signatures it asks for, and
    whether or not it passes on what the signer throws), every failed mint,
    a wallet or connection failure included, is answered with status 500 and
    "Failed to mint NFT", and exactly one failure is recorded in the
    breaker. *)
Theorem mint_failure_is_generic `{X : Env} (K : Constants) (cfg : ServerConfig)
    (body : MintBody) (ss : ServerState) (w w1 w2 : W) (capsule : Capsule)
    (e : exn) (tr1 tr2 : list event) :
  (forall client target data w0,
     foreignRelay (fst (sendUserOperation client target data w0))) ->
  initializeCapsule K w = (Ok capsule, w1, tr1) ->
  performMint K cfg body w1 = (Throw e, w2, tr2) ->
  mintHandler K cfg body ss w
  = (mintFailedResponse cfg e,
     with_breaker ss (recordFailure cfg (clock w2) (circuitBreaker ss)),
     w2, tr1 ++ tr2).
Proof.
  intros Hrelay Hinit Hmint.
  pose proof (performMint_throws K cfg Hrelay _ _ _ _ _ Hmint) as Hforeign.
  unfold mintHandler. rewrite Hinit, Hmint.
  unfold mintFailure, mintFailedResponse, errorMessage.
  unfold notServerError in Hforeign. apply andb_true_iff in Hforeign as [H1 H2].
  apply negb_true_iff in H1, H2. rewrite H1, H2. reflexivity.
Qed.

Lemma mint_failure_is_generic_witness :
  exists ss' w' tr,
    mintHandler (X:=Demo.env) Demo.constants defaultConfig
      {| email := Some "a@b.co"; phone := None |} Demo.fresh Demo.worldDown
    = (mintFailedResponse defaultConfig (Err ClsError "relay unavailable" None),
       ss', w', tr)
    /\ failures (circuitBreaker ss') = 1.
Proof.
  eexists _, _, _. split.
  - apply (mint_failure_is_generic (X:=Demo.env) Demo.constants defaultConfig
             {| email := Some "a@b.co"; phone := None |} Demo.fresh
             Demo.worldDown Demo.worldDown _ tt).
    + intros client target data w0. cbn. destruct (Demo.relayDown w0); cbn.
      * reflexivity.
      * intros signed w0' Hsigned. destruct signed as [v|e0]; [exact I|exact Hsigned].
    + vm_compute. reflexivity.
    + vm_compute. reflexivity.
  - reflexivity.
Defined.

(* ===================================================================== *)
(** ** The shared state across requests                                    *)
(* ===================================================================== *)

Section StateFacts.

Context `{X : Env} (K : Constants) (cfg : ServerConfig).

Lemma bind_ok {A B} (m : M (W:=W) A) (f : A -> M (W:=W) B) w b w' tr :
  bind m f w = (Ok b, w', tr) ->
  exists a w1 tr1 tr2,
    m w = (Ok a, w1, tr1) /\ f a w1 = (Ok b, w', tr2) /\ tr = tr1 ++ tr2.
Proof.
  unfold bind. destruct (m w) as [[[a|e0] w1] tr1]; [|discriminate].
  destruct (f a w1) as [[r w2] tr2] eqn:E. intros [= -> <- <-].
  exists a, w1, tr1, tr2. auto.
Qed.

Lemma mintOnce_ok id ty w r w' tr :
  mintOnce K id ty w = (Ok r, w', tr) ->
  status r = "success" /\ identifier r = id /\ identifierType r = ty
  /\ walletAddress r <> "".
Proof.
  unfold mintOnce. intros H.
  apply bind_ok in H as (capsule & w1 & tr1 & tr2 & _ & H & _).
  apply bind_ok in H as (wallet & w2 & tr3 & tr4 & _ & H & _).
  destruct (Js.truthy (wallet_address wallet)) eqn:Ta; cbn [negb] in H; [|discriminate].
  apply bind_ok in H as (viem & w3 & tr5 & tr6 & _ & H & _).
  apply bind_ok in H as (alchemy & w4 & tr7 & tr8 & _ & H & _).
  destruct (encodeFunctionData _ _) as [data|message]; [|discriminate].
  apply bind_ok in H as (res & w5 & tr9 & tr10 & _ & H & _).
  unfold ret in H. injection H as <- _ _. cbn.
  repeat split; auto.
  destruct (wallet_address wallet) as [a|]; [|discriminate].
  cbn in *. intros ->. discriminate.
Qed.

Lemma performMint_loop_ok id ty remaining :
  forall attempt lastError w r w' tr,
    performMint_loop K cfg id ty remaining attempt lastError w = (Ok r, w', tr) ->
    status r = "success" /\ identifier r = id /\ identifierType r = ty
    /\ walletAddress r <> "".
Proof.
  induction remaining as [|remaining IH]; intros attempt lastError w r w' tr H.
  - cbn [performMint_loop] in H. discriminate.
  - rewrite performMint_loop_step in H.
    destruct (mintOnce K id ty w) as [[[r0|error] w1] tr0] eqn:E.
    + injection H as <- _ _. eapply mintOnce_ok; eauto.
    + destruct (attempt <? MAX_RETRIES cfg - 1); cbv zeta in H;
        destruct (performMint_loop _ _ _ _ _ _ _ _) as [[r1 w2] tr2] eqn:E2;
        injection H as -> _ _; eapply IH; eauto.
Qed.

Lemma performMint_ok body w r w' tr :
  performMint K cfg body w = (Ok r, w', tr) ->
  Js.truthy (Js.or_else (email body) (phone body)) = true
  /\ identifier r = str (Js.or_else (email body) (phone body))
  /\ minted r.
Proof.
  unfold performMint.
  destruct (Js.truthy (Js.or_else (email body) (phone body))) eqn:T; cbn [negb];
    [|discriminate].
  intros H. apply performMint_loop_ok in H as (Hs & Hi & _ & Ha).
  split; [reflexivity|]. split; [exact Hi|].
  repeat split; auto. rewrite Hi.
  destruct (Js.or_else (email body) (phone body)) as [s|]; [|discriminate].
  cbn in *. intros ->. discriminate.
Qed.

Lemma breaker_consistent_reset cb :
  0 <= CIRCUIT_BREAKER_THRESHOLD cfg -> breaker_consistent cfg (reset cb).
Proof.
  intros H. split; cbn; [lia|].
  destruct (Z.gtb_spec 0 (CIRCUIT_BREAKER_THRESHOLD cfg)); [lia|reflexivity].
Qed.

Lemma breaker_consistent_record now cb :
  breaker_consistent cfg cb -> breaker_consistent cfg (recordFailure cfg now cb).
Proof.
  intros [Hf Ho]. split; cbn [recordFailure failures isOpen]; [lia|].
  destruct (Z.gtb_spec (failures cb + 1) (CIRCUIT_BREAKER_THRESHOLD cfg));
    [reflexivity|].
  rewrite Ho. destruct (Z.gtb_spec (failures cb) (CIRCUIT_BREAKER_THRESHOLD cfg));
    [lia|reflexivity].
Qed.

Lemma breaker_consistent_check now cb :
  0 <= CIRCUIT_BREAKER_THRESHOLD cfg ->
  breaker_consistent cfg cb -> breaker_consistent cfg (snd (isCircuitOpen cfg now cb)).
Proof.
  intros Ht Hc. unfold isCircuitOpen.
  destruct (isOpen cb); [|exact Hc].
  destruct (now - lastFailure cb >? CIRCUIT_BREAKER_RESET_TIME cfg); [|exact Hc].
  apply breaker_consistent_reset, Ht.
Qed.

Lemma cacheKey_inj a b : cacheKey a = cacheKey b -> a = b.
Proof. unfold cacheKey. intros H. injection H as H. exact H. Qed.

Lemma cache_get_sub now key (c c' : gmap string CacheEntry) o k e :
  cache_get now key c = (o, c') -> c' !! k = Some e -> c !! k = Some e.
Proof.
  unfold cache_get. destruct (c !! key) as [e0|] eqn:E.
  - destruct (negb (expires e0 =? 0) && (expires e0 <? now)).
    + intros [= _ <-]. intros H. apply lookup_delete_Some in H as [_ H]. exact H.
    + intros [= _ <-]. auto.
  - intros [= _ <-]. auto.
Qed.

Lemma cache_get_hit now key (c c' : gmap string CacheEntry) l :
  cache_get now key c = (Some l, c') ->
  c' = c /\ exists e, c !! key = Some e /\ stored e = l.
Proof.
  unfold cache_get. destruct (c !! key) as [e0|] eqn:E; [|discriminate].
  destruct (negb (expires e0 =? 0) && (expires e0 <? now)); [discriminate|].
  intros [= <- <-]. eauto.
Qed.

Lemma state_wf_cache ss c' now key o :
  state_wf cfg ss -> cache_get now key (cache ss) = (o, c') ->
  state_wf cfg (with_cache ss c').
Proof.
  intros (Hb & Hh & Hc) Hget. repeat split; try assumption; try apply Hb.
  intros k e Hk. cbn in Hk. apply (Hc k e). eapply cache_get_sub; eauto.
Qed.

Lemma cacheMiddleware_wf now body ss :
  state_wf cfg ss -> state_wf cfg (snd (cacheMiddleware now body ss)).
Proof.
  intros Hwf. unfold cacheMiddleware.
  destruct (negb (Js.truthy (Js.or_else (email body) (phone body)))); [exact Hwf|].
  destruct (cache_get _ _ _) as [[l|] c'] eqn:E; cbn [snd];
    eapply state_wf_cache; eauto.
Qed.

Lemma cacheMiddleware_heap now body ss :
  heap (snd (cacheMiddleware now body ss)) = heap ss.
Proof.
  unfold cacheMiddleware.
  destruct (negb (Js.truthy (Js.or_else (email body) (phone body)))); [reflexivity|].
  destruct (cache_get _ _ _) as [[l|] c']; reflexivity.
Qed.

Lemma circuitBreakerMiddleware_wf now ss :
  0 <= CIRCUIT_BREAKER_THRESHOLD cfg ->
  state_wf cfg ss -> state_wf cfg (snd (circuitBreakerMiddleware cfg now ss)).
Proof.
  intros Ht (Hb & Hh & Hc). unfold circuitBreakerMiddleware.
  pose proof (breaker_consistent_check now _ Ht Hb) as Hb'. revert Hb'.
  destruct (isCircuitOpen cfg now (circuitBreaker ss)) as [[|] cb']; cbn [snd];
    intros Hb'; repeat split; try assumption; apply Hb'.
Qed.

Lemma circuitBreakerMiddleware_heap now ss :
  heap (snd (circuitBreakerMiddleware cfg now ss)) = heap ss.
Proof.
  unfold circuitBreakerMiddleware.
  destruct (isCircuitOpen cfg now (circuitBreaker ss)) as [[|] cb']; reflexivity.
Qed.

Lemma mintHandler_wf body ss w :
  0 <= CIRCUIT_BREAKER_THRESHOLD cfg ->
  state_wf cfg ss ->
  state_wf cfg (handled_state (mintHandler K cfg body ss w))
  /\ exists more, heap (handled_state (mintHandler K cfg body ss w)) = heap ss ++ more.
Proof.
  intros Ht (Hb & Hh & Hc). unfold mintHandler, handled_state.
  destruct (initializeCapsule K w) as [[[capsule|e] w1] tr1]; cbn [fst snd].
  2:{ split; [repeat split; try assumption; apply Hb|]. exists []. symmetry. apply app_nil_r. }
  destruct (performMint K cfg body w1) as [[[result|e] w2] tr2] eqn:E; cbn [fst snd].
  - apply performMint_ok in E as (T & Hid & Hm). rewrite T.
    split; [|exists [result]; reflexivity].
    split; [apply breaker_consistent_reset, Ht|]. cbn [heap cache].
    split; [apply Forall_app; split; [exact Hh|repeat constructor; apply Hm]|].
    intros key e. unfold cache_set. rewrite lookup_insert. case_decide as Hk.
    + intros [= <-]. cbn [stored]. exists result. split.
      * rewrite lookup_app_r by lia. rewrite Nat.sub_diag. reflexivity.
      * rewrite Hid. symmetry. exact Hk.
    + intros He. destruct (Hc key e He) as (r & Hr & Hkey).
      exists r. split; [|exact Hkey]. apply lookup_app_l_Some. exact Hr.
  - split; [|exists []; symmetry; apply app_nil_r].
    split; [apply breaker_consistent_record, Hb|]. split; assumption.
Qed.

End StateFacts.

(** X10: the shared state stays in order across requests.  If the threshold
    is not negative and the state is in order (the breaker's flag agrees with
    its counter, the heap holds minted results only, every cache entry points
    into the heap under the key of the identifier stored there), then it
    still is after any [POST /mint], and the heap has only grown at its end:
    no stored result is changed or dropped. *)
Theorem postMint_keeps_state `{X : Env} (K : Constants) (cfg : ServerConfig)
    (body : MintBody) (ss : ServerState) (w : W) :
  0 <= CIRCUIT_BREAKER_THRESHOLD cfg ->
  state_wf cfg ss ->
  state_wf cfg (handled_state (postMint K cfg body ss w))
  /\ exists more, heap (handled_state (postMint K cfg body ss w)) = heap ss ++ more.
Proof.
  intros Ht Hwf.
  assert (Hsame : state_wf cfg ss /\ exists more, heap ss = heap ss ++ more).
  { split; [exact Hwf|]. exists []. symmetry. apply app_nil_r. }
  unfold postMint.
  destruct (limiter w) as [[|] w1]; [|exact Hsame].
  destruct (validateRequest body) as [r|body1]; [exact Hsame|].
  pose proof (cacheMiddleware_wf cfg (clock w1) body1 ss Hwf) as H1.
  pose proof (cacheMiddleware_heap (clock w1) body1 ss) as G1.
  revert H1 G1.
  destruct (cacheMiddleware (clock w1) body1 ss) as [[r|u] ss1]; cbn [snd]; intros H1 G1.
  { unfold handled_state. cbn [fst snd]. split; [exact H1|].
    exists []. rewrite G1. symmetry. apply app_nil_r. }
  pose proof (circuitBreakerMiddleware_wf cfg (clock w1) ss1 Ht H1) as H2.
  pose proof (circuitBreakerMiddleware_heap cfg (clock w1) ss1) as G2.
  revert H2 G2.
  destruct (circuitBreakerMiddleware cfg (clock w1) ss1) as [[r|u'] ss2]; cbn [snd];
    intros H2 G2.
  { unfold handled_state. cbn [fst snd]. split; [exact H2|].
    exists []. rewrite G2, G1. symmetry. apply app_nil_r. }
  destruct (mintHandler_wf K cfg body1 ss2 w1 Ht H2) as (H3 & more & G3).
  split; [exact H3|]. exists more. rewrite G3, G2, G1. reflexivity.
Qed.

Lemma postMint_keeps_state_witness :
  state_wf defaultConfig
    (handled_state (postMint (X:=Demo.env) Demo.constants defaultConfig
                      {| email := Some "a@b.co"; phone := None |}
                      Demo.fresh Demo.world0)).
Proof.
  apply (postMint_keeps_state (X:=Demo.env) Demo.constants defaultConfig
           {| email := Some "a@b.co"; phone := None |} Demo.fresh Demo.world0).
  - cbn. lia.
  - split; [split; [cbn; lia|reflexivity]|].
    split; [constructor|].
    intros key e H. cbn in H. rewrite lookup_empty in H. discriminate.
Defined.

Lemma mintFailure_code (cfg : ServerConfig) e :
  code (mintFailure cfg e) = 503 \/ code (mintFailure cfg e) = 500.
Proof.
  unfold mintFailure.
  destruct (instanceof e ServerCapsuleInitializationError); [left; reflexivity|].
  destruct (instanceof e ServerWalletOperationError); right; reflexivity.
Qed.

Lemma validateRequest_rejects body r : validateRequest body = Respond r -> code r = 400.
Proof.
  intros H. destruct (acceptable body) eqn:A.
  - rewrite (proj1 (validateRequest_cases body) A) in H. discriminate.
  - destruct (proj2 (validateRequest_cases body) A) as (r' & Hr & Hc). congruence.
Qed.

(** X11: in a state that is in order, a [POST /mint] answered with status
    200 always carries a result that exists in the heap, with status
    ["success"], the identifier of the validated request and a non-empty
    wallet address, whether it was minted now or came from the cache. *)
Theorem ok_response_is_minted_result `{X : Env} (K : Constants) (cfg : ServerConfig)
    (body : MintBody) (ss : ServerState) (w : W) :
  state_wf cfg ss ->
  code (handled_response (postMint K cfg body ss w)) = 200 ->
  exists body1 res,
    validateRequest body = Next body1
    /\ wire (heap (handled_state (postMint K cfg body ss w)))
         (payload (handled_response (postMint K cfg body ss w))) = Some (inl res)
    /\ identifier res = str (Js.or_else (email body1) (phone body1))
    /\ minted res.
Proof.
  intros (Hb & Hh & Hc). unfold postMint, handled_response, handled_state.
  destruct (limiter w) as [[|] w1]; [|cbn; discriminate].
  destruct (validateRequest body) as [r|body1] eqn:Hval.
  { cbn [fst snd]. rewrite (validateRequest_rejects _ _ Hval). discriminate. }
  pose proof (validated_identifier _ _ Hval) as T.
  unfold cacheMiddleware. rewrite T. cbn [negb].
  destruct (cache_get _ _ _) as [[l|] c'] eqn:Hget.
  - cbn [fst snd code payload]. intros _.
    apply cache_get_hit in Hget as (-> & e & He & <-).
    destruct (Hc _ _ He) as (res & Hres & Hkey).
    exists body1, res. split; [reflexivity|]. cbn [with_cache heap wire].
    split; [rewrite Hres; reflexivity|].
    split; [symmetry; apply cacheKey_inj, Hkey|].
    rewrite Forall_lookup in Hh. eapply Hh; eauto.
  - unfold circuitBreakerMiddleware.
    destruct (isCircuitOpen cfg (clock w1) (circuitBreaker (with_cache ss c')))
      as [[|] cb']; [cbn; discriminate|].
    unfold mintHandler.
    destruct (initializeCapsule K w1) as [[[capsule|e] w2] tr1]; [|cbn; discriminate].
    destruct (performMint K cfg body1 w2) as [[[result|e] w3] tr2] eqn:E.
    + cbn [fst snd code payload]. intros _.
      apply performMint_ok in E as (_ & Hid & Hm).
      exists body1, result. split; [reflexivity|]. cbn [heap with_breaker with_cache wire].
      split; [|split; assumption].
      rewrite lookup_app_r by lia. rewrite Nat.sub_diag. reflexivity.
    + cbn [fst snd]. destruct (mintFailure_code cfg e) as [-> | ->]; discriminate.
Qed.

Lemma ok_response_is_minted_result_witness :
  exists body1 res,
    validateRequest {| email := Some "User@Example.com"; phone := None |} = Next body1
    /\ wire (heap (handled_state
                     (postMint (X:=Demo.env) Demo.constants defaultConfig
                        {| email := Some "User@Example.com"; phone := None |}
                        Demo.fresh Demo.world0)))
         (payload (handled_response
                     (postMint (X:=Demo.env) Demo.constants defaultConfig
                        {| email := Some "User@Example.com"; phone := None |}
                        Demo.fresh Demo.world0))) = Some (inl res)
    /\ identifier res = str (Js.or_else (email body1) (phone body1))
    /\ minted res.
Proof.
  apply (ok_response_is_minted_result (X:=Demo.env) Demo.constants defaultConfig
           {| email := Some "User@Example.com"; phone := None |}
           Demo.fresh Demo.world0).
  - split; [split; [cbn; lia|reflexivity]|].
    split; [constructor|].
    intros key e H. cbn in H. rewrite lookup_empty in H. discriminate.
  - vm_compute. reflexivity.
Defined.

(** X12: a request answered with 400 or 429 costs nothing: the shared state
    is exactly as before, no collaborator was called, and the world has only
    seen the rate limiter. *)
Theorem rejected_request_is_free `{X : Env} (K : Constants) (cfg : ServerConfig)
    (body : MintBody) (ss : ServerState) (w : W) :
  code (handled_response (postMint K cfg body ss w)) = 400
  \/ code (handled_response (postMint K cfg body ss w)) = 429 ->
  handled_state (postMint K cfg body ss w) = ss
  /\ handled_trace (postMint K cfg body ss w) = []
  /\ handled_world (postMint K cfg body ss w) = snd (limiter w).
Proof.
  unfold postMint, handled_response, handled_state, handled_trace, handled_world.
  destruct (limiter w) as [[|] w1]; [|cbn; auto].
  destruct (validateRequest body) as [r|body1]; [cbn; auto|].
  destruct (cacheMiddleware (clock w1) body1 ss) as [[r|u] ss1] eqn:Hc.
  { unfold cacheMiddleware in Hc.
    destruct (negb (Js.truthy (Js.or_else (email body1) (phone body1))));
      [discriminate|].
    destruct (cache_get _ _ _) as [[l|] c']; [|discriminate].
    injection Hc as <- _. cbn. intros [H|H]; discriminate. }
  destruct (circuitBreakerMiddleware cfg (clock w1) ss1) as [[r|u'] ss2] eqn:Hb.
  { unfold circuitBreakerMiddleware in Hb.
    destruct (isCircuitOpen cfg (clock w1) (circuitBreaker ss1)) as [[|] cb'];
      [|discriminate].
    injection Hb as <- _. cbn. intros [H|H]; discriminate. }
  unfold mintHandler.
  destruct (initializeCapsule K w1) as [[[capsule|e] w2] tr1];
    [|cbn; intros [H|H]; discriminate].
  destruct (performMint K cfg body1 w2) as [[[result|e] w3] tr2];
    [cbn; intros [H|H]; discriminate|].
  cbn [fst snd]. destruct (mintFailure_code cfg e) as [-> | ->];
    intros [H|H]; discriminate.
Qed.

Lemma rejected_request_is_free_witness :
  handled_state (postMint (X:=Demo.env) Demo.constants defaultConfig
                   {| email := None; phone := Some "12345" |} Demo.served Demo.world0)
  = Demo.served
  /\ handled_trace (postMint (X:=Demo.env) Demo.constants defaultConfig
                      {| email := None; phone := Some "12345" |} Demo.served Demo.world0)
     = []
  /\ handled_world (postMint (X:=Demo.env) Demo.constants defaultConfig
                      {| email := None; phone := Some "12345" |} Demo.served Demo.world0)
     = Demo.world0.
Proof.
  apply (rejected_request_is_free (X:=Demo.env) Demo.constants defaultConfig
           {| email := None; phone := Some "12345" |} Demo.served Demo.world0).
  left. reflexivity.
Defined.

(** X13: what the handler stores, the cache middleware finds.  After a mint
    answered with 200, the same body is served from the cache with the same
    reference for as long as the entry lives: for ever when [CACHE_TTL] is 0,
    else up to and including [CACHE_TTL * 1000] ms after the time it was
    stored; later than that it is handed on to the next step. *)
Theorem minted_result_is_cached `{X : Env} (K : Constants) (cfg : ServerConfig)
    (body : MintBody) (ss ss' : ServerState) (w w' : W) (ref : loc)
    (tr : list event) (now : Z) :
  mintHandler K cfg body ss w
    = ({| code := 200; payload := JsonResult ref |}, ss', w', tr) ->
  (CACHE_TTL cfg = 0 \/ now <= clock w' + CACHE_TTL cfg * 1000 ->
     cacheMiddleware now body ss'
     = (Respond {| code := 200; payload := JsonResult ref |}, ss'))
  /\ (CACHE_TTL cfg <> 0 -> clock w' + CACHE_TTL cfg * 1000 <> 0 ->
      now > clock w' + CACHE_TTL cfg * 1000 ->
      fst (cacheMiddleware now body ss') = Next tt).
Proof.
  unfold mintHandler.
  destruct (initializeCapsule K w) as [[[capsule|e] w1] tr1]; [|discriminate].
  destruct (performMint K cfg body w1) as [[[result|e] w2] tr2] eqn:E.
  2:{ intros H. exfalso. injection H as H _ _ _.
      destruct (mintFailure_code cfg e) as [Hc|Hc]; rewrite H in Hc; discriminate. }
  apply performMint_ok in E as (T & _ & _). rewrite T.
  intros [= <- <- <- _].
  unfold cacheMiddleware. rewrite T. cbn [negb cache].
  unfold cache_get, cache_set. rewrite lookup_insert_eq. cbn [expires stored].
  split.
  - intros Hlive.
    assert ((negb ((if CACHE_TTL cfg =? 0 then 0 else clock w2 + CACHE_TTL cfg * 1000) =? 0)
             && ((if CACHE_TTL cfg =? 0 then 0 else clock w2 + CACHE_TTL cfg * 1000)
                 <? now)) = false) as ->.
    { destruct (Z.eqb_spec (CACHE_TTL cfg) 0); [reflexivity|].
      destruct Hlive as [|Hlive]; [contradiction|].
      apply andb_false_iff. right. apply Z.ltb_ge. lia. }
    reflexivity.
  - intros Httl Hnz Hlate.
    destruct (Z.eqb_spec (CACHE_TTL cfg) 0); [contradiction|].
    destruct (Z.eqb_spec (clock w2 + CACHE_TTL cfg * 1000) 0); [contradiction|].
    destruct (Z.ltb_spec (clock w2 + CACHE_TTL cfg * 1000) now); [|lia].
    reflexivity.
Qed.

Lemma minted_result_is_cached_witness :
  exists ss',
    cacheMiddleware 4600000 {| email := Some "a@b.co"; phone := None |} ss'
    = (Respond {| code := 200; payload := JsonResult 0%nat |}, ss').
Proof.
  eexists.
  apply (proj1 (minted_result_is_cached (X:=Demo.env) Demo.constants defaultConfig
                  {| email := Some "a@b.co"; phone := None |}
                  Demo.fresh _ Demo.world0 Demo.world0 0%nat _ 4600000
                  ltac:(vm_compute; reflexivity))).
  right. vm_compute. discriminate.
Defined.

(* ===================================================================== *)
(** ** Provisioning: the wallet that is created                            *)
(* ===================================================================== *)

Section StoreThrows.

Context `{X : Env}.

Lemma storeUserShare_throws identifier userShare identifierType w e w' tr :
  storeUserShare identifier userShare identifierType w = (Throw e, w', tr) ->
  e = Err ClsError "Failed to store user share" None.
Proof.
  unfold storeUserShare. intros H.
  apply (try_catch_wraps _ (fun _ => Err ClsError "Failed to store user share" None))
    in H as [cause ->].
  reflexivity.
Qed.

(** What the wrapper throws after at least one invocation was thrown by an
    invocation. *)
Lemma retry_loop_throws_from {T} (operation : M (W:=W) T) maxRetries retryDelay
    (P : exn -> Prop) :
  (forall w e w' tr, operation w = (Throw e, w', tr) -> P e) ->
  forall remaining attempt lastError w e w' tr,
    match lastError with Some e0 => P e0 | None => remaining <> O end ->
    retry_loop sleep operation maxRetries retryDelay remaining attempt lastError w
      = (Throw e, w', tr) ->
    P e.
Proof.
  intros Hop. induction remaining as [|remaining IH];
    intros attempt lastError w e w' tr Hlast H.
  - cbn [retry_loop] in H. unfold throw in H. injection H as <- _ _.
    destruct lastError; [exact Hlast|contradiction].
  - rewrite retry_loop_step in H.
    destruct (operation w) as [[[v|error] w1] tr0] eqn:E; [discriminate|].
    apply Hop in E.
    destruct (attempt =? maxRetries).
    + injection H as <- _ _. exact E.
    + destruct (retry_loop _ _ _ _ _ _ _ _) as [[r w2] tr2] eqn:E2.
      injection H as -> _ _.
      exact (IH _ (Some error) _ _ _ _ E E2).
Qed.

Lemma retry3_storeUserShare_throws identifier userShare identifierType w e w' tr :
  retry3 (storeUserShare identifier userShare identifierType) w = (Throw e, w', tr) ->
  e = Err ClsError "Failed to store user share" None.
Proof.
  unfold retry3, retry.
  apply (retry_loop_throws_from _ _ _
           (fun e0 => e0 = Err ClsError "Failed to store user share" None)).
  - intros w0 e0 w0' tr0. apply storeUserShare_throws.
  - vm_compute. discriminate.
Qed.

End StoreThrows.

(** X14: when the custodial service reports no wallet, provisioning creates
    one, exports the user share and stores it; the wallet returned is the one
    created.  If storing fails after its retries, provisioning fails with
    [WalletOperationError('Wallet operation failed')] around that failure,
    although the wallet has been created.  With an empty identifier nothing
    is called at all. *)
Theorem new_wallet_provisioned `{X : Env} (capsule : Capsule) (identifier : string)
    (identifierType : PregenIdentifierType) (w w1 w2 w3 w4 : W)
    (tr1 tr2 tr3 tr4 : list event) (wallet : Wallet) (share : string)
    (stored : outcome unit) :
  (identifier = "" ->
     createOrGetPregenWallet capsule identifier identifierType w
     = (Throw (Err ClientsWalletOperationError
                 "Invalid identifier or identifier type" None), w, []))
  /\
  (identifier <> "" ->
   checkWallet capsule identifier identifierType w = (Ok false, w1, tr1) ->
   createWallet capsule identifier identifierType w1 = (Ok wallet, w2, tr2) ->
   exportShare capsule w2 = (Ok share, w3, tr3) ->
   retry3 (storeUserShare identifier share identifierType) w3 = (stored, w4, tr4) ->
   createOrGetPregenWallet capsule identifier identifierType w
   = (match stored with
      | Ok _ => Ok wallet
      | Throw e => Throw (walletOperationFailed e)
      end, w4, tr1 ++ tr2 ++ tr3 ++ tr4)).
Proof.
  split.
  - intros ->. reflexivity.
  - intros Hid Hcheck Hcreate Hshare Hstore.
    assert (Hne : nonempty identifier = true).
    { unfold nonempty. destruct (String.eqb_spec identifier ""); [contradiction|reflexivity]. }
    unfold checkWallet in Hcheck. unfold createWallet in Hcreate.
    unfold exportShare in Hshare.
    unfold createOrGetPregenWallet. rewrite Hne. cbn [negb].
    unfold try_catch. unfold bind at 1. rewrite Hcheck. cbn [negb].
    unfold bind at 1. rewrite Hcreate.
    unfold bind at 1. rewrite Hshare.
    unfold bind at 1. rewrite Hstore.
    destruct stored as [[]|e]; unfold ret, throw, walletOperationFailed.
    + rewrite !app_nil_r. reflexivity.
    + apply retry3_storeUserShare_throws in Hstore. subst e.
      rewrite !app_nil_r. reflexivity.
Qed.

Lemma new_wallet_provisioned_witness :
  createOrGetPregenWallet (X:=DemoNew.env) tt "new@example.com" EMAIL Demo.world0
  = (Ok Demo.wallet0, Demo.world0,
     [EvAttempt 1 [EvCall (HasPregenWallet "new@example.com" EMAIL)]]
     ++ [EvAttempt 1 [EvCall (CreateWalletPreGen "new@example.com" EMAIL)]]
     ++ [EvAttempt 1 [EvCall GetUserShare]]
     ++ [EvAttempt 1 [EvCall (DbInsertShare "new@example.com" "share-1" EMAIL)]]).
Proof.
  apply (proj2 (new_wallet_provisioned (X:=DemoNew.env) tt "new@example.com" EMAIL
                  Demo.world0 Demo.world0 Demo.world0 Demo.world0 Demo.world0
                  [EvAttempt 1 [EvCall (HasPregenWallet "new@example.com" EMAIL)]]
                  [EvAttempt 1 [EvCall (CreateWalletPreGen "new@example.com" EMAIL)]]
                  [EvAttempt 1 [EvCall GetUserShare]]
                  [EvAttempt 1 [EvCall (DbInsertShare "new@example.com" "share-1" EMAIL)]]
                  Demo.wallet0 "share-1" (Ok tt))
           ltac:(discriminate) eq_refl eq_refl eq_refl eq_refl).
Defined.

(* ===================================================================== *)
(** ** The viem client signs through the adapter                           *)
(* ===================================================================== *)

Lemma customSignMessage_ok `{X : Env} capsule message (w w' : W) s tr :
  customSignMessage capsule message w = (Ok s, w', tr) ->
  exists sig, sig <> "" /\ s = "0x" +:+ fixV sig.
Proof.
  unfold customSignMessage, try_catch.
  destruct (capsule_wallets capsule w) as [wallets|]; [|discriminate].
  destruct (firstWallet wallets) as [wallet|]; [|discriminate].
  unfold bind at 1.
  destruct (retry3 _ w) as [[[res|e] w1] tr1]; [|discriminate].
  destruct (signature res) as [|sig|]; try discriminate.
  destruct (nonempty sig) eqn:Hn; [|discriminate].
  unfold ret. intros [= <- _ _]. exists sig. split; [|reflexivity].
  intros ->. discriminate.
Qed.

(** X15: the client that [createViemClient] returns signs through the
    adapter of the same session: its [signMessage] is [customSignMessage],
    so whatever it returns is ["0x"] followed by an adjusted signature, and
    whatever it throws is [SigningError('Message signing failed')]. *)
Theorem viem_client_signs_through_adapter `{X : Env} (K : Constants)
    (capsule : Capsule) (w w' : W) (client : WalletClient W ViemBase)
    (tr : list event) :
  createViemClient K capsule w = (Ok client, w', tr) ->
  forall message w0,
    signMessage client message w0 = customSignMessage capsule message w0
    /\ (forall s w1 tr1,
          signMessage client message w0 = (Ok s, w1, tr1) ->
          exists sig, sig <> "" /\ s = "0x" +:+ fixV sig)
    /\ (forall e w1 tr1,
          signMessage client message w0 = (Throw e, w1, tr1) ->
          exists cause, e = signingFailed cause).
Proof.
  intros H.
  assert (Hc : forall message w0,
             signMessage client message w0 = customSignMessage capsule message w0).
  { unfold createViemClient in H.
    destruct (capsule_wallets capsule w); [|discriminate].
    unfold try_catch in H.
    destruct (bind _ _ w) as [[[c|e] w1] tr1] eqn:E; [|unfold throw in H; discriminate].
    injection H as -> _ _.
    apply bind_ok in E as (account & w2 & tr2 & tr3 & _ & E & _).
    destruct (negb (nonempty (ALCHEMY_RPC_URL K))); [discriminate|].
    apply bind_ok in E as (v & w3 & tr4 & tr5 & _ & E & _).
    unfold ret in E. injection E as <- _ _. reflexivity. }
  intros message w0. split; [apply Hc|]. split.
  - intros s w1 tr1. rewrite Hc. apply customSignMessage_ok.
  - intros e w1 tr1. rewrite Hc. apply customSignMessage_throws.
Qed.

Lemma viem_client_signs_through_adapter_witness :
  signMessage (W:=Demo.World) (ViemBase:=unit)
    {| viem_base := tt;
       signMessage := fun message => customSignMessage (X:=Demo.env) tt message |}
    "hello" Demo.world0
  = customSignMessage (X:=Demo.env) tt "hello" Demo.world0.
Proof.
  apply (viem_client_signs_through_adapter (X:=Demo.env) Demo.constants tt
           Demo.world0 Demo.world0
           {| viem_base := tt;
              signMessage := fun message => customSignMessage (X:=Demo.env) tt message |}
           [EvCall CreateCapsuleAccount; EvCall CreateCapsuleViemClient]
           eq_refl "hello" Demo.world0).
Defined.

(* ===================================================================== *)
(** ** The byte adjustment on hexadecimal signatures                       *)
(* ===================================================================== *)

Lemma adjustedCheck_all v : 0 <= v < 27 -> adjustedCheck v = true.
Proof.
  intros Hv.
  assert (H : forallb adjustedCheck (List.map Z.of_nat (List.seq 0 27)) = true)
    by (vm_compute; reflexivity).
  rewrite forallb_forall in H. apply H.
  rewrite <- (Z2Nat.id v) by lia. apply in_map, in_seq. lia.
Qed.

Lemma allChars_take p n (s : string) :
  allChars p s = true -> allChars p (Js.take n s) = true.
Proof.
  revert s. induction n as [|n IH]; intros [|c s]; simpl; auto.
  intros H. apply andb_true_iff in H as [Hc H]. rewrite Hc. simpl. auto.
Qed.

Lemma allChars_app p (a b : string) :
  allChars p (a +:+ b) = allChars p a && allChars p b.
Proof.
  induction a as [|c a IH]; [reflexivity|].
  change (p c && allChars p (a +:+ b) = p c && allChars p a && allChars p b).
  rewrite IH, andb_assoc. reflexivity.
Qed.

Lemma length_take_string n (s : string) :
  (n <= String.length s)%nat -> String.length (Js.take n s) = n.
Proof.
  revert s. induction n as [|n IH]; intros [|c s]; simpl; intros H; try lia.
  rewrite IH; [reflexivity|lia].
Qed.

(** X16: on a hexadecimal signature the adjustment touches the last byte
    only: the result is again a hexadecimal signature of the same length
    with the same bytes before the last, and adjusting twice is the same as
    adjusting once. *)
Theorem fixV_stable (sig : string) :
  hexSignature sig = true ->
  hexSignature (fixV sig) = true
  /\ String.length (fixV sig) = String.length sig
  /\ Js.sliceButLast2 (fixV sig) = Js.sliceButLast2 sig
  /\ fixV (fixV sig) = fixV sig.
Proof.
  intros Hsig. destruct (fixV_hex sig Hsig) as (v & Hv & Hrange & Hfix & _).
  destruct (Z.ltb_spec v 27) as [Hlt|Hge].
  - pose proof (adjustedCheck_all v ltac:(lia)) as Hadj. unfold adjustedCheck in Hadj.
    apply andb_true_iff in Hadj as [Hadj Hparse].
    apply andb_true_iff in Hadj as [Hlen Hhex]. apply Nat.eqb_eq in Hlen.
    destruct (Js.parseInt16 (twoHex (v + 27))) as [v'|] eqn:Hp; [|discriminate].
    apply Z.eqb_eq in Hparse. subst v'.
    unfold hexSignature in Hsig. apply andb_true_iff in Hsig as [Hall Hn].
    apply Nat.leb_le in Hn.
    assert (Hbody : String.length (Js.sliceButLast2 sig) = (String.length sig - 2)%nat).
    { unfold Js.sliceButLast2. apply length_take_string. lia. }
    rewrite Hfix. repeat split.
    + unfold hexSignature. rewrite allChars_app, length_app_string, Hhex, Hlen.
      unfold Js.sliceButLast2. rewrite (allChars_take _ _ _ Hall). cbn [andb].
      apply Nat.leb_le. lia.
    + rewrite length_app_string, Hlen, Hbody. lia.
    + unfold Js.sliceButLast2 at 1. rewrite length_app_string, Hlen.
      replace (String.length (Js.sliceButLast2 sig) + 2 - 2)%nat
        with (String.length (Js.sliceButLast2 sig)) by lia.
      apply take_app_string.
    + unfold fixV at 1. rewrite sliceLast2_app by exact Hlen. rewrite Hp.
      cbn [Js.ltNum]. destruct (Z.ltb_spec (v + 27) 27); [lia|reflexivity].
  - rewrite Hfix. repeat split; auto.
Qed.

Lemma fixV_stable_witness :
  hexSignature (fixV "8f3a01") = true
  /\ String.length (fixV "8f3a01") = 6%nat
  /\ Js.sliceButLast2 (fixV "8f3a01") = "8f3a"
  /\ fixV (fixV "8f3a01") = fixV "8f3a01".
Proof. apply (fixV_stable "8f3a01"). reflexivity. Defined.

(* ===================================================================== *)
(** ** A store that reports an error                                       *)
(* ===================================================================== *)

Section StoreErrorFacts.

Context `{X : Env}.

Lemma retry3_always_throws {T} (operation : M (W:=W) T) (e : exn) (tr0 : list event) w :
  (forall w0, exists w0', operation w0 = (Throw e, w0', tr0)) ->
  exists w',
    retry3 operation w
    = (Throw e, w',
       [EvAttempt 1 tr0; EvSleep 1000; EvAttempt 2 tr0; EvSleep 1000; EvAttempt 3 tr0]).
Proof.
  intros H. unfold retry3, retry, MAX_RETRIES_clients, RETRY_DELAY.
  change (Z.to_nat 3) with 3%nat.
  rewrite retry_loop_step. destruct (H w) as [wa ->]. cbn [Z.eqb Pos.eqb].
  rewrite retry_loop_step. destruct (H (sleep 1000 wa)) as [wb ->]. cbn [Z.add Z.eqb Pos.add Pos.succ Pos.eqb].
  rewrite retry_loop_step. destruct (H (sleep 1000 wb)) as [wc ->]. cbn [Z.add Z.eqb Pos.add Pos.succ Pos.eqb].
  eexists. reflexivity.
Qed.

Lemma getUserShareFromDatabase_error identifier w0 :
  (exists res w0', supabase_select_share identifier w0 = (Ok res, w0')
                   /\ sel_error res <> None) ->
  exists w0',
    getUserShareFromDatabase identifier w0
    = (Throw (Err ClsError "Failed to get user share" None), w0',
       [EvCall (DbSelectShare identifier)]).
Proof.
  intros (res & w0' & Hq & He). exists w0'.
  unfold getUserShareFromDatabase, try_catch, bind, external. rewrite Hq.
  destruct (sel_error res); [reflexivity|contradiction].
Qed.

End StoreErrorFacts.

(** X17: when the custodial service reports a wallet but the store answers
    every share query with an error, provisioning asks the store three
    times, never hands a share to the session, and fails with
    [WalletOperationError('Wallet operation failed')] whose cause is the
    plain [Error('Failed to get user share')]: the store's own error is
    dropped. *)
Theorem store_error_fails_provisioning `{X : Env} (capsule : Capsule)
    (identifier : string) (identifierType : PregenIdentifierType)
    (w w1 : W) (tr1 : list event) :
  identifier <> "" ->
  (forall w0, exists res w0',
      supabase_select_share identifier w0 = (Ok res, w0') /\ sel_error res <> None) ->
  checkWallet capsule identifier identifierType w = (Ok true, w1, tr1) ->
  exists w2 tr2,
    createOrGetPregenWallet capsule identifier identifierType w
    = (Throw (walletOperationFailed (Err ClsError "Failed to get user share" None)),
       w2, tr1 ++ tr2)
    /\ calls tr2
       = [DbSelectShare identifier; DbSelectShare identifier; DbSelectShare identifier].
Proof.
  intros Hid Hstore Hcheck.
  assert (Hne : nonempty identifier = true).
  { unfold nonempty. destruct (String.eqb_spec identifier ""); [contradiction|reflexivity]. }
  destruct (retry3_always_throws (getUserShareFromDatabase identifier)
              (Err ClsError "Failed to get user share" None)
              [EvCall (DbSelectShare identifier)] w1) as [w2 Hload].
  { intros w0. apply getUserShareFromDatabase_error, Hstore. }
  exists w2, [EvAttempt 1 [EvCall (DbSelectShare identifier)]; EvSleep 1000;
             EvAttempt 2 [EvCall (DbSelectShare identifier)]; EvSleep 1000;
             EvAttempt 3 [EvCall (DbSelectShare identifier)]].
  split.
  - unfold checkWallet in Hcheck.
    unfold createOrGetPregenWallet. rewrite Hne. cbn [negb].
    unfold try_catch. unfold bind at 1. rewrite Hcheck. cbn [negb].
    unfold bind at 1. rewrite Hload. unfold throw, walletOperationFailed.
    cbv iota. rewrite !app_nil_r. reflexivity.
  - reflexivity.
Qed.

Lemma store_error_fails_provisioning_witness :
  exists w2 tr2,
    createOrGetPregenWallet (X:=DemoNew.env) tt "known@example.com" EMAIL Demo.world0
    = (Throw (walletOperationFailed (Err ClsError "Failed to get user share" None)),
       w2,
       [EvAttempt 1 [EvCall (HasPregenWallet "known@example.com" EMAIL)]] ++ tr2)
    /\ calls tr2
       = [DbSelectShare "known@example.com"; DbSelectShare "known@example.com";
          DbSelectShare "known@example.com"].
Proof.
  apply (store_error_fails_provisioning (X:=DemoNew.env) tt "known@example.com" EMAIL
           Demo.world0 Demo.world0
           [EvAttempt 1 [EvCall (HasPregenWallet "known@example.com" EMAIL)]]).
  - discriminate.
  - intros w0. eexists _, _. split; [reflexivity|discriminate].
  - reflexivity.
Defined.

(* ===================================================================== *)
(** ** The health route                                                    *)
(* ===================================================================== *)

Section HealthFacts.

Context `{X : Env} (K : Constants).

Lemma createViemClient_message capsule w e w' tr :
  createViemClient K capsule w = (Throw e, w', tr) ->
  exists c, e = Err ClientsWalletOperationError
                  "Capsule instance is not properly initialized" c
            \/ e = Err ClientsWalletOperationError "Failed to create Viem client" c.
Proof.
  unfold createViemClient. destruct (capsule_wallets capsule w).
  - intros H.
    apply (try_catch_wraps _ (fun error => Err ClientsWalletOperationError
                                "Failed to create Viem client" (Some error)))
      in H as [cause ->].
    eauto.
  - unfold throw. intros [= <- _ _]. eauto.
Qed.

Lemma createAlchemyClient_message viemClient w e w' tr :
  createAlchemyClient K viemClient w = (Throw e, w', tr) ->
  exists c, e = Err ClientsWalletOperationError "Failed to create Alchemy client" c.
Proof.
  unfold createAlchemyClient. intros H.
  apply (try_catch_wraps _ (fun error => Err ClientsWalletOperationError
                              "Failed to create Alchemy client" (Some error)))
    in H as [cause ->].
  eauto.
Qed.

Lemma healthClients_calls : bounded 11 (healthClients K).
Proof.
  unfold healthClients.
  bind_with 6%nat 5%nat; [apply initializeCapsule_calls|]. intros c.
  bind_with 2%nat 3%nat; [apply createViemClient_calls|]. intros v.
  bind_with 3%nat 0%nat; [apply createAlchemyClient_calls|]. intros a. leaf.
Qed.

Lemma healthClients_message w e w' tr :
  healthClients K w = (Throw e, w', tr) ->
  exists msg c cls, e = Err cls msg c /\ In msg healthMessages.
Proof.
  unfold healthClients. intros H.
  apply bind_throw in H as [[tr1 H]|(c & w1 & tr1 & tr2 & _ & H)].
  { apply initializeCapsule_throws in H as [cause ->].
    eexists _, _, _. split; [reflexivity|]. cbn. auto. }
  apply bind_throw in H as [[tr3 H]|(v & w2 & tr3 & tr4 & _ & H)].
  { apply createViemClient_message in H as [c0 [-> | ->]];
      eexists _, _, _; (split; [reflexivity|]); cbn; auto. }
  apply bind_throw in H as [[tr5 H]|(a & w3 & tr5 & tr6 & _ & H)].
  { apply createAlchemyClient_message in H as [c0 ->].
    eexists _, _, _. split; [reflexivity|]. cbn. auto. }
  discriminate.
Qed.

End HealthFacts.

(** X18: [GET /health] always answers, after at most 11 collaborator calls:
    either 200 with every flag true, or 500 with one of four fixed messages.
    The message names the step that failed (connecting, the uninitialised
    session, the viem client, the account client), never the underlying
    cause. *)
Theorem health_reports `{X : Env} (K : Constants) (w : W) :
  (health_code (fst (fst (healthHandler K w))) = 200
   /\ health_body (fst (fst (healthHandler K w))) = Healthy true true true true true
   \/
   health_code (fst (fst (healthHandler K w))) = 500
   /\ exists msg, health_body (fst (fst (healthHandler K w))) = Unhealthy msg
                  /\ In msg healthMessages)
  /\ (ncalls (snd (healthHandler K w)) <= 11)%nat.
Proof.
  unfold healthHandler.
  pose proof (healthClients_calls K w) as Hn. revert Hn. unfold trace_of.
  destruct (healthClients K w) as [[[clients|e] w1] tr] eqn:E; cbn [fst snd];
    intros Hn; (split; [|exact Hn]).
  - left. split; reflexivity.
  - right. split; [reflexivity|].
    apply healthClients_message in E as (msg & c & cls & -> & Hin).
    exists msg. split; [reflexivity|exact Hin].
Qed.

(* ===================================================================== *)
(** ** After the cool-down                                                 *)
(* ===================================================================== *)

(** X19: the breaker has no half-open state.  Once more than the reset time
    has passed since the last failure, the next validated, uncached request
    closes the breaker and runs the workflow; if that mint fails, the counter
    restarts at 1 with the time of this failure, so the breaker stays closed
    unless the threshold is below 1. *)
Theorem failure_after_cooldown_counts_from_one `{X : Env} (K : Constants)
    (cfg : ServerConfig) (body body1 : MintBody) (ss : ServerState)
    (w w1 w2 w3 : W) (c' : gmap string CacheEntry) (capsule : Capsule)
    (e : exn) (tr1 tr2 : list event) :
  limiter w = (true, w1) ->
  validateRequest body = Next body1 ->
  cache_get (clock w1) (cacheKey (str (Js.or_else (email body1) (phone body1))))
    (cache ss) = (None, c') ->
  isOpen (circuitBreaker ss) = true ->
  clock w1 - lastFailure (circuitBreaker ss) > CIRCUIT_BREAKER_RESET_TIME cfg ->
  initializeCapsule K w1 = (Ok capsule, w2, tr1) ->
  performMint K cfg body1 w2 = (Throw e, w3, tr2) ->
  circuitBreaker (handled_state (postMint K cfg body ss w))
  = {| failures := 1;
       lastFailure := clock w3;
       isOpen := 1 >? CIRCUIT_BREAKER_THRESHOLD cfg |}
  /\ handled_trace (postMint K cfg body ss w) = tr1 ++ tr2.
Proof.
  intros Hlim Hval Hmiss Hopen Hlate Hinit Hmint.
  unfold postMint, handled_state, handled_trace. rewrite Hlim, Hval.
  unfold cacheMiddleware. rewrite (validated_identifier _ _ Hval). cbn [negb].
  rewrite Hmiss.
  unfold circuitBreakerMiddleware, isCircuitOpen.
  cbn [with_cache circuitBreaker]. rewrite Hopen.
  destruct (Z.gtb_spec (clock w1 - lastFailure (circuitBreaker ss))
              (CIRCUIT_BREAKER_RESET_TIME cfg)); [|lia].
  unfold mintHandler. rewrite Hinit, Hmint. cbn [fst snd].
  split; [|reflexivity].
  cbn [with_breaker circuitBreaker]. unfold recordFailure, reset.
  cbn [failures isOpen lastFailure]. change (0 + 1) with 1.
  destruct (1 >? CIRCUIT_BREAKER_THRESHOLD cfg); reflexivity.
Qed.

Lemma failure_after_cooldown_counts_from_one_witness :
  circuitBreaker
    (handled_state
       (postMint (X:=Demo.env) Demo.constants defaultConfig
          {| email := Some "a@b.co"; phone := None |} Demo.tripped
          {| Demo.time := 1300000; Demo.pending := 0; Demo.relayDown := true |}))
  = {| failures := 1; lastFailure := 1303000; isOpen := false |}.
Proof.
  refine (proj1 (failure_after_cooldown_counts_from_one (X:=Demo.env) Demo.constants
                   defaultConfig
                   {| email := Some "a@b.co"; phone := None |}
                   {| email := Some "a@b.co"; phone := None |}
                   Demo.tripped
                   {| Demo.time := 1300000; Demo.pending := 0; Demo.relayDown := true |}
                   {| Demo.time := 1300000; Demo.pending := 0; Demo.relayDown := true |}
                   {| Demo.time := 1300000; Demo.pending := 0; Demo.relayDown := true |}
                   {| Demo.time := 1303000; Demo.pending := 0; Demo.relayDown := true |}
                   ∅ tt (Err ClsError "relay unavailable" None) _ _
                   eq_refl eq_refl eq_refl eq_refl _ _ _)).
  - cbn. lia.
  - vm_compute. reflexivity.
  - vm_compute. reflexivity.
Defined.

(* ===================================================================== *)
(** ** Both fields supplied                                                *)
(* ===================================================================== *)

(** C10, as stated, fails on the code: a phone that is the empty string is
    not a valid phone, yet next to a valid e-mail it is not looked at and
    the request is handed on. *)
Lemma empty_phone_counterexample :
  validateRequest {| email := Some "a@b.c"; phone := Some "" |}
    = Next {| email := Some "a@b.c"; phone := Some "" |}
  /\ ~ (forall e p,
          isValidEmail e = true -> isValidPhone p = false ->
          exists r, validateRequest {| email := Some e; phone := Some p |} = Respond r
                    /\ code r = 400).
Proof.
  split; [reflexivity|].
  intros H. destruct (H "a@b.c" "" eq_refl eq_refl) as (r & Hr & _). discriminate.
Qed.

(** C10, amended: when both fields are non-empty strings both are checked.
    An invalid e-mail is answered with status 400 whatever the phone is; a
    valid e-mail next to an invalid phone is answered with status 400 and
    the phone message; when both pass, the e-mail is handed on in lower case
    and the phone as it came, and [performMint] runs its passes for the
    e-mail as an [EMAIL], so that is what any result it returns carries. *)
Theorem both_fields_validated `{X : Env} (K : Constants) (cfg : ServerConfig)
    (e p : string) :
  e <> "" -> p <> "" ->
  (isValidEmail e = false ->
     validateRequest {| email := Some e; phone := Some p |}
     = Respond {| code := 400;
                  payload := JsonError {| error := "Invalid email format";
                                          retryAfter := None;
                                          details := None |} |})
  /\
  (isValidEmail e = true -> isValidPhone p = false ->
     validateRequest {| email := Some e; phone := Some p |}
     = Respond {| code := 400;
                  payload := JsonError
                    {| error := "Invalid phone format. Use international format (e.g. +5511999999999)";
                       retryAfter := None;
                       details := None |} |})
  /\
  (isValidEmail e = true -> isValidPhone p = true ->
     validateRequest {| email := Some e; phone := Some p |}
     = Next {| email := Some (Js.toLowerCase e); phone := Some p |}
     /\ performMint K cfg {| email := Some (Js.toLowerCase e); phone := Some p |}
        = performMint_loop K cfg (Js.toLowerCase e) EMAIL
            (Z.to_nat (MAX_RETRIES cfg)) 0 None
     /\ forall w r w' tr,
          performMint K cfg {| email := Some (Js.toLowerCase e); phone := Some p |} w
            = (Ok r, w', tr) ->
          identifier r = Js.toLowerCase e /\ identifierType r = EMAIL).
Proof.
  intros Hne Hnp.
  assert (Te : Js.truthy (Some e) = true).
  { cbn. destruct (String.eqb_spec e ""); [contradiction|reflexivity]. }
  assert (Tp : Js.truthy (Some p) = true).
  { cbn. destruct (String.eqb_spec p ""); [contradiction|reflexivity]. }
  split; [|split].
  - intros He. unfold validateRequest. cbn [email phone str].
    rewrite Te, Tp, He. reflexivity.
  - intros He Hp. unfold validateRequest. cbn [email phone str].
    rewrite Te, Tp, He, Hp. reflexivity.
  - intros He Hp.
    destruct (valid_email_trim _ He) as [Ht Hn].
    assert (HT : Js.truthy (Some (Js.toLowerCase e)) = true) by exact Hn.
    assert (Hrun : performMint K cfg {| email := Some (Js.toLowerCase e); phone := Some p |}
                   = performMint_loop K cfg (Js.toLowerCase e) EMAIL
                       (Z.to_nat (MAX_RETRIES cfg)) 0 None).
    { unfold performMint. cbn [email phone]. unfold Js.or_else.
      rewrite HT. cbv iota. rewrite HT. reflexivity. }
    split; [|split].
    + unfold validateRequest. cbn [email phone str].
      rewrite Te, Tp, He, Hp. cbn [negb andb].
      rewrite Ht, (proj1 (valid_phone_trim _ Hp)). reflexivity.
    + exact Hrun.
    + intros w r w' tr. rewrite Hrun. intros H.
      apply performMint_loop_ok in H as (_ & Hi & Hk & _). auto.
Qed.

Lemma both_fields_validated_witness :
  validateRequest {| email := Some "a@b.co"; phone := Some "12345" |}
    = Respond {| code := 400;
                 payload := JsonError
                   {| error := "Invalid phone format. Use international format (e.g. +5511999999999)";
                      retryAfter := None;
                      details := None |} |}
  /\ validateRequest {| email := Some "A@b.co"; phone := Some "+5511999999999" |}
    = Next {| email := Some "a@b.co"; phone := Some "+5511999999999" |}.
Proof.
  split.
  - apply (proj1 (proj2 (both_fields_validated (X:=Demo.env) Demo.constants defaultConfig
                           "a@b.co" "12345" ltac:(discriminate) ltac:(discriminate)))
             eq_refl eq_refl).
  - apply (proj1 (proj2 (proj2 (both_fields_validated (X:=Demo.env) Demo.constants
                                  defaultConfig "A@b.co" "+5511999999999"
                                  ltac:(discriminate) ltac:(discriminate)))
                    eq_refl eq_refl)).
Defined.
